(** * Simple Transport Protocol: sender.py and receiver.py

    A shallow embedding of the two peers of the protocol.  Python integers
    are [Z]; [%] is [Z.modulo] (the divisor is always positive) and
    [int(x / y)] is [Z.quot].  Lists indexed by packet id are [list]s read
    with stdpp's lookup, dictionaries are [gmap]s, byte strings are
    [list byte].  Every thread body is a function from the object's fields
    to the new fields, the events it caused, and the way the body ended
    (next iteration, [break], or an uncaught exception). *)

From Stdlib Require Import ZArith Lia List Bool.
From Stdlib Require Import Strings.Byte.
From stdpp Require Import base numbers list gmap sorting.

Open Scope Z_scope.

(** ** Wire codec: [struct.pack('2H', ...)] and [struct.unpack('2H', ...)] *)

(** ['H'] without a prefix uses the byte order of the host. *)
Inductive byteorder := LittleEndian | BigEndian.

(** What the code takes from the host: the byte order of ['H'], and, for
    files opened in text mode ([open(name, 'r')], [open(name, 'w')]), the
    encoding of the locale and the line separator.  A [str] is represented
    by its UTF-8 encoding, a well-formed list of bytes:
    [locale_decode] turns the bytes of a file into the text they stand for
    ([None] is [UnicodeDecodeError]), [locale_encode] turns a text into the
    bytes written ([None] is [UnicodeEncodeError]), [linesep] is
    [os.linesep]. *)
Class Platform := {
  native : byteorder;
  locale_decode : list byte -> option (list byte);
  locale_encode : list byte -> option (list byte);
  linesep : list byte
}.

Definition byte_of_Z (z : Z) : byte :=
  match Byte.of_N (Z.to_N z) with
  | Some b => b
  | None => x00
  end.

Definition Z_of_byte (b : byte) : Z := Z.of_N (Byte.to_N b).

Definition in_H (v : Z) : bool := (0 <=? v) && (v <? 65536).

Definition pack_H `{Platform} (v : Z) : list byte :=
  match native with
  | LittleEndian => [byte_of_Z (v mod 256); byte_of_Z (v / 256)]
  | BigEndian => [byte_of_Z (v / 256); byte_of_Z (v mod 256)]
  end.

Definition unpack_H `{Platform} (b0 b1 : byte) : Z :=
  match native with
  | LittleEndian => Z_of_byte b0 + 256 * Z_of_byte b1
  | BigEndian => 256 * Z_of_byte b0 + Z_of_byte b1
  end.

(** [struct.pack('2H', flag, seqno)]: [None] is [struct.error], raised when
    an argument is outside the range of an unsigned short. *)
Definition pack_2H `{Platform} (flag seqno : Z) : option (list byte) :=
  if in_H flag && in_H seqno then Some (pack_H flag ++ pack_H seqno) else None.

(** [struct.unpack('2H', m)]: [None] is [struct.error], raised when the
    buffer is not exactly four bytes long. *)
Definition unpack_2H `{Platform} (m : list byte) : option (Z * Z) :=
  match m with
  | [a; b; c; d] => Some (unpack_H a b, unpack_H c d)
  | _ => None
  end.

(** ** Text

    [bytes.decode('utf-8')] is strict: it accepts the well-formed byte
    sequences of UTF-8 (no overlong form, no surrogate, nothing above
    U+10FFFF) and raises [UnicodeDecodeError] on anything else. *)

Definition between (lo hi : Z) (b : byte) : bool :=
  (lo <=? Z_of_byte b) && (Z_of_byte b <=? hi).

Fixpoint utf8_valid (l : list byte) : bool :=
  match l with
  | [] => true
  | a :: r =>
      if between 0 127 a then utf8_valid r
      else if between 194 223 a then
        match r with
        | b :: r1 => between 128 191 b && utf8_valid r1
        | _ => false
        end
      else if between 224 239 a then
        match r with
        | b :: c :: r2 =>
            between (if Z_of_byte a =? 224 then 160 else 128)
                    (if Z_of_byte a =? 237 then 159 else 191) b
            && between 128 191 c && utf8_valid r2
        | _ => false
        end
      else if between 240 244 a then
        match r with
        | b :: c :: d :: r3 =>
            between (if Z_of_byte a =? 240 then 144 else 128)
                    (if Z_of_byte a =? 244 then 143 else 191) b
            && between 128 191 c && between 128 191 d && utf8_valid r3
        | _ => false
        end
      else false
  end.

(** [b.decode('utf-8')]: the text, in its UTF-8 representation, or [None]
    for [UnicodeDecodeError].  [s.encode('utf-8')] is the identity on this
    representation. *)
Definition decode_utf8 (b : list byte) : option (list byte) :=
  if utf8_valid b then Some b else None.

(** What a file opened with [open(name, 'r')] does to the text it reads
    (universal newlines): ['\r\n'] and a lone ['\r'] become ['\n']. *)
Fixpoint universal_newlines (l : list byte) : list byte :=
  match l with
  | [] => []
  | a :: r =>
      if Z_of_byte a =? 13 then
        x0a :: match r with
               | b :: r1 =>
                   if Z_of_byte b =? 10 then universal_newlines r1
                   else universal_newlines r
               | [] => []
               end
      else a :: universal_newlines r
  end.

(** What a file opened with [open(name, 'w')] does to the text it is given:
    every ['\n'] becomes [os.linesep]. *)
Definition write_newlines `{Platform} (text : list byte) : list byte :=
  text ≫= (fun c => if Z_of_byte c =? 10 then linesep else [c]).

(** ** Threads as state transformers

    A thread body maps the fields of the object to the new fields, the
    events it caused, and either its value or the exception that ended it. *)

Inductive exn :=
| pack_error     (* struct.error: 'H' format requires 0 <= number <= 65535 *)
| unpack_error   (* struct.error: unpack requires a buffer of 4 bytes *)
| IndexError     (* list index out of range *)
| UnicodeDecodeError (* a byte string that is not well-formed text *)
| UnicodeEncodeError (* a text the encoding of the locale cannot express *)
| SystemExit     (* exit(0) *)
| fuel           (* the model stopped unrolling a loop that is still running *).

Inductive event :=
| snd (flag seqno : Z) (payload : list byte) (* socket.sendto *)
| drp (flag seqno : Z)                       (* simulated loss *)
| timer (i : Z)      (* Thread(target=retranseg_exec, args=(i,)).start() *)
| closer             (* Thread(target=timed_close).start() *)
| sleep              (* time.sleep(...) *)
| uncaught (e : exn) (* the traceback of an exception that ended a thread *).

(** How the body of a loop hands over: to the next iteration or out. *)
Inductive flow := Continue | Break.

Definition M (S A : Type) : Type := S -> S * list event * (A + exn).

#[global] Instance M_ret {S} : MRet (M S) := fun A a s => (s, [], inl a).

#[global] Instance M_bind {S} : MBind (M S) := fun A B k m s =>
  match m s with
  | (s1, tr, inl a) => let '(s2, tr', r) := k a s1 in (s2, tr ++ tr', r)
  | (s1, tr, inr e) => (s1, tr, inr e)
  end.

Definition get {S} : M S S := fun s => (s, [], inl s).
Definition modify {S} (f : S -> S) : M S unit := fun s => (f s, [], inl tt).
Definition emit {S} (e : event) : M S unit := fun s => (s, [e], inl tt).
Definition raise {S A} (e : exn) : M S A := fun s => (s, [], inr e).

(** A thread of its own: an exception ends it, its traceback is printed
    and no other thread sees it. *)
Definition thread {S A} (m : M S A) : M S unit := fun s =>
  match m s with
  | (s1, tr, inl _) => (s1, tr, inl tt)
  | (s1, tr, inr e) => (s1, tr ++ [uncaught e], inl tt)
  end.

(** The events of [m], handed to its continuation as well. *)
Definition listen {S A} (m : M S A) : M S (A * list event) := fun s =>
  match m s with
  | (s1, tr, inl a) => (s1, tr, inl (a, tr))
  | (s1, tr, inr e) => (s1, tr, inr e)
  end.

Definition st_of {S A} (r : S * list event * (A + exn)) : S := r.1.1.
Definition tr_of {S A} (r : S * list event * (A + exn)) : list event := r.1.2.
Definition val_of {S A} (r : S * list event * (A + exn)) : A + exn := r.2.

Definition is_snd (flag : Z) (e : event) : bool :=
  match e with
  | snd f _ _ => f =? flag
  | _ => false
  end.

Definition is_timer (i : Z) (e : event) : bool :=
  match e with
  | timer j => j =? i
  | _ => false
  end.

Definition count (p : event -> bool) (tr : list event) : nat :=
  length (filter (fun e => p e = true) tr).

Definition len (b : list byte) : Z := Z.of_nat (length b).

(** Python's [l[i]] and [l[i] = v]: a negative index counts from the end,
    [None] is [IndexError]. *)
Definition py_index {A} (l : list A) (i : Z) : option A :=
  if 0 <=? i then l !! Z.to_nat i
  else if - Z.of_nat (length l) <=? i then l !! Z.to_nat (Z.of_nat (length l) + i)
  else None.

Definition py_setitem {A} (l : list A) (i : Z) (v : A) : option (list A) :=
  if (0 <=? i) && (i <? Z.of_nat (length l)) then Some (<[Z.to_nat i := v]> l)
  else if (i <? 0) && (- Z.of_nat (length l) <=? i)
       then Some (<[Z.to_nat (Z.of_nat (length l) + i) := v]> l)
  else None.

(** ** receiver.py *)

Module Receiver.

Record state := mk {
  flp : Z;
  rlp : Z;
  buffer : gmap Z (list byte);
  DSN : Z;
  established : bool;
  n_fin : Z;
  dupdata : Z;
  drpack : Z;
  drpdata : Z;
  lendata : Z;
  active : bool
}.

(** [Receiver.__init__], without the socket and the log. *)
Definition init (flp rlp : Z) : state :=
  {| flp := flp; rlp := rlp; buffer := ∅; DSN := 0; established := false;
     n_fin := 0; dupdata := 0; drpack := 0; drpdata := 0; lendata := 0;
     active := true |}.

Definition set_buffer (v : gmap Z (list byte)) (s : state) : state :=
  mk (flp s) (rlp s) v (DSN s) (established s) (n_fin s) (dupdata s)
     (drpack s) (drpdata s) (lendata s) (active s).
Definition set_DSN (v : Z) (s : state) : state :=
  mk (flp s) (rlp s) (buffer s) v (established s) (n_fin s) (dupdata s)
     (drpack s) (drpdata s) (lendata s) (active s).
Definition set_established (v : bool) (s : state) : state :=
  mk (flp s) (rlp s) (buffer s) (DSN s) v (n_fin s) (dupdata s) (drpack s)
     (drpdata s) (lendata s) (active s).
Definition set_n_fin (v : Z) (s : state) : state :=
  mk (flp s) (rlp s) (buffer s) (DSN s) (established s) v (dupdata s)
     (drpack s) (drpdata s) (lendata s) (active s).
Definition set_dupdata (v : Z) (s : state) : state :=
  mk (flp s) (rlp s) (buffer s) (DSN s) (established s) (n_fin s) v (drpack s)
     (drpdata s) (lendata s) (active s).
Definition set_drpack (v : Z) (s : state) : state :=
  mk (flp s) (rlp s) (buffer s) (DSN s) (established s) (n_fin s) (dupdata s)
     v (drpdata s) (lendata s) (active s).
Definition set_drpdata (v : Z) (s : state) : state :=
  mk (flp s) (rlp s) (buffer s) (DSN s) (established s) (n_fin s) (dupdata s)
     (drpack s) v (lendata s) (active s).
Definition set_lendata (v : Z) (s : state) : state :=
  mk (flp s) (rlp s) (buffer s) (DSN s) (established s) (n_fin s) (dupdata s)
     (drpack s) (drpdata s) v (active s).
Definition set_active (v : bool) (s : state) : state :=
  mk (flp s) (rlp s) (buffer s) (DSN s) (established s) (n_fin s) (dupdata s)
     (drpack s) (drpdata s) (lendata s) v.

Section Code.
Context `{Platform}.

(** [send_msg(flag, seqno)]; [r] is the value of [randrange(100)], drawn
    only when [flag != 4]. *)
Definition send_msg (r : Z) (flag seqno : Z) : M state unit :=
  s ← get;
  if negb (flag =? 4) && (r <? rlp s) then
    emit (drp flag seqno);;
    modify (set_drpack (drpack s + 1))
  else
    match pack_2H flag seqno with
    | Some _ => emit (snd flag seqno [])
    | None => raise pack_error
    end.

(** [reset()] *)
Definition reset (r : Z) : M state unit :=
  send_msg r 4 0;;
  modify (set_active false).

(** The search for the position of a data segment:
    [for i in range(0, 15): if (stp_seqno + 65536*i - self.DSN) % 1000 == 0: ...] *)
Fixpoint find_pos (n : nat) (i : Z) (stp_seqno dsn : Z) : Z :=
  match n with
  | O => 0
  | S n' =>
      if (stp_seqno + 65536 * i - dsn) mod 1000 =? 0
      then Z.quot (stp_seqno + 65536 * i - dsn) 1000
      else find_pos n' (i + 1) stp_seqno dsn
  end.

(** The cumulative acknowledgement:
    [for i in range(0, 1000): if i not in self.buffer.keys(): break ...] *)
Fixpoint cumulate (n : nat) (i : Z) (buf : gmap Z (list byte)) (cumu_seqno : Z) : Z :=
  match n with
  | O => cumu_seqno
  | S n' =>
      match buf !! i with
      | None => cumu_seqno
      | Some b => cumulate n' (i + 1) buf (cumu_seqno + len b)
      end
  end.

Definition cumu_seqno (s : state) : Z :=
  cumulate 1000 0 (buffer s) (DSN s) mod 2 ^ 16.

(** The branch of [fw_listener] for a DATA segment once established. *)
Definition on_data (rr : Z) (stp_seqno : Z) (payload : list byte) : M state flow :=
  s ← get;
  if negb (n_fin s =? 0) then
    reset rr;; mret Break
  else
    let pos := find_pos 15 0 stp_seqno (DSN s) in
    (match buffer s !! pos with
     | None =>
         modify (set_buffer (<[pos := payload]> (buffer s)));;
         modify (set_lendata (lendata s + len payload))
     | Some _ => modify (set_dupdata (dupdata s + 1))
     end);;
    s1 ← get;
    send_msg rr 1 (cumu_seqno s1);;
    mret Continue.

(** One iteration of the loop of [fw_listener] on the datagram
    [incoming_message]; [rf] and [rr] are the values the two calls of
    [randrange(100)] return when they are made. *)
Definition fw_listener_iter (incoming_message : list byte) (rf rr : Z) : M state flow :=
  match unpack_2H (take 4 incoming_message) with
  | None => raise unpack_error
  | Some (stp_type, stp_seqno) =>
      s ← get;
      if negb (stp_type =? 4) && (rf <? flp s) then
        emit (drp stp_type stp_seqno);;
        (if stp_type =? 0 then modify (set_drpdata (drpdata s + 1)) else mret tt);;
        mret Continue
      else if stp_type =? 4 then
        modify (set_active false);; mret Break
      else if negb (established s) then
        if stp_type =? 2 then
          modify (set_established true);;
          modify (set_DSN ((stp_seqno + 1) mod 2 ^ 16));;
          send_msg rr 1 ((stp_seqno + 1) mod 2 ^ 16);;
          mret Continue
        else
          reset rr;; mret Break
      else if stp_type =? 0 then
        on_data rr stp_seqno (drop 4 incoming_message)
      else if stp_type =? 3 then
        modify (set_n_fin (n_fin s + 1));;
        send_msg rr 1 ((stp_seqno + 1) mod 2 ^ 16);;
        (if n_fin s + 1 =? 1 then emit closer else mret tt);;
        mret Continue
      else
        reset rr;; mret Break
  end.

(** The thread [fw_listener] on the datagrams that arrive, in order:
    [while self.active: ...]. *)
Fixpoint fw_listener (arrivals : list (list byte * Z * Z)) : M state unit :=
  match arrivals with
  | [] => mret tt
  | (m, rf, rr) :: rest =>
      s ← get;
      if negb (active s) then mret tt
      else
        f ← fw_listener_iter m rf rr;
        match f with
        | Continue => fw_listener rest
        | Break => mret tt
        end
  end.

(** [timed_close()], after its sleep. *)
Definition timed_close : M state unit := modify (set_active false).

(** The loop of [run] that composes the output:
    [for i in scope: if i != 0 and i-1 not in scope: break; result += self.buffer[i]] *)
Fixpoint compose (buf : gmap Z (list byte)) (scope todo : list Z) (result : list byte)
  : list byte :=
  match todo with
  | [] => result
  | i :: rest =>
      if negb (i =? 0) && negb (bool_decide (i - 1 ∈ scope)) then result
      else compose buf scope rest (result ++ default [] (buf !! i))
  end.

(** [sorted(self.buffer.keys())] *)
Definition scope_of (buf : gmap Z (list byte)) : list Z :=
  merge_sort Z.le (elements (dom buf)).

(** The end of [run]:
    [with open(self.filename, 'w') as f: f.write(result.decode('utf-8'))].
    [open] empties the file; [decode] then raises [UnicodeDecodeError]
    unless [result] is well-formed UTF-8; [write] turns every ['\n'] of
    the text into [os.linesep], encodes the text for the locale, raising
    [UnicodeEncodeError] where that cannot be done, and writes the bytes.
    The value is the content of the file afterwards, with the exception
    that ended [run], if any. *)
Definition write_file (result : list byte) : list byte * option exn :=
  match decode_utf8 result with
  | None => ([], Some UnicodeDecodeError)
  | Some text =>
      match locale_encode (write_newlines text) with
      | Some b => (b, None)
      | None => ([], Some UnicodeEncodeError)
      end
  end.

(** [run()]: [None] while [self.active] holds (the main thread is still in
    its waiting loop), otherwise the bytes the output file holds when [run]
    ends: what [write_file] leaves there of the composed [result]. *)
Definition run (s : state) : option (list byte) :=
  if active s then None
  else
    Some (write_file
            (compose (buffer s) (scope_of (buffer s)) (scope_of (buffer s)) [])).1.

End Code.

End Receiver.


(** ** sender.py *)

(** What the threads other than the main thread are given to do: the
    listener receives a datagram, or the timer thread of a position wakes
    up from its sleep. *)
Inductive input :=
| arrive (m : list byte)
| wake (i : Z).

Module Sender.

Record state := mk {
  win_size : Z;
  buffer : list (list byte);
  segmtRcved : list Z;
  segmtSent : list Z;
  segmtTimer : list Z;
  segmtAck : gmap Z Z;
  buffer_size : Z;
  data_size : Z;
  established : bool;
  sendingdata : bool;
  finished : bool;
  terminate : bool;
  win_lb : Z;
  win_ub : Z;
  retransmit : Z;
  byteSent : Z;
  dupAck : Z;
  ISN : Z;
  DSN : Z;
  FSN : Z;
  PSN : Z;
  active : bool;
  (* not a field of the object: the thread rv_listener is still in its loop *)
  listening : bool
}.

(** [Sender.__init__], without the socket and the log; [isn] is the value
    of [randrange(0, 2**16)].  [int(int(max_win) / 1000)] divides in
    floating point and truncates; this is [Z.quot max_win 1000] as long as
    [max_win] is an integer a float holds exactly, below [2 ^ 53] in
    absolute value.  Where the value of [win_size] matters, the statements
    below keep [max_win] in that range. *)
Definition init (max_win isn : Z) : state :=
  {| win_size := Z.quot max_win 1000; buffer := []; segmtRcved := [];
     segmtSent := []; segmtTimer := []; segmtAck := ∅; buffer_size := 0;
     data_size := 0; established := false; sendingdata := false;
     finished := false; terminate := false; win_lb := 0; win_ub := 0;
     retransmit := 0; byteSent := 0; dupAck := 0; ISN := isn;
     DSN := (isn + 1) mod 2 ^ 16; FSN := 0; PSN := 0; active := true;
     listening := true |}.

Definition set_buffer (v : list (list byte)) (s : state) : state :=
  mk (win_size s) v (segmtRcved s) (segmtSent s) (segmtTimer s) (segmtAck s)
     (buffer_size s) (data_size s) (established s) (sendingdata s)
     (finished s) (terminate s) (win_lb s) (win_ub s) (retransmit s)
     (byteSent s) (dupAck s) (ISN s) (DSN s) (FSN s) (PSN s) (active s)
     (listening s).
Definition set_segmtRcved (v : list Z) (s : state) : state :=
  mk (win_size s) (buffer s) v (segmtSent s) (segmtTimer s) (segmtAck s)
     (buffer_size s) (data_size s) (established s) (sendingdata s)
     (finished s) (terminate s) (win_lb s) (win_ub s) (retransmit s)
     (byteSent s) (dupAck s) (ISN s) (DSN s) (FSN s) (PSN s) (active s)
     (listening s).
Definition set_segmtSent (v : list Z) (s : state) : state :=
  mk (win_size s) (buffer s) (segmtRcved s) v (segmtTimer s) (segmtAck s)
     (buffer_size s) (data_size s) (established s) (sendingdata s)
     (finished s) (terminate s) (win_lb s) (win_ub s) (retransmit s)
     (byteSent s) (dupAck s) (ISN s) (DSN s) (FSN s) (PSN s) (active s)
     (listening s).
Definition set_segmtTimer (v : list Z) (s : state) : state :=
  mk (win_size s) (buffer s) (segmtRcved s) (segmtSent s) v (segmtAck s)
     (buffer_size s) (data_size s) (established s) (sendingdata s)
     (finished s) (terminate s) (win_lb s) (win_ub s) (retransmit s)
     (byteSent s) (dupAck s) (ISN s) (DSN s) (FSN s) (PSN s) (active s)
     (listening s).
Definition set_segmtAck (v : gmap Z Z) (s : state) : state :=
  mk (win_size s) (buffer s) (segmtRcved s) (segmtSent s) (segmtTimer s) v
     (buffer_size s) (data_size s) (established s) (sendingdata s)
     (finished s) (terminate s) (win_lb s) (win_ub s) (retransmit s)
     (byteSent s) (dupAck s) (ISN s) (DSN s) (FSN s) (PSN s) (active s)
     (listening s).
Definition set_buffer_size (v : Z) (s : state) : state :=
  mk (win_size s) (buffer s) (segmtRcved s) (segmtSent s) (segmtTimer s)
     (segmtAck s) v (data_size s) (established s) (sendingdata s) (finished s)
     (terminate s) (win_lb s) (win_ub s) (retransmit s) (byteSent s)
     (dupAck s) (ISN s) (DSN s) (FSN s) (PSN s) (active s) (listening s).
Definition set_data_size (v : Z) (s : state) : state :=
  mk (win_size s) (buffer s) (segmtRcved s) (segmtSent s) (segmtTimer s)
     (segmtAck s) (buffer_size s) v (established s) (sendingdata s)
     (finished s) (terminate s) (win_lb s) (win_ub s) (retransmit s)
     (byteSent s) (dupAck s) (ISN s) (DSN s) (FSN s) (PSN s) (active s)
     (listening s).
Definition set_established (v : bool) (s : state) : state :=
  mk (win_size s) (buffer s) (segmtRcved s) (segmtSent s) (segmtTimer s)
     (segmtAck s) (buffer_size s) (data_size s) v (sendingdata s) (finished s)
     (terminate s) (win_lb s) (win_ub s) (retransmit s) (byteSent s)
     (dupAck s) (ISN s) (DSN s) (FSN s) (PSN s) (active s) (listening s).
Definition set_sendingdata (v : bool) (s : state) : state :=
  mk (win_size s) (buffer s) (segmtRcved s) (segmtSent s) (segmtTimer s)
     (segmtAck s) (buffer_size s) (data_size s) (established s) v (finished s)
     (terminate s) (win_lb s) (win_ub s) (retransmit s) (byteSent s)
     (dupAck s) (ISN s) (DSN s) (FSN s) (PSN s) (active s) (listening s).
Definition set_finished (v : bool) (s : state) : state :=
  mk (win_size s) (buffer s) (segmtRcved s) (segmtSent s) (segmtTimer s)
     (segmtAck s) (buffer_size s) (data_size s) (established s)
     (sendingdata s) v (terminate s) (win_lb s) (win_ub s) (retransmit s)
     (byteSent s) (dupAck s) (ISN s) (DSN s) (FSN s) (PSN s) (active s)
     (listening s).
Definition set_terminate (v : bool) (s : state) : state :=
  mk (win_size s) (buffer s) (segmtRcved s) (segmtSent s) (segmtTimer s)
     (segmtAck s) (buffer_size s) (data_size s) (established s)
     (sendingdata s) (finished s) v (win_lb s) (win_ub s) (retransmit s)
     (byteSent s) (dupAck s) (ISN s) (DSN s) (FSN s) (PSN s) (active s)
     (listening s).
Definition set_win_lb (v : Z) (s : state) : state :=
  mk (win_size s) (buffer s) (segmtRcved s) (segmtSent s) (segmtTimer s)
     (segmtAck s) (buffer_size s) (data_size s) (established s)
     (sendingdata s) (finished s) (terminate s) v (win_ub s) (retransmit s)
     (byteSent s) (dupAck s) (ISN s) (DSN s) (FSN s) (PSN s) (active s)
     (listening s).
Definition set_win_ub (v : Z) (s : state) : state :=
  mk (win_size s) (buffer s) (segmtRcved s) (segmtSent s) (segmtTimer s)
     (segmtAck s) (buffer_size s) (data_size s) (established s)
     (sendingdata s) (finished s) (terminate s) (win_lb s) v (retransmit s)
     (byteSent s) (dupAck s) (ISN s) (DSN s) (FSN s) (PSN s) (active s)
     (listening s).
Definition set_retransmit (v : Z) (s : state) : state :=
  mk (win_size s) (buffer s) (segmtRcved s) (segmtSent s) (segmtTimer s)
     (segmtAck s) (buffer_size s) (data_size s) (established s)
     (sendingdata s) (finished s) (terminate s) (win_lb s) (win_ub s) v
     (byteSent s) (dupAck s) (ISN s) (DSN s) (FSN s) (PSN s) (active s)
     (listening s).
Definition set_byteSent (v : Z) (s : state) : state :=
  mk (win_size s) (buffer s) (segmtRcved s) (segmtSent s) (segmtTimer s)
     (segmtAck s) (buffer_size s) (data_size s) (established s)
     (sendingdata s) (finished s) (terminate s) (win_lb s) (win_ub s)
     (retransmit s) v (dupAck s) (ISN s) (DSN s) (FSN s) (PSN s) (active s)
     (listening s).
Definition set_dupAck (v : Z) (s : state) : state :=
  mk (win_size s) (buffer s) (segmtRcved s) (segmtSent s) (segmtTimer s)
     (segmtAck s) (buffer_size s) (data_size s) (established s)
     (sendingdata s) (finished s) (terminate s) (win_lb s) (win_ub s)
     (retransmit s) (byteSent s) v (ISN s) (DSN s) (FSN s) (PSN s) (active s)
     (listening s).
Definition set_FSN (v : Z) (s : state) : state :=
  mk (win_size s) (buffer s) (segmtRcved s) (segmtSent s) (segmtTimer s)
     (segmtAck s) (buffer_size s) (data_size s) (established s)
     (sendingdata s) (finished s) (terminate s) (win_lb s) (win_ub s)
     (retransmit s) (byteSent s) (dupAck s) (ISN s) (DSN s) v (PSN s)
     (active s) (listening s).
Definition set_PSN (v : Z) (s : state) : state :=
  mk (win_size s) (buffer s) (segmtRcved s) (segmtSent s) (segmtTimer s)
     (segmtAck s) (buffer_size s) (data_size s) (established s)
     (sendingdata s) (finished s) (terminate s) (win_lb s) (win_ub s)
     (retransmit s) (byteSent s) (dupAck s) (ISN s) (DSN s) (FSN s) v
     (active s) (listening s).
Definition set_active (v : bool) (s : state) : state :=
  mk (win_size s) (buffer s) (segmtRcved s) (segmtSent s) (segmtTimer s)
     (segmtAck s) (buffer_size s) (data_size s) (established s)
     (sendingdata s) (finished s) (terminate s) (win_lb s) (win_ub s)
     (retransmit s) (byteSent s) (dupAck s) (ISN s) (DSN s) (FSN s) (PSN s) v
     (listening s).
Definition set_listening (v : bool) (s : state) : state :=
  mk (win_size s) (buffer s) (segmtRcved s) (segmtSent s) (segmtTimer s)
     (segmtAck s) (buffer_size s) (data_size s) (established s)
     (sendingdata s) (finished s) (terminate s) (win_lb s) (win_ub s)
     (retransmit s) (byteSent s) (dupAck s) (ISN s) (DSN s) (FSN s) (PSN s)
     (active s) v.

Definition index {A} (l : list A) (i : Z) : M state A :=
  match py_index l i with
  | Some a => mret a
  | None => raise IndexError
  end.

Definition setitem {A} (l : list A) (i : Z) (v : A) : M state (list A) :=
  match py_setitem l i v with
  | Some l' => mret l'
  | None => raise IndexError
  end.

(** [data[a:b]] for [0 <= a]. *)
Definition slice (a b : Z) (data : list byte) : list byte :=
  take (Z.to_nat (b - a)) (drop (Z.to_nat a) data).

Section Code.
Context `{Platform}.

(** [send_msg(flag, seqno, i)] *)
Definition send_msg (flag seqno i : Z) : M state unit :=
  if negb (flag =? 0) then
    match pack_2H flag seqno with
    | Some _ => emit (snd flag seqno [])
    | None => raise pack_error
    end
  else
    s ← get;
    b ← index (buffer s) i;
    match pack_2H flag seqno with
    | Some _ => emit (snd flag seqno b)
    | None => raise pack_error
    end.

(** [close()] *)
Definition close : M state unit :=
  modify (set_active false);;
  raise SystemExit.

(** [reset()] *)
Definition reset : M state unit :=
  send_msg 4 0 0;;
  close.

(** [retranseg_exec(i)] from the end of its sleep to the next sleep
    ([Continue], the call of itself) or to its return ([Break]). *)
Definition retranseg_exec (i : Z) : M state flow :=
  s ← get;
  if terminate s || negb (active s) then mret Break
  else
    r ← index (segmtRcved s) i;
    if r =? 0 then
      modify (set_retransmit (retransmit s + 1));;
      send_msg 0 ((DSN s + 1000 * i) mod 2 ^ 16) i;;
      mret Continue
    else mret Break.

(** One pass of the body of [for i in range(lb, ub+1)] in
    [transeg_exec_hdlr]; [lb] is the value the loop took from
    [self.win_lb] before it started. *)
Definition transeg_body (lb i : Z) : M state flow :=
  s ← get;
  if terminate s || negb (active s) then mret Break
  else
    sent ← index (segmtSent s) i;
    if sent =? 0 then
      l ← setitem (segmtSent s) i 1;
      modify (set_segmtSent l);;
      b ← index (buffer s) i;
      modify (set_byteSent (byteSent s + len b));;
      (if i =? lb then
         t ← setitem (segmtTimer s) i 1;
         modify (set_segmtTimer t);;
         emit (timer i)
       else mret tt);;
      send_msg 0 ((DSN s + 1000 * i) mod 2 ^ 16) i;;
      mret Continue
    else if i =? lb then
      armed ← index (segmtTimer s) i;
      if armed =? 0 then
        t ← setitem (segmtTimer s) i 1;
        modify (set_segmtTimer t);;
        emit (timer i);;
        mret Continue
      else mret Continue
    else mret Continue.

(** The search for the packet the receiver asks for:
    [for i in range(0, 15): if ... % 1000 == 0: ... elif ... == self.data_size: ...] *)
Fixpoint find_pos (n : nat) (i : Z) (stp_seqno : Z) (s : state) : Z :=
  match n with
  | O => 0
  | S n' =>
      if (stp_seqno + 65536 * i - DSN s) mod 1000 =? 0
      then Z.quot (stp_seqno + 65536 * i - DSN s) 1000
      else if stp_seqno + 65536 * i - DSN s =? data_size s
      then buffer_size s
      else find_pos n' (i + 1) stp_seqno s
  end.

(** [for j in range(0, pos): self.segmtRcved[j] = 1] *)
Fixpoint mark_rcved (js : list Z) : M state unit :=
  match js with
  | [] => mret tt
  | j :: rest =>
      s ← get;
      l ← setitem (segmtRcved s) j 1;
      modify (set_segmtRcved l);;
      mark_rcved rest
  end.

(** The branch of [rv_listener] for an ACK while data is being sent. *)
Definition on_ack (stp_seqno : Z) : M state unit :=
  s ← get;
  let pos := find_pos 15 0 stp_seqno s in
  (if negb (PSN s =? stp_seqno) then modify (set_segmtAck ∅) else mret tt);;
  if pos =? win_lb s then
    modify (set_dupAck (dupAck s + 1));;
    if PSN s =? stp_seqno then
      match segmtAck s !! pos with
      | None => modify (set_segmtAck (<[pos := 1]> (segmtAck s)))
      | Some c =>
          modify (set_segmtAck (<[pos := c + 1]> (segmtAck s)));;
          if (c + 1) mod 3 =? 0 then
            send_msg 0 ((DSN s + 1000 * pos) mod 2 ^ 16) pos;;
            modify (set_retransmit (retransmit s + 1))
          else mret tt
      end
    else mret tt
  else if win_lb s <? pos then
    mark_rcved (seqZ 0 pos);;
    if pos =? buffer_size s then
      modify (set_sendingdata false);;
      modify (set_FSN stp_seqno)
    else
      modify (set_win_ub (Z.min (pos + win_size s - 1) (buffer_size s - 1)));;
      modify (set_win_lb pos)
  else mret tt.

(** One iteration of the loop of [rv_listener] on the datagram that
    [recvfrom(4)] returns. *)
Definition rv_listener_iter (incoming_message : list byte) : M state flow :=
  match unpack_2H (take 4 incoming_message) with
  | None => raise unpack_error
  | Some (stp_type, stp_seqno) =>
      s ← get;
      if stp_type =? 4 then
        modify (set_active false);; mret Break
      else
        f ← (if negb (established s) then
               if (stp_type =? 1) && (stp_seqno =? DSN s) then
                 modify (set_established true);;
                 modify (set_sendingdata true);;
                 mret Continue
               else
                 modify (set_terminate true);; mret Break
             else if sendingdata s then
               if stp_type =? 1 then
                 on_ack stp_seqno;; mret Continue
               else
                 modify (set_terminate true);; mret Break
             else
               if (stp_type =? 1) && (stp_seqno =? (FSN s + 1) mod 2 ^ 16) then
                 modify (set_finished true);; mret Continue
               else
                 modify (set_terminate true);; mret Break);
        match f with
        | Continue => modify (set_PSN stp_seqno);; mret Continue
        | Break => mret Break
        end
  end.

(** The first two lines of [read_file()]:
    [with open(self.filename, 'r') as f: data = f.read().encode('utf-8')].
    The file is opened in text mode: its bytes are decoded with the
    encoding of the locale ([None] is the [UnicodeDecodeError] that ends
    [run]), ['\r\n'] and ['\r'] become ['\n'], and the text is encoded
    as UTF-8.  [data] is this byte string, not the bytes of the file. *)
Definition read_text (file : list byte) : option (list byte) :=
  universal_newlines <$> locale_decode file.

(** [read_file()] from its third line on; [data] is the value of
    [f.read().encode('utf-8')], see [read_text].  The function is one step
    of the main thread: the listener, which runs beside it in the program,
    is given no turn between two of its assignments. *)
Definition read_file (data : list byte) : M state unit :=
  modify (set_data_size (len data));;
  modify (set_buffer_size
            (Z.quot (len data) 1000 + (if len data mod 1000 =? 0 then 0 else 1)));;
  s ← get;
  modify (set_buffer
            (buffer s ++
             ((fun i => if i =? buffer_size s - 1
                        then slice (i * 1000) (len data) data
                        else slice (i * 1000) ((i + 1) * 1000) data)
              <$> seqZ 0 (buffer_size s))));;
  modify (set_segmtRcved (replicate (Z.to_nat (buffer_size s)) 0));;
  modify (set_segmtSent (replicate (Z.to_nat (buffer_size s)) 0));;
  modify (set_segmtTimer (replicate (Z.to_nat (buffer_size s)) 0));;
  modify (set_win_ub (Z.min (win_size s - 1) (buffer_size s - 1))).

(** [read_file()] in two steps: all but its last assignment, and the last
    assignment, [self.win_ub = min(self.win_size - 1, self.buffer_size - 1)].
    The listener is running while the main thread is in [read_file]; between
    these two steps it finds the lists of the segments in place and may
    slide the window. *)
Definition read_file_lists (data : list byte) : M state unit :=
  modify (set_data_size (len data));;
  modify (set_buffer_size
            (Z.quot (len data) 1000 + (if len data mod 1000 =? 0 then 0 else 1)));;
  s ← get;
  modify (set_buffer
            (buffer s ++
             ((fun i => if i =? buffer_size s - 1
                        then slice (i * 1000) (len data) data
                        else slice (i * 1000) ((i + 1) * 1000) data)
              <$> seqZ 0 (buffer_size s))));;
  modify (set_segmtRcved (replicate (Z.to_nat (buffer_size s)) 0));;
  modify (set_segmtSent (replicate (Z.to_nat (buffer_size s)) 0));;
  modify (set_segmtTimer (replicate (Z.to_nat (buffer_size s)) 0)).

Definition read_file_window : M state unit :=
  s ← get;
  modify (set_win_ub (Z.min (win_size s - 1) (buffer_size s - 1))).


(** The thread [rv_listener] on one datagram: it stays in its loop after
    [Continue] and is gone after a [break] or an exception. *)
Definition rv_listener (m : list byte) : M state unit := fun s =>
  match rv_listener_iter m s with
  | (s1, tr, inl Continue) => (s1, tr, inl tt)
  | (s1, tr, inl Break) => (set_listening false s1, tr, inl tt)
  | (s1, tr, inr e) => (set_listening false s1, tr ++ [uncaught e], inl tt)
  end.

(** What another thread does when the scheduler of the host lets it run. *)
Definition react (x : input) : M state unit :=
  match x with
  | arrive m =>
      s ← get;
      if listening s then
        if active s then rv_listener m
        else modify (set_listening false)
      else mret tt
  | wake i => thread (retranseg_exec i)
  end.

Fixpoint reacts (xs : list input) : M state unit :=
  match xs with
  | [] => mret tt
  | x :: rest => react x;; reacts rest
  end.

(** The main thread and the two executors run against an environment: the
    network, the peer and the scheduler of the host.  The environment has a
    state of its own, sees the events of the step just made and answers with
    what the other threads of the sender are given to do before the next
    step.  The computations of this section work on the fields of the sender
    and the state of the environment together. *)
Section Threads.
Context {W : Type} (env : W -> list event -> W * list input).

(** Code of the sender, which does not see the environment. *)
Definition lift {A} (m : M state A) : M (state * W) A := fun sw =>
  match m sw.1 with
  | (s1, tr, r) => ((s1, sw.2), tr, r)
  end.

(** The other threads run. *)
Definition yield (evs : list event) : M (state * W) unit :=
  sw ← get;
  modify (fun sw => (sw.1, (env sw.2 evs).1));;
  lift (reacts (env sw.2 evs).2).

(** [estab_exec(i)]; [n] bounds the depth of the recursion. *)
Fixpoint estab_exec (n : nat) (i : Z) : M (state * W) unit :=
  match n with
  | O => raise fuel
  | S n' =>
      sw ← get;
      '(_, evs) ← listen (lift (send_msg 2 (ISN sw.1) 0);; emit sleep);
      yield evs;;
      sw1 ← get;
      if negb (established sw1.1) then
        if terminate sw1.1 || negb (active sw1.1) then mret tt
        else if i =? 4 then lift (modify (set_terminate true))
        else estab_exec n' (i + 1)
      else mret tt
  end.

(** [fin_exec(i)] *)
Fixpoint fin_exec (n : nat) (i : Z) : M (state * W) unit :=
  match n with
  | O => raise fuel
  | S n' =>
      sw ← get;
      '(_, evs) ← listen (lift (send_msg 3 (FSN sw.1) 0);; emit sleep);
      yield evs;;
      sw1 ← get;
      if negb (finished sw1.1) then
        if terminate sw1.1 || negb (active sw1.1) then mret tt
        else if i =? 4 then lift (modify (set_terminate true))
        else fin_exec n' (i + 1)
      else mret tt
  end.

(** Python's limit on the depth of a recursion. *)
Definition recursion_limit : nat := 1000.

(** [estab_hdlr()]: the executor runs in a thread of its own and is run
    here to its end; the loop of the handler, which only reads the flags,
    comes after it.  [fuel] stands for a loop that finds none of its flags
    set and goes on.  In the program the two run side by side: the handler
    may see [terminate] and send its RESET before the executor has sent its
    last SYN, so the place of the RESET among the datagrams of the executor
    is not what the program guarantees; which datagrams are sent, and how
    many of each kind, does not depend on it. *)
Definition estab_hdlr : M (state * W) unit :=
  thread (estab_exec recursion_limit 1);;
  sw ← get;
  if established sw.1 then mret tt
  else if terminate sw.1 then lift reset
  else if negb (active sw.1) then lift close
  else raise fuel.

(** [fin_hdlr()], with the executor run to its end first, as in
    [estab_hdlr]. *)
Definition fin_hdlr : M (state * W) unit :=
  thread (fin_exec recursion_limit 1);;
  sw ← get;
  if finished sw.1 then mret tt
  else if terminate sw.1 then lift reset
  else if negb (active sw.1) then lift close
  else raise fuel.

(** [for i in range(lb, ub+1): ...] of [transeg_exec_hdlr]; the other
    threads run between two passes of the body. *)
Fixpoint transeg_for (lb : Z) (range : list Z) : M (state * W) unit :=
  match range with
  | [] => mret tt
  | i :: rest =>
      '(f, evs) ← listen (lift (transeg_body lb i));
      yield evs;;
      match f with
      | Continue => transeg_for lb rest
      | Break => mret tt
      end
  end.

(** [transeg_exec_hdlr()]; [n] bounds the number of iterations of
    [while self.sendingdata]. *)
Fixpoint transeg_exec_hdlr (n : nat) : M (state * W) unit :=
  match n with
  | O => raise fuel
  | S n' =>
      sw ← get;
      if sendingdata sw.1 then
        if terminate sw.1 then lift reset
        else if negb (active sw.1) then lift close
        else
          transeg_for (win_lb sw.1)
            (seqZ (win_lb sw.1) (win_ub sw.1 + 1 - win_lb sw.1));;
          yield [];;
          transeg_exec_hdlr n'
      else mret tt
  end.

(** [run()]; [data] is what the first two lines of [read_file] obtain from
    the input file, see [read_text].  (A file that does not decode ends the
    main thread there, after the handshake, with [UnicodeDecodeError].) *)
Definition run (n : nat) (data : list byte) : M (state * W) unit :=
  estab_hdlr;;
  lift (read_file data);;
  transeg_exec_hdlr n;;
  fin_hdlr;;
  lift close.

End Threads.

End Code.

End Sender.


(** ** The words of the specification *)

(** [k] is the length of the longest prefix [0, k) of positions that are
    all present in the reassembly buffer. *)
Definition contiguous_prefix (buf : gmap Z (list byte)) (k : Z) : Prop :=
  0 <= k /\ (forall i, 0 <= i < k -> is_Some (buf !! i)) /\ buf !! k = None.

(** The sum of the payload lengths of the positions [i, i + k). *)
Definition payload_total (buf : gmap Z (list byte)) (i k : Z) : Z :=
  foldr Z.add 0 ((fun j => len (default [] (buf !! j))) <$> seqZ i k).

(** [buffer[0] ++ buffer[1] ++ ... ++ buffer[k-1]] *)
Definition prefix_bytes (buf : gmap Z (list byte)) (k : Z) : list byte :=
  concat ((fun j => default [] (buf !! j)) <$> seqZ 0 k).

(** ** States and invariants *)

Section ReceiverStates.
Context `{Platform}.

Import Receiver.

(** The states the listener and the close timer can bring about. *)
Inductive reachable : state -> Prop :=
| reach_init flp rlp : reachable (init flp rlp)
| reach_iter s m rf rr :
    reachable s -> reachable (st_of (fw_listener_iter m rf rr s))
| reach_close s : reachable s -> reachable (st_of (timed_close s)).

(** Every buffered position is below 984: fifteen turns of the sequence
    space hold 983040 bytes. *)
Definition bounded (s : state) : Prop :=
  0 <= DSN s < 65536 /\ forall k, is_Some (buffer s !! k) -> k < 984.

End ReceiverStates.

Section SenderStates.
Context `{Platform}.

Import Sender.

(** The fields a duplicate acknowledgement reads, and those it must not
    touch. *)
Record dup_frame (q : Z) (b : list byte) (s0 s : state) : Prop := {
  df_established : established s = true;
  df_sendingdata : sendingdata s = true;
  df_PSN : PSN s = q;
  df_pos : find_pos 15 0 q s = win_lb s;
  df_lb : win_lb s = win_lb s0;
  df_buffer : py_index (buffer s) (win_lb s) = Some b;
  df_DSN : DSN s = DSN s0;
  df_timer : segmtTimer s = segmtTimer s0
}.

(** The state after [n] duplicates have been counted. *)
Definition counted (n : Z) (s : state) : Prop :=
  segmtAck s !! win_lb s = if n =? 0 then None else Some n.

(** The sender after [n] further datagrams [m]. *)
Fixpoint after (n : nat) (m : list byte) (s : state) : state :=
  match n with
  | O => s
  | S n' => st_of (rv_listener_iter m (after n' m s))
  end.

End SenderStates.

(** ** Concrete inputs *)

(** The host of the examples: its native byte order is little-endian, its
    locale encodes text as UTF-8 and its line separator is ['\n']. *)
Definition little : Platform :=
  {| native := LittleEndian; locale_decode := decode_utf8;
     locale_encode := Some; linesep := [x0a] |}.

(** SYN 1999, DATA 1000 carrying "a", DATA 2000 carrying "b": the data
    sequence number 1000 lies 1000 below DSN = 2000 and is decoded as
    position -1. *)
Definition below_dsn : list (list byte * Z * Z) :=
  [([x02; x00; xcf; x07], 0, 0);
   ([x00; x00; xe8; x03; x61], 0, 0);
   ([x00; x00; xd0; x07; x62], 0, 0)].


(** The sender of a one-byte file after the handshake (ISN 7, so DSN 8)
    and [read_file]; and an ACK with sequence number 8. *)
Definition ack8 : list byte := [x01; x00; x08; x00].

Definition one_byte_sender : Sender.state :=
  st_of (Sender.read_file [x61]
           (st_of (@Sender.rv_listener_iter little ack8 (Sender.init 3000 7)))).

(** The sender of an empty file after the same handshake and [read_file]. *)
Definition empty_file_sender : Sender.state :=
  st_of (Sender.read_file []
           (st_of (@Sender.rv_listener_iter little ack8 (Sender.init 3000 7)))).





(** ** Invariants of computations

    [safe I E m]: from a state and a trace of events so far that satisfy
    [I], the computation [m] ends in a state and a trace that satisfy [I],
    and an exception it ends with is one of [E]. *)
Definition safe {S A} (I : S -> list event -> Prop) (E : exn -> Prop)
    (m : M S A) : Prop :=
  forall s tr, I s tr ->
    I (st_of (m s)) (tr ++ tr_of (m s)) /\
    forall e, val_of (m s) = inr e -> E e.

(** An invariant of the sender, whatever the state of the environment. *)
Definition whatever {W} (I : Sender.state -> list event -> Prop)
    (sw : Sender.state * W) (tr : list event) : Prop := I sw.1 tr.

(** The lower bound of the window is a position. *)
Definition lb_nonneg (s : Sender.state) (tr : list event) : Prop :=
  0 <= Sender.win_lb s.

Definition any_exn (e : exn) : Prop := True.

(** ** Sequence numbers on their way to the encoder *)

(** An event that shows a sequence number outside an unsigned short given
    to [struct.pack]: a datagram sent with such a number, or the traceback
    of the [struct.error] that [pack] raises on it. *)
Definition in_short (e : event) : Prop :=
  match e with
  | snd _ q _ => 0 <= q < 65536
  | uncaught pack_error => False
  | _ => True
  end.

Definition not_pack (e : exn) : Prop := e <> pack_error.

(** The sender keeps ISN and FSN within an unsigned short. *)
Definition sender_in_short (s : Sender.state) (tr : list event) : Prop :=
  0 <= Sender.ISN s < 65536 /\ 0 <= Sender.FSN s < 65536 /\ Forall in_short tr.

Definition receiver_in_short (s : Receiver.state) (tr : list event) : Prop :=
  Forall in_short tr.


(** ** The two peers together

    The receiver, the loopback network and the scheduler of the host as the
    environment of the sender: no datagram is lost, reordered or delayed;
    the receiver reads what the sender has just sent, and the answers reach
    the listener of the sender before the sender makes its next step.  No
    retransmission timer expires before its acknowledgement has arrived.
    The boolean tells whether the thread [fw_listener] is still running. *)

Section Lockstep.
Context `{Platform}.

(** The bytes of a datagram on the wire. *)
Definition datagram (e : event) : option (list byte) :=
  match e with
  | snd f q p => (fun h => h ++ p) <$> pack_2H f q
  | _ => None
  end.

Definition lockstep (w : Receiver.state * bool) (evs : list event)
  : (Receiver.state * bool) * list input :=
  if w.2 then
    match Receiver.fw_listener ((fun m => (m, 0, 0)) <$> omap datagram evs) w.1 with
    | (r, tr, inl _) => ((r, Receiver.active r), arrive <$> omap datagram tr)
    | (r, tr, inr _) => ((r, false), arrive <$> omap datagram tr)
    end
  else (w, []).

(** The whole transfer of [data] with both loss probabilities 0: the sender
    runs, and when it has finished the regular way the close timer of the
    receiver expires and the receiver composes its output.  [None]: the
    sender did not finish, not within [n] rounds of its sending loop or not
    at all, or the receiver has not seen a FIN. *)
Definition transfer (n : nat) (max_win isn : Z) (data : list byte)
  : option (list byte) :=
  match Sender.run lockstep n data
          (Sender.init max_win isn, (Receiver.init 0 0, true)) with
  | ((s, (r, _)), tr, inr SystemExit) =>
      if Sender.finished s && negb (Receiver.n_fin r =? 0)
      then Receiver.run (st_of (Receiver.timed_close r))
      else None
  | _ => None
  end.

End Lockstep.

(** ** Retransmission timers *)

(** [hoare P E m Q]: from a state and a trace that satisfy [P], [m] ends in
    a state and a trace that satisfy [Q], with an exception of [E] if any. *)
Definition hoare {S A} (P : S -> list event -> Prop) (E : exn -> Prop)
    (m : M S A) (Q : S -> list event -> Prop) : Prop :=
  forall s tr, P s tr ->
    Q (st_of (m s)) (tr ++ tr_of (m s)) /\
    forall e, val_of (m s) = inr e -> E e.

(** Code that leaves the flags of the segments alone and starts no timer
    keeps them and the number of timers started for each position. *)
Definition frozen (sent armed : list Z) (c : Z -> nat)
    (s : Sender.state) (tr : list event) : Prop :=
  Sender.segmtSent s = sent /\ Sender.segmtTimer s = armed /\
  forall i, count (is_timer i) tr = c i.

(** Before [read_file]: no flags, no timers. *)
Definition unread (s : Sender.state) (tr : list event) : Prop :=
  frozen [] [] (fun _ => O) s tr.

(** After [read_file]: a segment not yet sent has no timer; at most one
    timer thread was started for a position, none for a negative index, and
    where one was started the flag [segmtTimer] of the position is set. *)
Definition once (sent armed : list Z) (tr : list event) : Prop :=
  (forall (k : nat) t, sent !! k = Some 0 -> armed !! k = Some t -> t = 0) /\
  (forall k : nat,
     (count (is_timer (Z.of_nat k)) tr <= 1)%nat /\
     (count (is_timer (Z.of_nat k)) tr = 1%nat ->
      exists t, armed !! k = Some t /\ t <> 0)) /\
  (forall i, i < 0 -> count (is_timer i) tr = O).

Definition timers_once (s : Sender.state) (tr : list event) : Prop :=
  once (Sender.segmtSent s) (Sender.segmtTimer s) tr.

(** ** The window of the sender *)

Section Window.
Context `{Platform}.

Import Sender.

(** The states of the sender before [read_file]: the other threads run
    ([react]), and the main thread changes no field but [terminate], when
    [estab_exec] gives up. *)
Inductive handshaking (max_win isn : Z) : state -> Prop :=
| hs_init : handshaking max_win isn (init max_win isn)
| hs_react s x :
    handshaking max_win isn s ->
    handshaking max_win isn (st_of (react x s))
| hs_giveup s :
    handshaking max_win isn s ->
    handshaking max_win isn (set_terminate true s).

(** The states of the sender in its sending phase, from [read_file] on: the
    other threads run, and the main thread makes a pass of the body of the
    loop of [transeg_exec_hdlr], for any [lb] and [i].  The steps are whole
    ones: [read_file] with no turn of the listener inside it, a whole
    iteration of the listener, a whole wake-up of a timer thread, a whole
    pass of the body.  The states a thread goes through in the middle of
    such a step, between the two assignments of a slide or before the last
    assignment of [read_file], are not among them. *)
Inductive sending (max_win isn : Z) (data : list byte) : state -> Prop :=
| sd_read s :
    handshaking max_win isn s ->
    sending max_win isn data (st_of (read_file data s))
| sd_react s x :
    sending max_win isn data s ->
    sending max_win isn data (st_of (react x s))
| sd_body s lb i :
    sending max_win isn data s ->
    sending max_win isn data (st_of (transeg_body lb i s)).


(** The number of partitions of a file of [size] bytes. *)
Definition partitions (size : Z) : Z :=
  Z.quot size 1000 + (if size mod 1000 =? 0 then 0 else 1).

(** Before [read_file] the window is where [__init__] put it. *)
Definition unread_window (max_win : Z) (s : state) : Prop :=
  win_lb s = 0 /\ win_ub s = 0 /\ segmtRcved s = [] /\
  win_size s = Z.quot max_win 1000.


(** A step that leaves the window and the list of acknowledged segments
    alone. *)
Definition same_window (s s' : state) : Prop :=
  win_lb s' = win_lb s /\ win_ub s' = win_ub s /\
  segmtRcved s' = segmtRcved s /\ win_size s' = win_size s /\
  buffer_size s' = buffer_size s.

End Window.

(** ** Handshake and teardown *)

(** The number of datagrams with [flag] sent so far. *)
Definition sent_times (flag : Z) (c : nat)
    (s : Sender.state) (tr : list event) : Prop :=
  count (is_snd flag) tr = c.

(** The sender is running, with ISN and FSN within an unsigned short, and
    has sent no RESET. *)
Definition alive (s : Sender.state) (tr : list event) : Prop :=
  Sender.active s = true /\ sender_in_short s tr /\ sent_times 4 0 s tr.

Definition no_exn (e : exn) : Prop := False.

Section Quiet.
Context `{Platform}.

(** What the scheduler lets happen, a RESET of the peer apart. *)
Definition no_reset (x : input) : Prop :=
  match x with
  | arrive m => forall q, unpack_2H (take 4 m) <> Some (4, q)
  | wake _ => True
  end.

(** An environment in which the peer sends no RESET. *)
Definition unreset {W} (env : W -> list event -> W * list input) : Prop :=
  forall w evs, Forall no_reset (env w evs).2.

(** The sender has given up: one RESET with seqno 0, which in [estab_hdlr]
    and [fin_hdlr] as they are embedded here, the executor run to its end
    first, is the last datagram sent, and [close()]. *)
Definition given_up {W} (r : (Sender.state * W) * list event * (unit + exn))
  : Prop :=
  (exists tr0, tr_of r = tr0 ++ [snd 4 0 []] /\ count (is_snd 4) tr0 = O) /\
  val_of r = inr SystemExit /\
  Sender.active (st_of r).1 = false.

End Quiet.

(** The environment in which nothing ever arrives and no timer expires. *)
Definition nobody (w : unit) (evs : list event) : unit * list input := (w, []).

(** ** What the receiver answers and counts *)

(** The start of the thread [timed_close]. *)
Definition is_closer (e : event) : bool :=
  match e with
  | closer => true
  | _ => false
  end.

(** A datagram of the receiver: an ACK or a RESET, without payload. *)
Definition reply (e : event) : Prop :=
  match e with
  | snd f _ p => (f = 1 \/ f = 4) /\ p = []
  | _ => True
  end.

(** The bytes of all the payloads in the reassembly buffer. *)
Definition buffered_bytes (buf : gmap Z (list byte)) : Z :=
  map_fold (fun _ b n => n + len b) 0 buf.

(** A segment of type [t] that the receiver in state [s] does not expect. *)
Definition unexpected (s : Receiver.state) (t : Z) : Prop :=
  t <> 4 /\
  (if Receiver.established s
   then (t <> 0 /\ t <> 3) \/ (t = 0 /\ Receiver.n_fin s <> 0)
   else t <> 2).

(** ** Timeouts of the handshake and the teardown *)

(** An environment in which nothing reaches the sender and no timer
    expires. *)
Definition silent {W} (env : W -> list event -> W * list input) : Prop :=
  forall w evs, (env w evs).2 = [].

(** [k] transmissions of a control segment, each followed by the sleep of
    [rto]. *)
Definition attempts (flag seqno : Z) (k : nat) : list event :=
  concat (replicate k [snd flag seqno []; sleep]).

(** ** The empty file *)

(** The sender of an empty file: no segment to send and none to
    acknowledge, the window at position 0, data being sent from the moment
    the connection is established, and neither a DATA nor a FIN segment sent
    so far. *)
Definition empty_handed (s : Sender.state) (tr : list event) : Prop :=
  Sender.buffer s = [] /\ Sender.segmtRcved s = [] /\
  Sender.buffer_size s = 0 /\ Sender.win_lb s = 0 /\
  (Sender.established s = true -> Sender.sendingdata s = true) /\
  count (is_snd 0) tr = O /\ count (is_snd 3) tr = O.

(** ** Acknowledged positions *)

(** Every position below the lower bound of the window is marked as
    received. *)
Definition acked_below (s : Sender.state) : Prop :=
  forall j, 0 <= j < Sender.win_lb s ->
    Sender.segmtRcved s !! Z.to_nat j = Some 1.

(** ** DATA segments *)

(** A DATA segment carries the payload of a position [i] of [buffer],
    read as Python reads [buffer[i]], under the sequence number
    [(dsn + 1000 * i) mod 2^16]. *)
Definition data_of (buffer : list (list byte)) (dsn : Z) (e : event) : Prop :=
  match e with
  | snd f q b =>
      f = 0 -> exists i, py_index buffer i = Some b /\ q = (dsn + 1000 * i) mod 2 ^ 16
  | _ => True
  end.

(** The sender with the segments [buffer] and the first data sequence
    number [dsn], all its DATA segments so far taken from them. *)
Definition carrying (buffer : list (list byte)) (dsn : Z)
    (s : Sender.state) (tr : list event) : Prop :=
  Sender.buffer s = buffer /\ Sender.DSN s = dsn /\ Forall (data_of buffer dsn) tr.

(** ** Reassembly *)

Section Reassembly.
Context `{Platform}.

(** The datagram of the segment [b] of position [i]: the header of a DATA
    segment with the sequence number of the position, and the payload. *)
Definition segment_datagram (dsn : Z) (i : nat) (b : list byte) : list byte :=
  pack_H 0 ++ pack_H ((dsn + 1000 * Z.of_nat i) mod 2 ^ 16) ++ b.

(** The segments [B] of the positions from [k] on as they arrive in order,
    each with the two values that [randrange(100)] returns for it. *)
Fixpoint segments_from (dsn : Z) (k : nat) (B : list (list byte))
    (rnd : list (Z * Z)) : list (list byte * Z * Z) :=
  match B, rnd with
  | b :: B', r :: rnd' =>
      (segment_datagram dsn k b, r.1, r.2) :: segments_from dsn (S k) B' rnd'
  | _, _ => []
  end.

(** The receiver in its data phase, with first data sequence number [dsn]
    and no forward loss. *)
Definition awaiting (dsn : Z) (s : Receiver.state) : Prop :=
  Receiver.established s = true /\ Receiver.n_fin s = 0 /\
  Receiver.flp s = 0 /\ Receiver.active s = true /\ Receiver.DSN s = dsn.

End Reassembly.

(** ** Hosts *)

(** A host whose locale encodes text as UTF-8 and whose line separator is
    ['\n']: reading a file decodes its bytes strictly as UTF-8, writing a
    text gives its UTF-8 encoding with the line ends as they are. *)
Definition utf8_lf `{Platform} : Prop :=
  (forall b, locale_decode b = decode_utf8 b) /\
  (forall t, locale_encode t = Some t) /\
  linesep = [x0a].

(** The sender has given up: one RESET was sent, with sequence number 0 and
    no payload, [exit(0)] has ended the main thread and the sender is no
    longer active.  Nothing is said about the place of the RESET among the
    other datagrams. *)
Definition reset_sent {W : Type}
    (r : (Sender.state * W) * list event * (unit + exn)) : Prop :=
  count (is_snd 4) (tr_of r) = 1%nat /\ snd 4 0 [] ∈ tr_of r /\
  val_of r = inr SystemExit /\ Sender.active (st_of r).1 = false.
(** Every datagram with [flag] in the trace is followed at once by the
    [time.sleep(self.rto)] of the thread that sent it. *)
Fixpoint paced (flag : Z) (tr : list event) : Prop :=
  match tr with
  | [] => True
  | e :: rest =>
      (is_snd flag e = true -> exists t, rest = sleep :: t) /\ paced flag rest
  end.

(** The peer whose RESET arrives while the sender sleeps after its fourth
    transmission; the state of the environment counts the sleeps. *)
Definition reset_on_fourth (k : nat) (evs : list event) : nat * list input :=
  (S k, if (k =? 3)%nat then [arrive [x04; x00; x00; x00]] else []).
(** * Properties *)

Arguments Receiver.find_pos : simpl never.
Arguments Receiver.cumulate : simpl never.
Arguments Sender.find_pos : simpl never.

Ltac mrun :=
  unfold mbind, M_bind, mret, M_ret, get, modify, emit, raise, thread, listen,
    st_of, tr_of, val_of in *; cbn beta iota in *.

Ltac plain x :=
  lazymatch x with
  | context [if _ then _ else _] => fail
  | context [match _ with _ => _ end] => fail
  | _ => idtac
  end.

Ltac case_code :=
  repeat (simpl;
          match goal with
          | |- context [if ?b then _ else _] => plain b; destruct b eqn:?
          | |- context [match ?x with _ => _ end] => plain x; destruct x eqn:?
          end).

Section Codec.
Context `{Platform}.

Lemma Z_of_byte_range b : 0 <= Z_of_byte b < 256.
Proof. unfold Z_of_byte. pose proof (Byte.to_N_bounded b). lia. Qed.

Lemma unpack_H_range a b : 0 <= unpack_H a b < 65536.
Proof.
  pose proof (Z_of_byte_range a). pose proof (Z_of_byte_range b).
  unfold unpack_H. destruct native; lia.
Qed.

Lemma unpack_2H_range m t q :
  unpack_2H m = Some (t, q) -> (0 <= t < 65536) /\ (0 <= q < 65536).
Proof.
  unfold unpack_2H. intros Hm.
  repeat (destruct m as [|? m]; try discriminate).
  injection Hm as <- <-. split; apply unpack_H_range.
Qed.


Lemma pack_2H_Some flag seqno :
  0 <= flag < 65536 -> 0 <= seqno < 65536 -> is_Some (pack_2H flag seqno).
Proof.
  intros Hf Hq. unfold pack_2H, in_H.
  replace (0 <=? flag) with true by (symmetry; apply Z.leb_le; lia).
  replace (flag <? 65536) with true by (symmetry; apply Z.ltb_lt; lia).
  replace (0 <=? seqno) with true by (symmetry; apply Z.leb_le; lia).
  replace (seqno <? 65536) with true by (symmetry; apply Z.ltb_lt; lia).
  simpl. eauto.
Qed.

Lemma pack_2H_range flag seqno h :
  pack_2H flag seqno = Some h -> 0 <= seqno < 65536.
Proof.
  unfold pack_2H, in_H. intros Hp.
  destruct (0 <=? flag) eqn:?, (flag <? 65536) eqn:?,
           (0 <=? seqno) eqn:?, (seqno <? 65536) eqn:?; try discriminate.
  lia.
Qed.

End Codec.


(** ** Datagrams shorter than the header *)

Section Malformed.
Context `{Platform}.


End Malformed.



(** ** The receiver *)

Section ReceiverFacts.
Context `{Platform}.

Import Receiver.


(** Every decoded position is below 984: fifteen turns of the sequence
    space hold 983040 bytes. *)
Lemma find_pos_range n i q d :
  0 <= i -> i + Z.of_nat n <= 15 -> 0 <= q < 65536 -> 0 <= d < 65536 ->
  -66 < find_pos n i q d < 984.
Proof.
  revert i. induction n as [|n IH]; intros i Hi Hn Hq Hd;
    unfold find_pos; fold find_pos; [lia|].
  destruct (Z.eqb_spec ((q + 65536 * i - d) mod 1000) 0) as [Hz|Hz].
  - apply Z.mod_divide in Hz; [|lia]. destruct Hz as [c Hc].
    rewrite Hc, Z.quot_mul by lia. lia.
  - apply IH; lia.
Qed.


Lemma send_msg_state r f q s :
  buffer (st_of (send_msg r f q s)) = buffer s /\
  DSN (st_of (send_msg r f q s)) = DSN s.
Proof.
  unfold send_msg. mrun.
  destruct (negb (f =? 4) && (r <? rlp s)); [done|].
  destruct (pack_2H f q); done.
Qed.

Lemma reset_state r s :
  buffer (st_of (reset r s)) = buffer s /\ DSN (st_of (reset r s)) = DSN s.
Proof.
  unfold reset, send_msg. mrun.
  destruct (pack_2H 4 0); done.
Qed.

Lemma iter_bounded m rf rr s :
  bounded s -> bounded (st_of (fw_listener_iter m rf rr s)).
Proof.
  intros [Hd Hb]. unfold fw_listener_iter.
  destruct (unpack_2H (take 4 m)) as [[t q]|] eqn:Hu; [|done].
  apply unpack_2H_range in Hu as [Ht Hq].
  unfold on_data, reset, send_msg, cumu_seqno. mrun.
  case_code; simpl; split; simpl; try done; try (apply Z.mod_pos_bound; lia).
  all: intros k Hk; destruct (decide (k = find_pos 15 0 q (DSN s))) as [->|Hne];
    [apply find_pos_range; lia | rewrite lookup_insert_ne in Hk by done; auto].
Qed.

Lemma reachable_bounded s : reachable s -> bounded s.
Proof.
  induction 1 as [flp rlp|s m rf rr _ IH|s _ IH].
  - split; simpl; [lia|]. intros k [b Hb]. by rewrite lookup_empty in Hb.
  - by apply iter_bounded.
  - exact IH.
Qed.

Lemma payload_total_cons buf i k :
  0 < k ->
  payload_total buf i k = len (default [] (buf !! i)) + payload_total buf (i + 1) (k - 1).
Proof.
  intros Hk. unfold payload_total. rewrite (seqZ_cons i k) by lia.
  rewrite fmap_cons. simpl. f_equal.
Qed.

(** What the loop of the cumulative acknowledgement computes: it walks at
    most [n] positions and stops at the first one that is missing. *)
Lemma cumulate_spec buf n i c :
  exists j, (0 <= j <= Z.of_nat n) /\
    (forall x, i <= x < i + j -> is_Some (buf !! x)) /\
    (j < Z.of_nat n -> buf !! (i + j) = None) /\
    cumulate n i buf c = c + payload_total buf i j.
Proof.
  revert i c. induction n as [|n IH]; intros i c; unfold cumulate; fold cumulate.
  - exists 0. repeat split; try lia. unfold payload_total. simpl. lia.
  - destruct (buf !! i) as [b|] eqn:Hb.
    + destruct (IH (i + 1) (c + len b)) as (j & Hj & Hall & Hstop & Heq).
      exists (j + 1). repeat split; try lia.
      * intros x Hx. destruct (decide (x = i)) as [->|Hne]; [by rewrite Hb|].
        apply Hall. lia.
      * intros Hlt. replace (i + (j + 1)) with (i + 1 + j) by lia.
        apply Hstop. lia.
      * rewrite Heq, (payload_total_cons buf i (j + 1)) by lia.
        rewrite Hb. simpl. replace (j + 1 - 1) with j by lia. lia.
    + exists 0. repeat split; try lia.
      * intros _. by replace (i + 0) with i by lia.
      * unfold payload_total. simpl. lia.
Qed.

Lemma cumu_seqno_spec s :
  bounded s ->
  exists k, contiguous_prefix (buffer s) k /\
    cumu_seqno s = (DSN s + payload_total (buffer s) 0 k) mod 2 ^ 16.
Proof.
  intros [_ Hb]. unfold cumu_seqno.
  destruct (cumulate_spec (buffer s) 1000 0 (DSN s)) as (j & Hj & Hall & Hstop & ->).
  exists j. split; [|done]. split; [lia|]. split; [exact Hall|].
  destruct (decide (j < 1000)) as [Hlt|Hge]; [apply Hstop; lia|].
  specialize (Hb 999 (Hall 999 ltac:(lia))). lia.
Qed.

(** C2: every ACK the receiver emits in answer to a DATA segment carries
    [(DSN + sum of the payload lengths of positions 0 .. k-1) mod 2^16],
    where [0, k) is the longest contiguous prefix of positions present in
    the reassembly buffer when the ACK is sent. *)
Theorem cumulative_ack (s : state) (m : list byte) (rf rr stp_seqno q : Z)
    (p : list byte) :
  reachable s ->
  unpack_2H (take 4 m) = Some (0, stp_seqno) ->
  snd 1 q p ∈ tr_of (fw_listener_iter m rf rr s) ->
  exists k,
    contiguous_prefix (buffer (st_of (fw_listener_iter m rf rr s))) k /\
    q = (DSN (st_of (fw_listener_iter m rf rr s))
         + payload_total (buffer (st_of (fw_listener_iter m rf rr s))) 0 k)
        mod 2 ^ 16.
Proof.
  intros Hr Hu Hin.
  pose proof (reachable_bounded _ (reach_iter s m rf rr Hr)) as Hb'.
  apply cumu_seqno_spec in Hb' as (k & Hk & Heq).
  exists k. split; [exact Hk|]. rewrite <- Heq. clear Heq Hk k.
  revert Hin. unfold fw_listener_iter. rewrite Hu.
  unfold on_data, reset, send_msg. mrun.
  case_code; simpl; intros Hin;
    repeat (apply elem_of_cons in Hin as [Hin|Hin]);
    try (by apply elem_of_nil in Hin); try discriminate; congruence.
Qed.

End ReceiverFacts.

(** SYN with sequence number 1999, then the first data segment. *)
Lemma cumulative_ack_witness :
  let s := st_of (@Receiver.fw_listener_iter little
                    [x02; x00; xcf; x07] 0 0 (Receiver.init 0 0)) in
  let s' := st_of (@Receiver.fw_listener_iter little
                     [x00; x00; xd0; x07; x62] 0 0 s) in
  exists k,
    contiguous_prefix (Receiver.buffer s') k /\
    2001 = (Receiver.DSN s' + payload_total (Receiver.buffer s') 0 k) mod 2 ^ 16.
Proof.
  intros s s'.
  apply (@cumulative_ack little s [x00; x00; xd0; x07; x62] 0 0 2000 2001 []).
  - apply reach_iter, reach_init.
  - reflexivity.
  - vm_compute. constructor.
Defined.

(** ** The output file *)


(** C6, the code at the failing input: position 0 is buffered and position 1
    is not, so the longest contiguous prefix is [0, 1) and its bytes are "b";
    the receiver writes the empty string, after the close timer as well as
    after a RESET, because the key -1 comes first in the sorted keys. *)
Theorem negative_position_empties_output :
  let closed :=
    st_of (Receiver.timed_close
      (st_of (@Receiver.fw_listener little
                (below_dsn ++ [([x03; x00; xd1; x07], 0, 0)]) (Receiver.init 0 0)))) in
  let reset :=
    st_of (@Receiver.fw_listener little
             (below_dsn ++ [([x04; x00; x00; x00], 0, 0)]) (Receiver.init 0 0)) in
  (contiguous_prefix (Receiver.buffer closed) 1 /\
   prefix_bytes (Receiver.buffer closed) 1 = [x62] /\
   @Receiver.run little closed = Some []) /\
  (contiguous_prefix (Receiver.buffer reset) 1 /\
   prefix_bytes (Receiver.buffer reset) 1 = [x62] /\
   @Receiver.run little reset = Some []).
Proof.
  split; (split; [|split; vm_compute; reflexivity]).
  all: split; [lia|split; [|vm_compute; reflexivity]].
  all: intros i Hi; replace i with 0 by lia; vm_compute; eauto.
Qed.

Section Flush.

Import Receiver.

Lemma elem_of_scope_of buf x : x ∈ scope_of buf <-> is_Some (buf !! x).
Proof.
  unfold scope_of. rewrite merge_sort_Permutation, elem_of_elements.
  apply elem_of_dom.
Qed.

Lemma strictly_sorted (l : list Z) :
  StronglySorted Z.le l -> NoDup l -> StronglySorted Z.lt l.
Proof.
  induction 1 as [|x l Hs IH Hall]; intros Hnd; constructor.
  - apply IH. by apply NoDup_cons_1_2 in Hnd.
  - apply NoDup_cons in Hnd as [Hx _].
    rewrite Forall_forall in Hall |- *. intros y Hy.
    pose proof (Hall y Hy). assert (x <> y) by (intros ->; done). lia.
Qed.

Lemma scope_of_sorted buf : StronglySorted Z.lt (scope_of buf).
Proof.
  apply strictly_sorted.
  - apply StronglySorted_merge_sort; apply _.
  - unfold scope_of. rewrite merge_sort_Permutation. apply NoDup_elements.
Qed.

Lemma prefix_bytes_snoc buf j :
  0 <= j ->
  prefix_bytes buf (j + 1) = prefix_bytes buf j ++ default [] (buf !! j).
Proof.
  intros Hj. unfold prefix_bytes.
  rewrite (seqZ_app 0 j 1), fmap_app, concat_app by lia.
  simpl. by rewrite app_nil_r.
Qed.

(** The loop of [run] from position [j] on, when [todo] holds the keys not
    below [j] in increasing order and [result] the bytes of [0, j). *)
Lemma compose_from buf k todo j :
  contiguous_prefix buf k ->
  0 <= j <= k ->
  StronglySorted Z.lt todo ->
  (forall x, x ∈ todo <-> x ∈ scope_of buf /\ j <= x) ->
  compose buf (scope_of buf) todo (prefix_bytes buf j) = prefix_bytes buf k.
Proof.
  intros (Hk & Hall & Hnone). revert j.
  induction todo as [|x rest IH]; intros j Hj Hs Hel.
  - simpl. destruct (decide (j = k)) as [->|Hne]; [done|].
    assert (j ∈ @nil Z) as Hin; [|by apply elem_of_nil in Hin].
    apply Hel. split; [|lia]. apply elem_of_scope_of, Hall. lia.
  - apply StronglySorted_inv in Hs as [Hs Hlt].
    rewrite Forall_forall in Hlt.
    assert (x ∈ scope_of buf /\ j <= x) as [Hx Hjx] by (apply Hel; left).
    destruct (decide (j = k)) as [->|Hne].
    + assert (k < x).
      { destruct (decide (x = k)) as [->|]; [|lia].
        apply elem_of_scope_of in Hx. rewrite Hnone in Hx. by destruct Hx. }
      simpl. replace (x =? 0) with false by (symmetry; apply Z.eqb_neq; lia).
      rewrite bool_decide_eq_false_2; [done|].
      intros Hin. destruct (decide (x - 1 = k)) as [Heq|Hneq].
      * rewrite Heq in Hin. apply elem_of_scope_of in Hin.
        rewrite Hnone in Hin. by destruct Hin.
      * assert (x - 1 ∈ x :: rest) as Hin' by (apply Hel; split; [done|lia]).
        apply elem_of_cons in Hin' as [?|Hin']; [lia|].
        specialize (Hlt _ Hin'). lia.
    + assert (j ∈ x :: rest) as Hjin.
      { apply Hel. split; [|lia]. apply elem_of_scope_of, Hall. lia. }
      assert (x = j) as ->.
      { apply elem_of_cons in Hjin as [?|Hjin]; [done|].
        specialize (Hlt _ Hjin). lia. }
      simpl.
      replace (negb (j =? 0) && negb (bool_decide (j - 1 ∈ scope_of buf)))
        with false.
      * rewrite <- prefix_bytes_snoc by lia. apply IH; [lia|done|].
        intros y. split.
        -- intros Hy. pose proof (Hlt _ Hy).
           split; [|lia]. apply (Hel y). by right.
        -- intros [Hy Hge]. assert (y ∈ j :: rest) as Hy'
             by (apply Hel; split; [done|lia]).
           apply elem_of_cons in Hy' as [?|Hy']; [lia|done].
      * symmetry. destruct (Z.eqb_spec j 0) as [->|Hj0]; [done|]. simpl.
        rewrite bool_decide_eq_true_2; [done|].
        apply elem_of_scope_of, Hall. lia.
Qed.

(** Where the buffer holds no position below 0, the loop of [run] composes
    the longest contiguous prefix. *)
Lemma compose_prefix buf k :
  (forall i, is_Some (buf !! i) -> 0 <= i) ->
  contiguous_prefix buf k ->
  compose buf (scope_of buf) (scope_of buf) [] = prefix_bytes buf k.
Proof.
  intros Hnn Hk.
  change (@nil byte) with (prefix_bytes buf 0).
  apply compose_from; [done|destruct Hk; lia|apply scope_of_sorted|].
  intros x. split; [|by intros []].
  intros Hx. split; [done|]. by apply Hnn, elem_of_scope_of.
Qed.

(** It is this prefix that [run] decodes and writes. *)
Lemma run_writes_prefix `{Platform} s k :
  active s = false ->
  (forall i, is_Some (buffer s !! i) -> 0 <= i) ->
  contiguous_prefix (buffer s) k ->
  run s = Some (write_file (prefix_bytes (buffer s) k)).1.
Proof.
  intros Ha Hnn Hk. unfold run. rewrite Ha.
  by rewrite (compose_prefix _ k).
Qed.

End Flush.

(** ** The sender: duplicate acknowledgements *)

Section FastRetransmit.
Context `{Platform}.

Import Sender.

Lemma find_pos_ext n i q s s' :
  DSN s' = DSN s -> data_size s' = data_size s -> buffer_size s' = buffer_size s ->
  find_pos n i q s' = find_pos n i q s.
Proof.
  intros Hd Hz Hb. revert i.
  induction n as [|n IH]; intros i; unfold find_pos; fold find_pos; [done|].
  rewrite Hd, Hz, Hb, IH. done.
Qed.

Lemma pack_2H_mod flag x :
  0 <= flag < 65536 -> is_Some (pack_2H flag (x mod 2 ^ 16)).
Proof.
  intros Hf. apply pack_2H_Some; [done|]. apply Z.mod_pos_bound. lia.
Qed.



Lemma duplicate_step m q b s0 s n :
  unpack_2H (take 4 m) = Some (1, q) ->
  0 <= n ->
  dup_frame q b s0 s -> counted n s ->
  let r := rv_listener_iter m s in
  tr_of r = (if (n + 1) mod 3 =? 0
             then [snd 0 ((DSN s0 + 1000 * win_lb s0) mod 2 ^ 16) b] else []) /\
  val_of r = inl Continue /\
  dup_frame q b s0 (st_of r) /\ counted (n + 1) (st_of r).
Proof.
  intros Hu Hn [He Hsd Hp Hpos Hlb Hb Hd Ht] Hc. unfold counted in Hc.
  unfold rv_listener_iter. rewrite Hu. unfold on_ack, send_msg, index. mrun.
  rewrite He, Hsd. simpl. rewrite Hp, Hpos, !Z.eqb_refl. simpl. rewrite Hc.
  destruct (pack_2H_mod 0 (DSN s + 1000 * win_lb s) ltac:(lia)) as [h Hh].
  destruct (Z.eqb_spec n 0) as [->|Hn0]; simpl.
  - repeat split; simpl; try done.
    unfold counted. simpl. by rewrite lookup_insert_eq.
  - destruct (Z.eqb_spec ((n + 1) mod 3) 0) as [Hz|Hz]; simpl;
      rewrite ?Hb; simpl; rewrite ?Hh; simpl; rewrite ?Hd, ?Hlb;
      repeat split; simpl; try done; try (by rewrite <- Hlb).
    all: unfold counted; simpl; rewrite Hlb, lookup_insert_eq.
    all: destruct (Z.eqb_spec (n + 1) 0); [lia|done].
Qed.


Lemma duplicates_counted m q b s n :
  unpack_2H (take 4 m) = Some (1, q) ->
  dup_frame q b s s -> counted 0 s ->
  dup_frame q b s (after n m s) /\ counted (Z.of_nat n) (after n m s).
Proof.
  intros Hu Hf Hc. induction n as [|n [IHf IHc]]; [done|].
  destruct (duplicate_step m q b s _ (Z.of_nat n) Hu ltac:(lia) IHf IHc)
    as (_ & _ & Hf' & Hc').
  simpl. split; [done|]. by replace (Z.of_nat (S n)) with (Z.of_nat n + 1) by lia.
Qed.

(** X23: fast retransmission where the segment exists.  Let the previous
    ACK have carried [q], let [q] ask for the lower bound of the window, let
    the buffer hold a segment [b] at that position, and let no duplicate of
    [q] be counted yet.  Then of the consecutive ACKs [q] that follow, the
    [n]-th triggers one retransmission of the DATA segment of that position
    when [n] is a multiple of 3 and sends nothing otherwise; the listener
    starts no timer and leaves [segmtTimer] as it was. *)
Theorem fast_retransmit_every_third (m : list byte) (q : Z) (b : list byte)
    (s : state) (n : nat) :
  unpack_2H (take 4 m) = Some (1, q) ->
  established s = true -> sendingdata s = true ->
  PSN s = q ->
  find_pos 15 0 q s = win_lb s ->
  py_index (buffer s) (win_lb s) = Some b ->
  segmtAck s !! win_lb s = None ->
  (1 <= n)%nat ->
  let r := rv_listener_iter m (after (n - 1) m s) in
  tr_of r = (if Z.of_nat n mod 3 =? 0
             then [snd 0 ((DSN s + 1000 * win_lb s) mod 2 ^ 16) b] else []) /\
  segmtTimer (st_of r) = segmtTimer s /\
  win_lb (st_of r) = win_lb s.
Proof.
  intros Hu He Hsd Hp Hpos Hb Hc Hn.
  assert (dup_frame q b s s) as Hf by (by constructor).
  destruct (duplicates_counted m q b s (n - 1) Hu Hf Hc) as [Hf' Hc'].
  destruct (duplicate_step m q b s _ (Z.of_nat (n - 1)) Hu ltac:(lia) Hf' Hc')
    as (Htr & _ & Hf'' & _).
  replace (Z.of_nat (n - 1) + 1) with (Z.of_nat n) in Htr by lia.
  split; [exact Htr|]. split; [apply Hf''|apply Hf''].
Qed.

End FastRetransmit.

(** The third ACK 8 in a row after the one of the handshake. *)
Lemma fast_retransmit_every_third_witness :
  let r := @Sender.rv_listener_iter little ack8
             (@after little (3 - 1) ack8 one_byte_sender) in
  tr_of r = (if Z.of_nat 3 mod 3 =? 0
             then [snd 0 ((Sender.DSN one_byte_sender
                           + 1000 * Sender.win_lb one_byte_sender) mod 2 ^ 16)
                     [x61]]
             else []) /\
  Sender.segmtTimer (st_of r) = Sender.segmtTimer one_byte_sender /\
  Sender.win_lb (st_of r) = Sender.win_lb one_byte_sender.
Proof.
  apply (@fast_retransmit_every_third little ack8 8 [x61] one_byte_sender 3);
    try reflexivity.
  lia.
Defined.

(** C3, the code at the failing input: the sender of an empty file is in
    its sending phase after the handshake, its window at [win_lb = 0], and
    the ACK 8 of the handshake asks for that position, but the buffer holds
    no segment there.  The first two ACKs 8 that follow are counted; the
    third makes the listener read [buffer[0]] for the retransmission, which
    raises [IndexError]: no DATA segment is sent, and the listener thread
    ends with the exception. *)
Theorem third_duplicate_ends_listener :
  let s := empty_file_sender in
  let s2 := @after little 2 ack8 s in
  (@unpack_2H little (take 4 ack8) = Some (1, 8) /\
   Sender.established s = true /\ Sender.sendingdata s = true /\
   Sender.PSN s = 8 /\ Sender.find_pos 15 0 8 s = Sender.win_lb s /\
   Sender.segmtAck s !! Sender.win_lb s = None /\
   py_index (Sender.buffer s) (Sender.win_lb s) = None) /\
  Sender.segmtAck s2 !! Sender.win_lb s2 = Some 2 /\
  tr_of (@Sender.rv_listener_iter little ack8 s2) = [] /\
  val_of (@Sender.rv_listener_iter little ack8 s2) = inr IndexError /\
  tr_of (@Sender.rv_listener little ack8 s2) = [uncaught IndexError] /\
  Sender.listening (st_of (@Sender.rv_listener little ack8 s2)) = false.
Proof. vm_compute. repeat split; reflexivity. Qed.

(** ** Rules for invariants *)

Section Logic.
Context {S : Type}.
Implicit Types (I : S -> list event -> Prop) (E : exn -> Prop).

Lemma bind_inl {A B} (m : M S A) (k : A -> M S B) s s1 t1 a :
  m s = (s1, t1, inl a) ->
  (m ≫= k) s = (st_of (k a s1), t1 ++ tr_of (k a s1), val_of (k a s1)).
Proof.
  intros Hm. unfold mbind, M_bind. rewrite Hm.
  by destruct (k a s1) as [[s2 t2] r].
Qed.

Lemma bind_inr {A B} (m : M S A) (k : A -> M S B) s s1 t1 e :
  m s = (s1, t1, inr e) -> (m ≫= k) s = (s1, t1, inr e).
Proof. intros Hm. unfold mbind, M_bind. by rewrite Hm. Qed.

Lemma safe_bind {A B} I E (m : M S A) (k : A -> M S B) :
  safe I E m -> (forall a, safe I E (k a)) -> safe I E (m ≫= k).
Proof.
  intros Hm Hk s tr HI. destruct (Hm s tr HI) as [HI1 HE1].
  destruct (m s) as [[s1 t1] [a|e]] eqn:Hms.
  - rewrite (bind_inl m k s s1 t1 a Hms).
    destruct (Hk a s1 _ HI1) as [HI2 HE2].
    unfold st_of, tr_of, val_of in *. simpl in *.
    rewrite app_assoc. done.
  - rewrite (bind_inr m k s s1 t1 e Hms).
    unfold st_of, tr_of, val_of in *. simpl in *. split; [done|].
    intros e0 [= <-]. by apply HE1.
Qed.

Lemma safe_ret {A} I E (a : A) : safe I E (mret a : M S A).
Proof.
  intros s tr HI. unfold mret, M_ret, st_of, tr_of, val_of; simpl.
  by rewrite app_nil_r.
Qed.

Lemma safe_get I E : safe I E (get : M S S).
Proof.
  intros s tr HI. unfold get, st_of, tr_of, val_of; simpl.
  by rewrite app_nil_r.
Qed.

Lemma safe_modify I E (f : S -> S) :
  (forall s tr, I s tr -> I (f s) tr) -> safe I E (modify f).
Proof.
  intros Hf s tr HI. unfold modify, st_of, tr_of, val_of; simpl.
  rewrite app_nil_r. split; [auto|done].
Qed.

Lemma safe_emit I E (e : event) :
  (forall s tr, I s tr -> I s (tr ++ [e])) -> safe I E (emit e : M S unit).
Proof.
  intros He s tr HI. unfold emit, st_of, tr_of, val_of; simpl.
  split; [auto|done].
Qed.

Lemma safe_raise {A} I E (e : exn) : E e -> safe I E (raise e : M S A).
Proof.
  intros He s tr HI. unfold raise, st_of, tr_of, val_of; simpl.
  rewrite app_nil_r. split; [done|]. by intros ? [= <-].
Qed.

Lemma safe_thread {A} I E E' (m : M S A) :
  safe I E m ->
  (forall s tr e, I s tr -> E e -> I s (tr ++ [uncaught e])) ->
  safe I E' (thread m).
Proof.
  intros Hm Hu s tr HI. destruct (Hm s tr HI) as [HI1 HE1].
  unfold thread, st_of, tr_of, val_of in *.
  destruct (m s) as [[s1 t1] [a|e]]; simpl in *; (split; [|done]); [done|].
  rewrite app_assoc. apply Hu; [done|]. by apply HE1.
Qed.

Lemma safe_listen {A} I E (m : M S A) : safe I E m -> safe I E (listen m).
Proof.
  intros Hm s tr HI. destruct (Hm s tr HI) as [HI1 HE1].
  unfold listen, st_of, tr_of, val_of in *.
  destruct (m s) as [[s1 t1] [a|e]]; simpl in *; (split; [done|]); [done|].
  intros e0 [= <-]. by apply HE1.
Qed.

Lemma safe_weaken {A} I E E' (m : M S A) :
  (forall e, E e -> E' e) -> safe I E m -> safe I E' m.
Proof.
  intros HE Hm s tr HI. destruct (Hm s tr HI) as [HI1 HE1]. split; [done|].
  intros e He. by apply HE, HE1.
Qed.

End Logic.

Lemma safe_get_bind {S A} (I : S -> list event -> Prop) E (k : S -> M S A) :
  (forall s0 tr0, I s0 tr0 -> safe I E (k s0)) -> safe I E (get ≫= k).
Proof.
  intros Hk s tr HI.
  rewrite (bind_inl get k s s [] s eq_refl). simpl.
  apply (Hk s tr HI s tr HI).
Qed.

Lemma safe_if {S A} (I : S -> list event -> Prop) E (b : bool) (m1 m2 : M S A) :
  safe I E m1 -> safe I E m2 -> safe I E (if b then m1 else m2).
Proof. by destruct b. Qed.

Ltac safe_step :=
  lazymatch goal with
  | |- safe _ _ (mret _) => apply safe_ret
  | |- safe _ _ (mbind _ get) => apply safe_get_bind; intros ? ? ?
  | |- safe _ _ (mbind _ _) => apply safe_bind; [|intros ?]
  | |- safe _ _ (if ?b then _ else _) => destruct b eqn:?
  | |- safe _ _ (match ?x with _ => _ end) => destruct x eqn:?
  | |- safe _ _ (modify _) => apply safe_modify
  | |- safe _ _ (emit _) => apply safe_emit
  | |- safe _ _ (raise _) => apply safe_raise
  | |- safe _ _ (listen _) => apply safe_listen
  end.

Lemma safe_conj {S A} (I1 I2 : S -> list event -> Prop) E E' (m : M S A) :
  safe I1 E m -> safe I2 E' m -> safe (fun s tr => I1 s tr /\ I2 s tr) E m.
Proof.
  intros H1 H2 s tr [HI1 HI2].
  destruct (H1 s tr HI1) as [? ?], (H2 s tr HI2) as [? ?]. done.
Qed.

(** ** The control structure of the sender

    Whatever the environment does, an invariant that every piece of code
    between two points of interleaving keeps is kept by the handlers and
    executors that are built from these pieces. *)

Section Control.
Context `{Platform} {W : Type} (env : W -> list event -> W * list input).
Context (I : Sender.state -> list event -> Prop) (E : exn -> Prop).

Import Sender.

#[local] Abbreviation whatever := (whatever (W:=W) I).

Lemma safe_lift {A} (m : M state A) :
  safe I E m -> safe whatever E (lift m).
Proof.
  intros Hm [s w] tr HI. destruct (Hm s tr HI) as [HI1 HE1].
  unfold lift, whatever, st_of, tr_of, val_of in *. simpl in *.
  by destruct (m s) as [[s1 t1] r].
Qed.

Hypothesis I_react : forall x, safe I E (react x).
Hypothesis I_sleep : forall s tr, I s tr -> I s (tr ++ [sleep]).
Hypothesis I_uncaught : forall s tr e, I s tr -> E e -> I s (tr ++ [uncaught e]).
Hypothesis I_terminate : forall s tr, I s tr -> I (set_terminate true s) tr.
Hypothesis I_reset : safe I E reset.
Hypothesis I_close : safe I E close.
Hypothesis E_fuel : E fuel.

Lemma safe_reacts xs : safe I E (reacts xs).
Proof.
  induction xs as [|x xs IH]; simpl; [apply safe_ret|].
  apply safe_bind; [apply I_react|]. intros _. exact IH.
Qed.

Lemma safe_yield evs : safe whatever E (yield env evs).
Proof.
  unfold yield. apply safe_get_bind. intros sw0 tr0 _.
  apply safe_bind; [by apply safe_modify|]. intros _.
  apply safe_lift, safe_reacts.
Qed.

Lemma whatever_uncaught sw tr e :
  whatever sw tr -> E e -> whatever sw (tr ++ [uncaught e]).
Proof. apply I_uncaught. Qed.

Section Handshake.
Hypothesis I_syn : forall s0 tr0, I s0 tr0 -> safe I E (send_msg 2 (ISN s0) 0).

Lemma safe_estab_exec n i : safe whatever E (estab_exec env n i).
Proof.
  revert i. induction n as [|n IH]; intros i; simpl.
  - by apply safe_raise.
  - apply safe_get_bind. intros sw0 tr0 HI0.
    apply safe_bind.
    { apply safe_listen, safe_bind; [by eapply safe_lift, I_syn|].
      intros _. apply safe_emit. intros ? ?. apply I_sleep. }
    intros [[] evs]. apply safe_bind; [apply safe_yield|]. intros _.
    apply safe_get_bind. intros sw1 tr1 HI1.
    repeat apply safe_if; try apply safe_ret; [|apply IH].
    apply safe_lift, safe_modify, I_terminate.
Qed.

Lemma safe_estab_hdlr : safe whatever E (estab_hdlr env).
Proof.
  unfold estab_hdlr. apply safe_bind.
  { eapply safe_thread; [apply safe_estab_exec|apply whatever_uncaught]. }
  intros _. apply safe_get_bind. intros sw0 tr0 HI0.
  repeat apply safe_if; try apply safe_ret; try (by apply safe_raise);
    by apply safe_lift.
Qed.

End Handshake.

Section Teardown.
Hypothesis I_fin : forall s0 tr0, I s0 tr0 -> safe I E (send_msg 3 (FSN s0) 0).

Lemma safe_fin_exec n i : safe whatever E (fin_exec env n i).
Proof.
  revert i. induction n as [|n IH]; intros i; simpl.
  - by apply safe_raise.
  - apply safe_get_bind. intros sw0 tr0 HI0.
    apply safe_bind.
    { apply safe_listen, safe_bind; [by eapply safe_lift, I_fin|].
      intros _. apply safe_emit. intros ? ?. apply I_sleep. }
    intros [[] evs]. apply safe_bind; [apply safe_yield|]. intros _.
    apply safe_get_bind. intros sw1 tr1 HI1.
    repeat apply safe_if; try apply safe_ret; [|apply IH].
    apply safe_lift, safe_modify, I_terminate.
Qed.

Lemma safe_fin_hdlr : safe whatever E (fin_hdlr env).
Proof.
  unfold fin_hdlr. apply safe_bind.
  { eapply safe_thread; [apply safe_fin_exec|apply whatever_uncaught]. }
  intros _. apply safe_get_bind. intros sw0 tr0 HI0.
  repeat apply safe_if; try apply safe_ret; try (by apply safe_raise);
    by apply safe_lift.
Qed.

End Teardown.

Section Transfer.
Hypothesis I_lb : forall s tr, I s tr -> 0 <= win_lb s.
Hypothesis I_body : forall lb i, 0 <= lb <= i -> safe I E (transeg_body lb i).

Lemma safe_transeg_for lb range :
  0 <= lb -> Forall (fun i => lb <= i) range ->
  safe whatever E (transeg_for env lb range).
Proof.
  intros Hlb Hr. induction Hr as [|i range Hi Hr IH]; simpl.
  - apply safe_ret.
  - apply safe_bind; [apply safe_listen, safe_lift, I_body; lia|].
    intros [f evs]. apply safe_bind; [apply safe_yield|]. intros _.
    destruct f; [apply IH|apply safe_ret].
Qed.

Lemma safe_transeg_exec_hdlr n : safe whatever E (transeg_exec_hdlr env n).
Proof.
  induction n as [|n IH]; simpl.
  - by apply safe_raise.
  - apply safe_get_bind. intros sw0 tr0 HI0.
    repeat apply safe_if; try apply safe_ret; try (by apply safe_lift).
    apply safe_bind.
    { apply safe_transeg_for; [by eapply I_lb|].
      apply Forall_seqZ. intros; lia. }
    intros _. apply safe_bind; [apply safe_yield|]. intros _. apply IH.
Qed.

End Transfer.

End Control.

(** ** Sequence numbers stay within sixteen bits *)

Ltac unfold_safe :=
  unfold safe; intros s tr HI; mrun.

Section SenderRange.
Context `{Platform}.

Import Sender.

Lemma sender_in_short_step s tr s' evs :
  sender_in_short s tr ->
  ISN s' = ISN s -> 0 <= FSN s' < 65536 -> Forall in_short evs ->
  sender_in_short s' (tr ++ evs).
Proof.
  intros (Hi & Hf & Ht) Hi' Hf' He. unfold sender_in_short.
  rewrite Hi'. repeat split; try lia. by apply Forall_app.
Qed.

Ltac range_leaf :=
  simpl; split;
  [ eapply sender_in_short_step; first done; simpl;
    try done; try lia;
    try (match goal with HI : sender_in_short _ _ |- _ => apply HI end);
    repeat (apply Forall_cons; split); try apply Forall_nil; simpl;
    try done; try (apply Z.mod_pos_bound; lia); try lia
  | try done; intros ? ?; simplify_eq; by unfold not_pack ].

Lemma range_send_msg flag q i :
  0 <= flag < 65536 -> 0 <= q < 65536 ->
  safe sender_in_short not_pack (send_msg flag q i).
Proof.
  intros Hf Hq. unfold send_msg, index. unfold_safe.
  destruct (pack_2H_Some flag q Hf Hq) as [h ->].
  case_code; range_leaf.
Qed.

End SenderRange.

Section SenderRangeLeaves.
Context `{Platform}.

Import Sender.

Ltac stable :=
  try (intros ? ? (? & ? & ?); repeat split; simpl; try done; try lia;
       try (apply Forall_app; split; [done|]);
       repeat (apply Forall_cons; split); try apply Forall_nil; by simpl).

Ltac range_auto :=
  repeat (first [ safe_step
                | apply range_send_msg; try lia; try (apply Z.mod_pos_bound; lia)
                | unfold index, setitem ]);
  try (by unfold not_pack); stable.

Lemma range_mark_rcved js : safe sender_in_short not_pack (mark_rcved js).
Proof. induction js as [|j js IH]; simpl; range_auto. Qed.

Lemma range_retranseg_exec i : safe sender_in_short not_pack (retranseg_exec i).
Proof. unfold retranseg_exec. range_auto. Qed.

Lemma range_transeg_body lb i : safe sender_in_short not_pack (transeg_body lb i).
Proof. unfold transeg_body. range_auto. Qed.

Lemma range_close : safe sender_in_short not_pack close.
Proof. unfold close. range_auto. Qed.

Lemma range_reset : safe sender_in_short not_pack reset.
Proof. unfold reset. range_auto. apply range_close. Qed.

Lemma range_read_file data : safe sender_in_short not_pack (read_file data).
Proof. unfold read_file. range_auto. Qed.

Lemma range_on_ack q :
  0 <= q < 65536 -> safe sender_in_short not_pack (on_ack q).
Proof. intros Hq. unfold on_ack. range_auto. apply range_mark_rcved. Qed.

Lemma range_rv_listener_iter m :
  safe sender_in_short not_pack (rv_listener_iter m).
Proof.
  unfold rv_listener_iter.
  destruct (unpack_2H (take 4 m)) as [[t q]|] eqn:Hu; [|range_auto].
  apply unpack_2H_range in Hu as [Ht Hq].
  range_auto. by apply range_on_ack.
Qed.

Lemma range_uncaught s tr e :
  sender_in_short s tr -> not_pack e -> sender_in_short s (tr ++ [uncaught e]).
Proof.
  intros (Hi & Hf & Ht) He. repeat split; try lia.
  apply Forall_app. split; [done|]. apply Forall_cons. split; [|done].
  by destruct e.
Qed.

Lemma range_rv_listener m : safe sender_in_short not_pack (rv_listener m).
Proof.
  intros s tr HI. destruct (range_rv_listener_iter m s tr HI) as [HI1 HE1].
  unfold rv_listener, st_of, tr_of, val_of in *.
  destruct (rv_listener_iter m s) as [[s1 t1] [[]|e]]; simpl in *;
    (split; [|done]); try done.
  rewrite app_assoc.
  apply (range_uncaught (set_listening false s1)); [|by apply HE1].
  destruct HI1 as (? & ? & ?). repeat split; simpl; done || lia.
Qed.

Lemma range_react x : safe sender_in_short not_pack (react x).
Proof.
  destruct x as [m|i]; simpl.
  - range_auto. apply range_rv_listener.
  - eapply safe_thread; [apply range_retranseg_exec|apply range_uncaught].
Qed.

End SenderRangeLeaves.

(** ** The lower bound of the window never goes below 0 *)

Section LowerBound.
Context `{Platform}.

Import Sender.

Ltac lb_auto :=
  repeat (first [ safe_step | unfold index, setitem, send_msg ]);
  try done;
  try (unfold lb_nonneg; intros; simpl in *; done);
  try (unfold lb_nonneg in *; intros; simpl in *;
       repeat match goal with
              | H : (_ <? _) = true |- _ => apply Z.ltb_lt in H
              end; lia).

Lemma lb_send_msg flag q i : safe lb_nonneg any_exn (send_msg flag q i).
Proof. unfold send_msg. lb_auto. Qed.

Lemma lb_mark_rcved js : safe lb_nonneg any_exn (mark_rcved js).
Proof. induction js as [|j js IH]; simpl; lb_auto. Qed.

Lemma lb_retranseg_exec i : safe lb_nonneg any_exn (retranseg_exec i).
Proof. unfold retranseg_exec. lb_auto. Qed.

Lemma lb_transeg_body lb i : safe lb_nonneg any_exn (transeg_body lb i).
Proof. unfold transeg_body. lb_auto. Qed.

Lemma lb_close : safe lb_nonneg any_exn close.
Proof. unfold close. lb_auto. Qed.

Lemma lb_reset : safe lb_nonneg any_exn reset.
Proof. unfold reset. lb_auto; try apply lb_close. Qed.

Lemma lb_read_file data : safe lb_nonneg any_exn (read_file data).
Proof. unfold read_file. lb_auto. Qed.

Lemma lb_on_ack q : safe lb_nonneg any_exn (on_ack q).
Proof. unfold on_ack. lb_auto; try apply lb_mark_rcved. Qed.

Lemma lb_rv_listener_iter m : safe lb_nonneg any_exn (rv_listener_iter m).
Proof. unfold rv_listener_iter. lb_auto; try apply lb_on_ack. Qed.

Lemma lb_rv_listener m : safe lb_nonneg any_exn (rv_listener m).
Proof.
  intros s tr HI. destruct (lb_rv_listener_iter m s tr HI) as [HI1 HE1].
  unfold rv_listener, st_of, tr_of, val_of, lb_nonneg in *.
  destruct (rv_listener_iter m s) as [[s1 t1] [[]|e]]; simpl in *; done.
Qed.

Lemma lb_react x : safe lb_nonneg any_exn (react x).
Proof.
  destruct x as [m|i]; simpl.
  - lb_auto; try apply lb_rv_listener.
  - eapply safe_thread; [apply lb_retranseg_exec|done].
Qed.

End LowerBound.

Section ReceiverRange.
Context `{Platform}.

Import Receiver.

Ltac rstable :=
  try (unfold receiver_in_short; intros; try done;
       try (apply Forall_app; split; [done|]);
       repeat (apply Forall_cons; split); try apply Forall_nil; by simpl).

Lemma rrange_send_msg r flag q :
  0 <= flag < 65536 -> 0 <= q < 65536 ->
  safe receiver_in_short not_pack (send_msg r flag q).
Proof.
  intros Hf Hq. unfold send_msg.
  destruct (pack_2H_Some flag q Hf Hq) as [h Hh].
  repeat safe_step; try (by rewrite Hh in *); rstable.
Qed.

Ltac rrange_auto :=
  repeat (first [ safe_step
                | apply rrange_send_msg; try lia;
                  try (apply Z.mod_pos_bound; lia) ]);
  try (by unfold not_pack); rstable.

Lemma rrange_reset r : safe receiver_in_short not_pack (reset r).
Proof. unfold reset. rrange_auto. Qed.

Lemma rrange_on_data rr q p : safe receiver_in_short not_pack (on_data rr q p).
Proof.
  unfold on_data, cumu_seqno. rrange_auto; try apply rrange_reset.
Qed.

Lemma rrange_fw_listener_iter m rf rr :
  safe receiver_in_short not_pack (fw_listener_iter m rf rr).
Proof.
  unfold fw_listener_iter. rrange_auto;
    try apply rrange_reset; try apply rrange_on_data.
Qed.

Lemma rrange_fw_listener arrivals :
  safe receiver_in_short not_pack (fw_listener arrivals).
Proof.
  induction arrivals as [|[[m rf] rr] rest IH]; simpl; rrange_auto;
    try apply rrange_fw_listener_iter; try apply IH.
Qed.

End ReceiverRange.

(** ** The whole run of the sender *)

Section SenderRun.
Context `{Platform} {W : Type} (env : W -> list event -> W * list input).

Import Sender.

#[local] Abbreviation ranged :=
  (fun s tr => sender_in_short s tr /\ lb_nonneg s tr).

Lemma ranged_run n data :
  safe (whatever (W:=W) ranged) not_pack (run env n data).
Proof.
  assert (forall x, safe ranged not_pack (react x)) as Hreact
    by (intros; eapply safe_conj; [apply range_react|apply lb_react]).
  assert (safe ranged not_pack reset) as Hreset
    by (eapply safe_conj; [apply range_reset|apply lb_reset]).
  assert (safe ranged not_pack close) as Hclose
    by (eapply safe_conj; [apply range_close|apply lb_close]).
  assert (forall s tr e, ranged s tr -> not_pack e -> ranged s (tr ++ [uncaught e]))
    as Hunc by (intros s tr e [? ?] ?; split; [by apply range_uncaught|done]).
  assert (forall s tr, ranged s tr -> ranged s (tr ++ [sleep])) as Hsleep.
  { intros s tr [(? & ? & ?) ?]. repeat split; try done; try lia.
    apply Forall_app. split; [done|]. by apply Forall_cons. }
  assert (forall s tr, ranged s tr -> ranged (set_terminate true s) tr) as Hterm
    by (intros s tr [(? & ? & ?) ?]; repeat split; simpl; done || lia).
  unfold run.
  apply safe_bind; [|intros _; apply safe_bind; [|intros _;
    apply safe_bind; [|intros _; apply safe_bind; [|intros _]]]].
  - apply safe_estab_hdlr; try done.
    intros s0 tr0 [(Hi & _) _]. eapply safe_conj;
      [by apply range_send_msg|apply lb_send_msg].
  - apply safe_lift. eapply safe_conj; [apply range_read_file|apply lb_read_file].
  - apply safe_transeg_exec_hdlr; try done.
    + by intros s tr [_ ?].
    + intros lb i _. eapply safe_conj;
        [apply range_transeg_body|apply lb_transeg_body].
  - apply safe_fin_hdlr; try done.
    intros s0 tr0 [(_ & Hf & _) _]. eapply safe_conj;
      [by apply range_send_msg|apply lb_send_msg].
  - by apply safe_lift.
Qed.

End SenderRun.

(** C9: every sequence number either peer hands to [struct.pack] lies in
    [0, 2^16).  In a run of the sender from an ISN drawn in that range, in
    any environment and for any file, and in a run of the listener of the
    receiver on any datagrams with any losses, every datagram sent carries
    such a sequence number, and no thread, the main thread included, ends
    with the [struct.error] that [pack] raises on a number out of range. *)
Theorem seqnos_fit_the_encoder `{Platform} {W : Type}
    (env : W -> list event -> W * list input) (n : nat) (data : list byte)
    (w : W) (max_win isn flp rlp : Z) (arrivals : list (list byte * Z * Z)) :
  0 <= isn < 65536 ->
  let s := Sender.run env n data (Sender.init max_win isn, w) in
  let r := thread (Receiver.fw_listener arrivals) (Receiver.init flp rlp) in
  (Forall in_short (tr_of s) /\ val_of s <> inr pack_error) /\
  Forall in_short (tr_of r).
Proof.
  intros Hisn s r. split.
  - destruct (ranged_run env n data (Sender.init max_win isn, w) []) as [HI HE].
    { split; [|by unfold lb_nonneg]. repeat split; simpl; try lia. done. }
    destruct HI as [(_ & _ & Htr) _]. split; [exact Htr|].
    intros Hv. by apply (HE _ Hv).
  - assert (safe receiver_in_short any_exn
              (thread (Receiver.fw_listener arrivals))) as Hs.
    { eapply safe_thread; [apply rrange_fw_listener|].
      intros s0 tr e Htr He. apply Forall_app. split; [done|].
      apply Forall_cons. split; [|done]. by destruct e. }
    destruct (Hs (Receiver.init flp rlp) []) as [Htr _];
      [by constructor|exact Htr].
Qed.

Lemma seqnos_fit_the_encoder_witness :
  let s := @Sender.run little _ (@lockstep little) 5 [x61]
             (Sender.init 3000 7, (Receiver.init 0 0, true)) in
  let r := thread (@Receiver.fw_listener little below_dsn) (Receiver.init 0 0) in
  (Forall in_short (tr_of s) /\ val_of s <> inr pack_error) /\
  Forall in_short (tr_of r).
Proof.
  apply (@seqnos_fit_the_encoder little _ (@lockstep little) 5 [x61]
           (Receiver.init 0 0, true) 3000 7 0 0 below_dsn).
  lia.
Defined.

(** ** One timer thread for a position *)

Lemma count_app p tr1 tr2 : count p (tr1 ++ tr2) = (count p tr1 + count p tr2)%nat.
Proof. unfold count. by rewrite filter_app, length_app. Qed.

Lemma count_one p e :
  count p [e] = if p e then 1%nat else 0%nat.
Proof.
  unfold count. rewrite filter_cons. destruct (p e) eqn:Hp.
  - by rewrite decide_True.
  - by rewrite decide_False.
Qed.

Lemma hoare_bind {S A B} (P R Q : S -> list event -> Prop) E
    (m : M S A) (k : A -> M S B) :
  hoare P E m R -> (forall a, hoare R E (k a) Q) ->
  (forall s tr, R s tr -> Q s tr) ->
  hoare P E (m ≫= k) Q.
Proof.
  intros Hm Hk HRQ s tr HP. destruct (Hm s tr HP) as [HR HE1].
  destruct (m s) as [[s1 t1] [a|e]] eqn:Hms.
  - rewrite (bind_inl m k s s1 t1 a Hms).
    destruct (Hk a s1 _ HR) as [HQ HE2].
    unfold st_of, tr_of, val_of in *. simpl in *.
    rewrite app_assoc. done.
  - rewrite (bind_inr m k s s1 t1 e Hms).
    unfold st_of, tr_of, val_of in *. simpl in *. split; [by apply HRQ|].
    intros e0 [= <-]. by apply HE1.
Qed.

Lemma hoare_post {S A} (P Q Q' : S -> list event -> Prop) E (m : M S A) :
  hoare P E m Q -> (forall s tr, Q s tr -> Q' s tr) -> hoare P E m Q'.
Proof.
  intros Hm HQ s tr HP. destruct (Hm s tr HP) as [? ?]. split; [by apply HQ|done].
Qed.

Section Timers.
Context `{Platform}.

Import Sender.

Ltac frozen_stable :=
  try (unfold frozen; intros ? ? (? & ? & Hc); repeat split; simpl; try done;
       intros; rewrite count_app, count_one; simpl; rewrite Hc; lia).

Ltac frozen_auto :=
  repeat (first [ safe_step | unfold index, setitem, send_msg ]);
  try done; frozen_stable.

Lemma frozen_send_msg sent armed c flag q i :
  safe (frozen sent armed c) any_exn (send_msg flag q i).
Proof. unfold send_msg. frozen_auto. Qed.

Lemma frozen_mark_rcved sent armed c js :
  safe (frozen sent armed c) any_exn (mark_rcved js).
Proof. induction js as [|j js IH]; simpl; frozen_auto. Qed.

Lemma frozen_retranseg_exec sent armed c i :
  safe (frozen sent armed c) any_exn (retranseg_exec i).
Proof. unfold retranseg_exec. frozen_auto. Qed.

Lemma frozen_close sent armed c : safe (frozen sent armed c) any_exn close.
Proof. unfold close. frozen_auto. Qed.

Lemma frozen_reset sent armed c : safe (frozen sent armed c) any_exn reset.
Proof. unfold reset. frozen_auto; try apply frozen_close. Qed.

Lemma frozen_on_ack sent armed c q : safe (frozen sent armed c) any_exn (on_ack q).
Proof. unfold on_ack. frozen_auto; try apply frozen_mark_rcved. Qed.

Lemma frozen_rv_listener_iter sent armed c m :
  safe (frozen sent armed c) any_exn (rv_listener_iter m).
Proof. unfold rv_listener_iter. frozen_auto; try apply frozen_on_ack. Qed.

Lemma frozen_uncaught sent armed c s tr e :
  frozen sent armed c s tr -> frozen sent armed c s (tr ++ [uncaught e]).
Proof.
  intros (? & ? & Hc). repeat split; try done.
  intros i. rewrite count_app, count_one. simpl. rewrite Hc. lia.
Qed.

Lemma frozen_rv_listener sent armed c m :
  safe (frozen sent armed c) any_exn (rv_listener m).
Proof.
  intros s tr HI.
  destruct (frozen_rv_listener_iter sent armed c m s tr HI) as [HI1 HE1].
  unfold rv_listener, st_of, tr_of, val_of in *.
  destruct (rv_listener_iter m s) as [[s1 t1] [[]|e]]; simpl in *;
    (split; [|done]); try done.
  rewrite app_assoc. by apply (frozen_uncaught _ _ _ (set_listening false s1)).
Qed.

Lemma frozen_react sent armed c x : safe (frozen sent armed c) any_exn (react x).
Proof.
  destruct x as [m|i]; simpl.
  - frozen_auto; try apply frozen_rv_listener.
  - eapply safe_thread; [apply frozen_retranseg_exec|].
    intros. by apply frozen_uncaught.
Qed.

Lemma frozen_timers_once {A} (m : M state A) :
  (forall sent armed c, safe (frozen sent armed c) any_exn m) ->
  safe timers_once any_exn m.
Proof.
  intros Hm s tr (H1 & H2 & H3).
  destruct (Hm (segmtSent s) (segmtTimer s) (fun i => count (is_timer i) tr) s tr)
    as [(Hs & Ht & Hc) _]; [done|].
  split; [|done]. unfold timers_once, once. rewrite Hs, Ht.
  repeat split; intros; rewrite ?Hc in *; try apply H2; eauto.
Qed.

Lemma py_index_nat {A} (l : list A) i : 0 <= i -> py_index l i = l !! Z.to_nat i.
Proof.
  intros Hi. unfold py_index.
  by replace (0 <=? i) with true by (symmetry; apply Z.leb_le; lia).
Qed.

Lemma py_setitem_nat {A} (l : list A) i v l' :
  0 <= i -> py_setitem l i v = Some l' ->
  l' = <[Z.to_nat i := v]> l /\ (Z.to_nat i < length l)%nat.
Proof.
  intros Hi. unfold py_setitem.
  replace (0 <=? i) with true by (symmetry; apply Z.leb_le; lia).
  replace (i <? 0) with false by (symmetry; apply Z.ltb_ge; lia). simpl.
  destruct (Z.ltb_spec i (Z.of_nat (length l))); [|done].
  intros [= <-]. split; [done|lia].
Qed.

(** A segment is marked as sent. *)
Lemma once_sent sent armed tr k :
  once sent armed tr -> once (<[k := 1]> sent) armed tr.
Proof.
  intros (H1 & H2 & H3). split; [|done]. intros j t Hj Ht.
  destruct (decide (j = k)) as [->|Hne].
  - destruct (decide (k < length sent)%nat).
    + by rewrite list_lookup_insert_eq in Hj.
    + rewrite list_insert_ge in Hj by lia. eauto.
  - rewrite list_lookup_insert_ne in Hj by done. eauto.
Qed.

(** The timer of a position is armed and its thread started, where the
    segment is marked as sent and the timer was not armed. *)
Lemma once_armed sent armed tr k v :
  once sent armed tr ->
  sent !! k = Some v -> v <> 0 -> armed !! k = Some 0 ->
  once sent (<[k := 1]> armed) (tr ++ [timer (Z.of_nat k)]).
Proof.
  intros (H1 & H2 & H3) Hs Hv Ha.
  assert (count (is_timer (Z.of_nat k)) tr = O) as H0.
  { destruct (H2 k) as [Hle H1k].
    destruct (count (is_timer (Z.of_nat k)) tr) as [|[|n]]; [done| |lia].
    destruct (H1k eq_refl) as (t & Ht & Hne). congruence. }
  assert (k < length armed)%nat by (by eapply lookup_lt_Some).
  repeat split.
  - intros j t Hj Ht. destruct (decide (j = k)) as [->|Hne].
    + rewrite Hs in Hj. by injection Hj as ->.
    + rewrite list_lookup_insert_ne in Ht by done. eauto.
  - rewrite count_app, count_one. simpl.
    destruct (decide (k0 = k)) as [->|Hne].
    + rewrite H0, Z.eqb_refl. lia.
    + replace (Z.of_nat k =? Z.of_nat k0) with false
        by (symmetry; apply Z.eqb_neq; lia).
      destruct (H2 k0). lia.
  - rewrite count_app, count_one. simpl. intros Hc.
    destruct (decide (k0 = k)) as [->|Hne].
    + exists 1. by rewrite list_lookup_insert_eq.
    + rewrite list_lookup_insert_ne by done.
      replace (Z.of_nat k =? Z.of_nat k0) with false in Hc
        by (symmetry; apply Z.eqb_neq; lia).
      destruct (H2 k0) as [_ Hk0]. apply Hk0. lia.
  - intros i Hi. rewrite count_app, count_one. simpl.
    replace (Z.of_nat k =? i) with false by (symmetry; apply Z.eqb_neq; lia).
    rewrite (H3 i Hi). done.
Qed.

(** An event that is not the start of a timer. *)
Lemma once_event sent armed tr e :
  once sent armed tr -> (forall i, is_timer i e = false) ->
  once sent armed (tr ++ [e]).
Proof.
  intros (H1 & H2 & H3) He.
  repeat split; try done; intros; rewrite ?count_app, ?count_one, ?He in *;
    rewrite ?Nat.add_0_r in *; try apply H2; eauto.
Qed.

Lemma once_snd sent armed tr f q b :
  once sent armed tr -> once sent armed (tr ++ [snd f q b]).
Proof. intros. by apply once_event. Qed.

Lemma once_transeg_body lb i :
  0 <= lb <= i -> safe timers_once any_exn (transeg_body lb i).
Proof.
  intros Hi. unfold transeg_body, send_msg, index, setitem. unfold_safe.
  rewrite !py_index_nat by lia.
  assert (timer i = timer (Z.of_nat (Z.to_nat i))) as Hti
    by (by rewrite Z2Nat.id by lia).
  case_code; (split; [|done]); unfold timers_once in *; simpl;
    rewrite ?app_nil_r; try done;
    repeat match goal with
           | H : py_setitem _ _ _ = Some _ |- _ =>
               apply py_setitem_nat in H as [-> ?]; [|lia]
           | H : (_ =? _) = true |- _ => apply Z.eqb_eq in H
           | H : (_ =? _) = false |- _ => apply Z.eqb_neq in H
           end; subst;
    try (by apply once_sent);
    try (apply once_snd; by apply once_sent).
  all: try (rewrite (app_assoc tr [timer _] [_]); apply once_snd).
  all: rewrite Hti.
  all: try (eapply once_armed; [by apply once_sent
                               |by apply list_lookup_insert_eq, lookup_lt_is_Some;
                                   eauto
                               |done|]).
  all: try match goal with
       | |- once _ _ (?t ++ [?a; ?b]) =>
           change (t ++ [a; b]) with (t ++ ([a] ++ [b]));
           rewrite app_assoc; apply once_snd;
           eapply once_armed; [by apply once_sent
             |by apply list_lookup_insert_eq|done|]
       end.
  all: try match goal with
       | H0 : segmtSent ?s !! ?k = Some 0,
         HL : (?k < length (segmtTimer ?s))%nat
         |- segmtTimer ?s !! ?k = Some 0 =>
           destruct (lookup_lt_is_Some_2 _ _ HL) as [t Ht];
           rewrite Ht; f_equal;
           destruct HI as (HI1 & _); by apply (HI1 k t)
       end.
  all: by eapply once_armed.
Qed.

(** [read_file] sets all the flags to 0 while no timer has been started. *)
Lemma once_read_file data : hoare unread any_exn (read_file data) timers_once.
Proof.
  unfold read_file. intros s tr (Hs & Ht & Hc). mrun. simpl.
  split; [|done]. unfold timers_once. simpl. rewrite app_nil_r.
  repeat split.
  - intros k t _ Hk. by apply lookup_replicate in Hk as [-> _].
  - rewrite Hc. lia.
  - rewrite Hc. done.
  - intros. apply Hc.
Qed.

End Timers.

Lemma hoare_conj {S A} (P1 P2 Q1 Q2 : S -> list event -> Prop) E E' (m : M S A) :
  hoare P1 E m Q1 -> hoare P2 E' m Q2 ->
  hoare (fun s tr => P1 s tr /\ P2 s tr) E m (fun s tr => Q1 s tr /\ Q2 s tr).
Proof.
  intros H1 H2 s tr [HP1 HP2].
  destruct (H1 s tr HP1) as [? ?], (H2 s tr HP2) as [? ?]. done.
Qed.

Lemma hoare_lift `{Platform} {W A} (P Q : Sender.state -> list event -> Prop) E
    (m : M Sender.state A) :
  hoare P E m Q -> hoare (whatever (W:=W) P) E (Sender.lift m) (whatever Q).
Proof.
  intros Hm [s w] tr HP. destruct (Hm s tr HP) as [HQ HE].
  unfold Sender.lift, whatever, st_of, tr_of, val_of in *. simpl in *.
  by destruct (m s) as [[s1 t1] r].
Qed.

Section TimerRun.
Context `{Platform} {W : Type} (env : W -> list event -> W * list input).

Import Sender.

#[local] Abbreviation before := (fun s tr => unread s tr /\ lb_nonneg s tr).
#[local] Abbreviation since := (fun s tr => timers_once s tr /\ lb_nonneg s tr).

Lemma unread_timers_once s tr : unread s tr -> timers_once s tr.
Proof.
  intros (Hs & Ht & Hc). unfold timers_once. rewrite Hs, Ht.
  repeat split; intros; rewrite ?Hc, ?lookup_nil in *; done || lia.
Qed.

Lemma before_react x : safe before any_exn (react x).
Proof. eapply safe_conj; [apply frozen_react|apply lb_react]. Qed.

Lemma since_react x : safe since any_exn (react x).
Proof.
  eapply safe_conj; [|apply lb_react].
  apply frozen_timers_once. intros. apply frozen_react.
Qed.

Lemma since_reset : safe since any_exn reset.
Proof.
  eapply safe_conj; [|apply lb_reset].
  apply frozen_timers_once. intros. apply frozen_reset.
Qed.

Lemma since_close : safe since any_exn close.
Proof.
  eapply safe_conj; [|apply lb_close].
  apply frozen_timers_once. intros. apply frozen_close.
Qed.

Lemma since_event s tr e :
  (forall i, is_timer i e = false) -> since s tr -> since s (tr ++ [e]).
Proof. intros He [? ?]. split; [by apply once_event|done]. Qed.

Lemma before_event s tr e :
  (forall i, is_timer i e = false) -> before s tr -> before s (tr ++ [e]).
Proof.
  intros He [(? & ? & Hc) ?]. repeat split; try done.
  intros i. by rewrite count_app, count_one, He, Hc.
Qed.

Lemma before_estab_hdlr : safe (whatever (W:=W) before) any_exn (estab_hdlr env).
Proof.
  apply safe_estab_hdlr; try done.
  - apply before_react.
  - intros. by apply before_event.
  - intros. by apply before_event.
  - eapply safe_conj; [apply frozen_reset|apply lb_reset].
  - eapply safe_conj; [apply frozen_close|apply lb_close].
  - intros. eapply safe_conj; [apply frozen_send_msg|apply lb_send_msg].
Qed.

Lemma since_rest n :
  safe (whatever (W:=W) since) any_exn
    (transeg_exec_hdlr env n;; fin_hdlr env;; lift close).
Proof.
  assert (forall s tr, since s tr -> since (set_terminate true s) tr) as Hterm
    by (by intros s tr [? ?]).
  apply safe_bind; [|intros _; apply safe_bind; [|intros _]].
  - apply safe_transeg_exec_hdlr; try done.
    + apply since_react.
    + apply since_reset.
    + apply since_close.
    + by intros s tr [_ ?].
    + intros lb i Hi. eapply safe_conj;
        [by apply once_transeg_body|apply lb_transeg_body].
  - apply safe_fin_hdlr; try done.
    + apply since_react.
    + intros. by apply since_event.
    + intros. by apply since_event.
    + apply since_reset.
    + apply since_close.
    + intros. eapply safe_conj; [|apply lb_send_msg].
      apply frozen_timers_once. intros. apply frozen_send_msg.
  - apply safe_lift, since_close.
Qed.

Lemma once_run n data :
  hoare (whatever (W:=W) before) any_exn (run env n data)
        (whatever timers_once).
Proof.
  unfold run. eapply hoare_bind; [apply before_estab_hdlr| |].
  - intros _. eapply hoare_bind.
    + apply hoare_lift. eapply hoare_conj; [apply once_read_file|apply lb_read_file].
    + intros _. eapply hoare_post; [apply since_rest|]. by intros s tr [? ?].
    + by intros s tr [? ?].
  - intros s tr [? ?]. by apply unread_timers_once.
Qed.

End TimerRun.

(** C10: in a run of the sender, in any environment, for any file and any
    number of rounds of the sending loop, at most one retransmission-timer
    thread is started for a position; where one was started the flag
    [segmtTimer] of the position is set, from then on (it is set at the end of
    every run, however short), so that the guard of the scheduler never
    starts a second one. *)
Theorem one_timer_per_position `{Platform} {W : Type}
    (env : W -> list event -> W * list input) (n : nat) (data : list byte)
    (w : W) (max_win isn i : Z) :
  let r := Sender.run env n data (Sender.init max_win isn, w) in
  (count (is_timer i) (tr_of r) <= 1)%nat /\
  (count (is_timer i) (tr_of r) = 1%nat ->
   exists t, py_index (Sender.segmtTimer (st_of r).1) i = Some t /\ t <> 0).
Proof.
  intros r.
  destruct (once_run env n data (Sender.init max_win isn, w) []) as [HI _].
  { split; [|by unfold lb_nonneg]. by repeat split. }
  destruct HI as (H1 & H2 & H3). fold r in H1, H2, H3. simpl in *.
  destruct (decide (i < 0)) as [Hneg|Hpos].
  - rewrite (H3 i Hneg). split; [lia|done].
  - destruct (H2 (Z.to_nat i)) as [Hle Hset].
    rewrite Z2Nat.id in Hle, Hset by lia. split; [done|].
    intros Hc. rewrite py_index_nat by lia. by apply Hset.
Qed.

(** ** The window of the sender *)

Section WindowFacts.
Context `{Platform}.

Import Sender.

Lemma set_segmtRcved_id s : set_segmtRcved (segmtRcved s) s = s.
Proof. by destruct s. Qed.

(** [mark_rcved] changes [segmtRcved] only, keeps its length, and comes to
    its end only if all its indices are within the list. *)
Lemma mark_rcved_spec js s :
  (exists l, st_of (mark_rcved js s) = set_segmtRcved l s /\
             length l = length (segmtRcved s)) /\
  tr_of (mark_rcved js s) = [] /\
  (val_of (mark_rcved js s) = inl tt ->
   forall j, j ∈ js -> 0 <= j -> j < Z.of_nat (length (segmtRcved s))).
Proof.
  revert s. induction js as [|j js IH]; intros s.
  - simpl. mrun. simpl. split; [|split; [done|]].
    + exists (segmtRcved s). by rewrite set_segmtRcved_id.
    + intros _ j Hj. by apply elem_of_nil in Hj.
  - simpl. unfold setitem. mrun. simpl.
    destruct (py_setitem (segmtRcved s) j 1) as [l|] eqn:Hl; simpl.
    + destruct (IH (set_segmtRcved l s)) as ((l' & Hst & Hlen) & Htr & Hval).
      assert (length l = length (segmtRcved s)) as Hll.
      { unfold py_setitem in Hl.
        destruct ((0 <=? j) && _) in Hl;
          [|destruct ((j <? 0) && _) in Hl; [|done]];
          injection Hl as <-; by rewrite length_insert. }
      destruct (mark_rcved js (set_segmtRcved l s)) as [[s1 t1] r] eqn:Hm.
      unfold st_of, tr_of, val_of in *. simpl in *.
      split; [|split].
      * exists l'. rewrite Hst. split; [done|]. by rewrite Hlen.
      * by rewrite Htr.
      * intros -> j0 Hj0 Hpos. apply elem_of_cons in Hj0 as [->|Hj0].
        -- unfold py_setitem in Hl.
           destruct ((0 <=? j) && (j <? Z.of_nat (length (segmtRcved s)))) eqn:Hb.
           ++ apply andb_prop in Hb as [_ Hb]. by apply Z.ltb_lt in Hb.
           ++ destruct ((j <? 0) && (- Z.of_nat (length (segmtRcved s)) <=? j))
                eqn:Hb'; [|done].
              apply andb_prop in Hb' as [Hb' _]. apply Z.ltb_lt in Hb'. lia.
        -- rewrite <- Hll. by apply Hval.
    + split; [|split; [done|done]].
      exists (segmtRcved s). by rewrite set_segmtRcved_id.
Qed.

Lemma same_window_unread max_win s s' :
  same_window s s' -> unread_window max_win s -> unread_window max_win s'.
Proof.
  unfold unread_window. intros (-> & -> & -> & -> & _). done.
Qed.


Lemma transeg_body_same lb i s : same_window s (st_of (transeg_body lb i s)).
Proof.
  unfold transeg_body, send_msg, index, setitem. mrun.
  case_code; by repeat split.
Qed.

Lemma retranseg_exec_same i s : same_window s (st_of (retranseg_exec i s)).
Proof.
  unfold retranseg_exec, send_msg, index. mrun.
  case_code; by repeat split.
Qed.

Ltac use_mark :=
  match goal with
  | Hm : mark_rcved ?js ?s = _ |- _ =>
      let Hst := fresh "Hst" in
      let Hlen := fresh "Hlen" in
      let Htr := fresh "Htr" in
      let Hval := fresh "Hval" in
      destruct (mark_rcved_spec js s) as ((? & Hst & Hlen) & Htr & Hval);
      rewrite Hm in Hst, Htr, Hval;
      unfold st_of, tr_of, val_of in Hst, Htr, Hval;
      simpl in Hst, Htr, Hval; clear Hm; subst
  end.

Lemma on_ack_unread max_win q s :
  unread_window max_win s -> unread_window max_win (st_of (on_ack q s)).
Proof.
  intros (Hlb & Hub & Hr & Hw). unfold on_ack, send_msg, index. mrun.
  case_code; simpl in *; try (by repeat split); use_mark; simpl in *.
  all: rewrite Hr in *; apply nil_length_inv in Hlen; subst x.
  all: try (by repeat split).
  all: match goal with H : (_ <? _) = true |- _ => apply Z.ltb_lt in H end.
  all: exfalso; repeat match goal with u : () |- _ => destruct u end.
  all: match goal with
       | Hv : _ = inl () -> _ |- _ =>
           specialize (Hv eq_refl 0); simpl in Hv;
           rewrite elem_of_seqZ in Hv; lia
       end.
Qed.



(** The listener keeps the window where it is before [read_file] and within
    the buffer after it. *)
Lemma rv_listener_iter_unread max_win m s :
  unread_window max_win s ->
  unread_window max_win (st_of (rv_listener_iter m s)).
Proof.
  intros Hs. unfold rv_listener_iter. mrun.
  pose proof (on_ack_unread max_win) as Hack. unfold st_of in Hack.
  case_code; simpl; try done;
    try match goal with
        | Ha : on_ack ?q ?s = _ |- _ =>
            specialize (Hack q s Hs); rewrite Ha in Hack; simpl in Hack
        end; done.
Qed.


Lemma react_unread max_win x s :
  unread_window max_win s -> unread_window max_win (st_of (react x s)).
Proof.
  intros Hs. destruct x as [m|i]; simpl.
  - unfold rv_listener. mrun.
    pose proof (rv_listener_iter_unread max_win m s Hs) as Hm.
    unfold st_of in Hm. case_code; simpl in *; done.
  - mrun. pose proof (retranseg_exec_same i s) as Hi. unfold st_of in Hi.
    destruct (retranseg_exec i s) as [[s1 t1] [f|e]]; simpl in *;
      by eapply same_window_unread.
Qed.


Lemma handshaking_unread max_win isn s :
  handshaking max_win isn s -> unread_window max_win s.
Proof.
  induction 1 as [|s x _ IH|s _ IH].
  - by repeat split.
  - by apply react_unread.
  - done.
Qed.

Lemma partitions_pos size : 0 < size -> 1 <= partitions size.
Proof.
  intros Hs. unfold partitions. rewrite Z.quot_div_nonneg by lia.
  destruct (size mod 1000 =? 0) eqn:Hm.
  - apply Z.eqb_eq in Hm. pose proof (Z.div_mod size 1000). lia.
  - pose proof (Z.div_pos size 1000). lia.
Qed.

Lemma partitions_nonneg size : 0 <= size -> 0 <= partitions size.
Proof.
  intros Hs. unfold partitions. rewrite Z.quot_div_nonneg by lia.
  pose proof (Z.div_pos size 1000). destruct (size mod 1000 =? 0); lia.
Qed.



End WindowFacts.

(** The two steps of [read_file] make up [read_file]. *)
Lemma read_file_steps `{Platform} data s :
  Sender.read_file data s
  = (Sender.read_file_lists data;; Sender.read_file_window) s.
Proof. reflexivity. Qed.




(** ** Handshake and teardown *)

Section OtherThreads.
Context `{Platform}.
Variables (f : Z) (c : nat).
Hypothesis Hf : f <> 0.

Import Sender.

Ltac sent_stable :=
  try (unfold sent_times; intros ? ? Hc; simpl; try done;
       rewrite count_app, count_one; cbn [is_snd];
       try (destruct (Z.eqb_spec 0 f) as [?|_]; [lia|]); rewrite Hc; lia).

Ltac sent_auto :=
  repeat (first [ safe_step | unfold index, setitem ]);
  try done; sent_stable.

Lemma sent_data q i : safe (sent_times f c) any_exn (send_msg 0 q i).
Proof. unfold send_msg. simpl. sent_auto. Qed.

Lemma sent_mark_rcved js : safe (sent_times f c) any_exn (mark_rcved js).
Proof. induction js as [|j js IH]; simpl; sent_auto. Qed.

Lemma sent_retranseg_exec i : safe (sent_times f c) any_exn (retranseg_exec i).
Proof. unfold retranseg_exec. sent_auto; try apply sent_data. Qed.

Lemma sent_on_ack q : safe (sent_times f c) any_exn (on_ack q).
Proof.
  unfold on_ack. sent_auto; try apply sent_data; try apply sent_mark_rcved.
Qed.

Lemma sent_rv_listener_iter m : safe (sent_times f c) any_exn (rv_listener_iter m).
Proof. unfold rv_listener_iter. sent_auto; try apply sent_on_ack. Qed.

Lemma sent_uncaught (s : state) tr e :
  sent_times f c s tr -> sent_times f c s (tr ++ [uncaught e]).
Proof. unfold sent_times. intros Hc. rewrite count_app, count_one. simpl. lia. Qed.

Lemma sent_rv_listener m : safe (sent_times f c) any_exn (rv_listener m).
Proof.
  intros s tr HI.
  destruct (sent_rv_listener_iter m s tr HI) as [HI1 HE1].
  unfold rv_listener, st_of, tr_of, val_of in *.
  destruct (rv_listener_iter m s) as [[s1 t1] [[]|e]]; simpl in *;
    (split; [|done]); try done.
  rewrite app_assoc. by apply (sent_uncaught s1).
Qed.

Lemma sent_react x : safe (sent_times f c) any_exn (react x).
Proof.
  destruct x as [m|i]; simpl.
  - sent_auto; try apply sent_rv_listener.
  - eapply safe_thread; [apply sent_retranseg_exec|].
    intros. by apply sent_uncaught.
Qed.

End OtherThreads.

Section Attempts.
Context `{Platform} {W : Type} (env : W -> list event -> W * list input).

Import Sender.

(** The other threads send neither SYN, FIN nor RESET. *)
Lemma yield_sends_data f evs sw :
  f <> 0 -> count (is_snd f) (tr_of (yield env evs sw)) = O.
Proof.
  intros Hf.
  destruct (safe_yield env (sent_times f 0) any_exn (sent_react f 0 Hf) evs sw [])
    as [Hc _]; done.
Qed.

(** A control datagram goes out as it is, if its sequence number fits. *)
Lemma send_msg_control flag q s :
  flag <> 0 ->
  send_msg flag q 0 s =
    match pack_2H flag q with
    | Some _ => (s, [snd flag q []], inl tt)
    | None => (s, [], inr pack_error)
    end.
Proof.
  intros Hf. unfold send_msg. apply Z.eqb_neq in Hf. rewrite Hf. simpl.
  by destruct (pack_2H flag q).
Qed.

Lemma attempt_eq flag q (sw : state * W) :
  flag <> 0 ->
  listen (lift (send_msg flag q 0);; emit sleep) sw =
    match pack_2H flag q with
    | Some _ => (sw, [snd flag q []; sleep], inl (tt, [snd flag q []; sleep]))
    | None => (sw, [], inr pack_error)
    end.
Proof.
  intros Hf. unfold listen, lift. mrun. rewrite send_msg_control by done.
  destruct sw as [s w]. by destruct (pack_2H flag q).
Qed.

Lemma estab_exec_at_most n i sw :
  1 <= i <= 4 ->
  (count (is_snd 2) (tr_of (estab_exec env n i sw)) <= Z.to_nat (5 - i))%nat.
Proof.
  revert i sw. induction n as [|n IH]; intros i sw Hi; simpl.
  { unfold raise, tr_of, count. simpl. lia. }
  rewrite (bind_inl get _ sw sw [] sw eq_refl). simpl.
  pose proof (attempt_eq 2 (ISN sw.1) sw ltac:(done)) as Ha.
  destruct (pack_2H 2 (ISN sw.1)) as [h|].
  2: { rewrite (bind_inr _ _ _ _ _ _ Ha). unfold tr_of, count. simpl. lia. }
  rewrite (bind_inl _ _ _ _ _ _ Ha). unfold tr_of at 1. simpl.
  pose proof (yield_sends_data 2 [snd 2 (ISN sw.1) []; sleep] sw ltac:(done)) as Hy.
  destruct (yield env _ sw) as [[sw1 tr1] [[]|e]] eqn:Hyd; unfold tr_of in Hy;
    simpl in Hy.
  2: { rewrite (bind_inr _ _ _ _ _ _ Hyd). unfold tr_of. simpl.
       change (count (is_snd 2) (snd 2 (ISN sw.1) [] :: sleep :: tr1))
         with (count (is_snd 2) ([snd 2 (ISN sw.1) []; sleep] ++ tr1)).
       rewrite count_app, Hy. unfold count. simpl. lia. }
  rewrite (bind_inl _ _ _ _ _ _ Hyd). unfold tr_of at 1. simpl.
  rewrite (bind_inl get _ sw1 sw1 [] sw1 eq_refl). unfold tr_of at 1. simpl.
  change (snd 2 (ISN sw.1) [] :: sleep :: tr1 ++ ?x)
    with ([snd 2 (ISN sw.1) []; sleep] ++ tr1 ++ x).
  rewrite !count_app, Hy.
  assert (count (is_snd 2) [snd 2 (ISN sw.1) []; sleep] = 1%nat) as -> by done.
  destruct (negb (established sw1.1)); [|unfold tr_of, count; simpl; lia].
  destruct (terminate sw1.1 || negb (active sw1.1)); [unfold tr_of, count; simpl; lia|].
  destruct (i =? 4) eqn:Hi4.
  - unfold lift, modify, tr_of, count. simpl. lia.
  - apply Z.eqb_neq in Hi4. specialize (IH (i + 1) sw1 ltac:(lia)).
    unfold tr_of at 1. simpl. lia.
Qed.

Lemma fin_exec_at_most n i sw :
  1 <= i <= 4 ->
  (count (is_snd 3) (tr_of (fin_exec env n i sw)) <= Z.to_nat (5 - i))%nat.
Proof.
  revert i sw. induction n as [|n IH]; intros i sw Hi; simpl.
  { unfold raise, tr_of, count. simpl. lia. }
  rewrite (bind_inl get _ sw sw [] sw eq_refl). simpl.
  pose proof (attempt_eq 3 (FSN sw.1) sw ltac:(done)) as Ha.
  destruct (pack_2H 3 (FSN sw.1)) as [h|].
  2: { rewrite (bind_inr _ _ _ _ _ _ Ha). unfold tr_of, count. simpl. lia. }
  rewrite (bind_inl _ _ _ _ _ _ Ha). unfold tr_of at 1. simpl.
  pose proof (yield_sends_data 3 [snd 3 (FSN sw.1) []; sleep] sw ltac:(done)) as Hy.
  destruct (yield env _ sw) as [[sw1 tr1] [[]|e]] eqn:Hyd; unfold tr_of in Hy;
    simpl in Hy.
  2: { rewrite (bind_inr _ _ _ _ _ _ Hyd). unfold tr_of. simpl.
       change (count (is_snd 3) (snd 3 (FSN sw.1) [] :: sleep :: tr1))
         with (count (is_snd 3) ([snd 3 (FSN sw.1) []; sleep] ++ tr1)).
       rewrite count_app, Hy. unfold count. simpl. lia. }
  rewrite (bind_inl _ _ _ _ _ _ Hyd). unfold tr_of at 1. simpl.
  rewrite (bind_inl get _ sw1 sw1 [] sw1 eq_refl). unfold tr_of at 1. simpl.
  change (snd 3 (FSN sw.1) [] :: sleep :: tr1 ++ ?x)
    with ([snd 3 (FSN sw.1) []; sleep] ++ tr1 ++ x).
  rewrite !count_app, Hy.
  assert (count (is_snd 3) [snd 3 (FSN sw.1) []; sleep] = 1%nat) as -> by done.
  destruct (negb (finished sw1.1)); [|unfold tr_of, count; simpl; lia].
  destruct (terminate sw1.1 || negb (active sw1.1)); [unfold tr_of, count; simpl; lia|].
  destruct (i =? 4) eqn:Hi4.
  - unfold lift, modify, tr_of, count. simpl. lia.
  - apply Z.eqb_neq in Hi4. specialize (IH (i + 1) sw1 ltac:(lia)).
    unfold tr_of at 1. simpl. lia.
Qed.

Lemma lift_reset (sw : state * W) :
  lift reset sw = ((set_active false sw.1, sw.2), [snd 4 0 []], inr SystemExit).
Proof.
  unfold lift, reset, close. destruct sw as [s w]. mrun.
  by rewrite send_msg_control.
Qed.

Lemma lift_close (sw : state * W) :
  lift close sw = ((set_active false sw.1, sw.2), [], inr SystemExit).
Proof. by destruct sw. Qed.

Lemma thread_count {S A} p (m : M S A) s :
  (forall e, p (uncaught e) = false) ->
  count p (tr_of (thread m s)) = count p (tr_of (m s)).
Proof.
  intros Hp. unfold thread, tr_of. destruct (m s) as [[s1 t1] [a|e]]; simpl; [done|].
  by rewrite count_app, count_one, Hp, Nat.add_0_r.
Qed.

Lemma estab_hdlr_at_most sw :
  (count (is_snd 2) (tr_of (estab_hdlr env sw)) <= 4)%nat.
Proof.
  unfold estab_hdlr.
  pose proof (estab_exec_at_most recursion_limit 1 sw ltac:(lia)) as Hx.
  rewrite <- (thread_count (is_snd 2)) in Hx by done.
  destruct (thread _ sw) as [[sw1 tr1] [[]|e]] eqn:Ht; unfold tr_of in Hx;
    simpl in Hx.
  2: { by rewrite (bind_inr _ _ _ _ _ _ Ht). }
  rewrite (bind_inl _ _ _ _ _ _ Ht).
  rewrite (bind_inl get _ sw1 sw1 [] sw1 eq_refl). unfold tr_of. simpl.
  rewrite count_app.
  repeat match goal with |- context [if ?b then _ else _] => destruct b end;
    rewrite ?lift_reset, ?lift_close; unfold count in *; simpl in *; lia.
Qed.

Lemma fin_hdlr_at_most sw :
  (count (is_snd 3) (tr_of (fin_hdlr env sw)) <= 4)%nat.
Proof.
  unfold fin_hdlr.
  pose proof (fin_exec_at_most recursion_limit 1 sw ltac:(lia)) as Hx.
  rewrite <- (thread_count (is_snd 3)) in Hx by done.
  destruct (thread _ sw) as [[sw1 tr1] [[]|e]] eqn:Ht; unfold tr_of in Hx;
    simpl in Hx.
  2: { by rewrite (bind_inr _ _ _ _ _ _ Ht). }
  rewrite (bind_inl _ _ _ _ _ _ Ht).
  rewrite (bind_inl get _ sw1 sw1 [] sw1 eq_refl). unfold tr_of. simpl.
  rewrite count_app.
  repeat match goal with |- context [if ?b then _ else _] => destruct b end;
    rewrite ?lift_reset, ?lift_close; unfold count in *; simpl in *; lia.
Qed.

(** Without a RESET of the peer the sender stays active, and no thread but
    the main thread sends a RESET. *)
Lemma running_on_ack q : safe (fun s _ => active s = true) any_exn (on_ack q).
Proof.
  unfold on_ack.
  repeat (first [ safe_step | unfold index, setitem, send_msg ]); try done.
  clear. induction (seqZ 0 _) as [|j js IH]; simpl;
    repeat (first [ safe_step | unfold index, setitem ]); done.
Qed.

Lemma running_rv_listener_iter m :
  no_reset (arrive m) ->
  safe (fun s _ => active s = true) any_exn (rv_listener_iter m).
Proof.
  intros Hm. unfold rv_listener_iter.
  destruct (unpack_2H (take 4 m)) as [[t q]|] eqn:Hu; [|by apply safe_raise].
  apply safe_get_bind. intros s0 tr0 H0.
  destruct (t =? 4) eqn:Ht.
  { apply Z.eqb_eq in Ht as ->. by destruct (Hm q). }
  repeat (first [ safe_step | apply running_on_ack ]); done.
Qed.

Lemma running_react x :
  no_reset x -> safe (fun s _ => active s = true) no_exn (react x).
Proof.
  intros Hx. destruct x as [m|i]; simpl.
  - apply safe_get_bind. intros s0 tr0 H0.
    destruct (listening s0); [|apply safe_ret].
    destruct (active s0); [|by apply safe_modify].
    intros s tr HI.
    destruct (running_rv_listener_iter m Hx s tr HI) as [HI1 _].
    unfold rv_listener, st_of, tr_of, val_of in *.
    by destruct (rv_listener_iter m s) as [[s1 t1] [[]|e]].
  - eapply (safe_thread _ any_exn); [|done].
    unfold retranseg_exec.
    repeat (first [ safe_step | unfold index, setitem, send_msg ]); done.
Qed.

Lemma alive_react x : no_reset x -> safe alive no_exn (react x).
Proof.
  intros Hx. unfold alive.
  eapply safe_conj; [by apply running_react|].
  eapply safe_conj; [apply range_react|by apply sent_react].
Qed.

Lemma alive_reacts xs : Forall no_reset xs -> safe alive no_exn (reacts xs).
Proof.
  induction 1 as [|x xs Hx _ IH]; simpl; [apply safe_ret|].
  apply safe_bind; [by apply alive_react|]. intros _. exact IH.
Qed.

Lemma alive_yield evs :
  unreset env -> safe (whatever alive) no_exn (yield env evs).
Proof.
  intros He. unfold yield. apply safe_get_bind. intros sw0 tr0 _.
  apply safe_bind; [by apply safe_modify|]. intros _.
  apply safe_lift, alive_reacts, He.
Qed.

Lemma yield_returns evs sw tr :
  unreset env -> alive sw.1 tr ->
  exists sw1 tr1,
    yield env evs sw = (sw1, tr1, inl tt) /\ alive sw1.1 (tr ++ tr1).
Proof.
  intros He HI. destruct (alive_yield evs He sw tr HI) as [HI1 HE1].
  unfold st_of, tr_of, val_of in *.
  destruct (yield env evs sw) as [[sw1 tr1] [[]|e]]; simpl in *.
  - by exists sw1, tr1.
  - by destruct (HE1 e).
Qed.

Lemma alive_attempt flag q (s : state) tr :
  flag <> 4 -> 0 <= q < 65536 ->
  alive s tr -> alive s (tr ++ [snd flag q []; sleep]).
Proof.
  intros Hf Hq (Ha & (Hi & Hfs & Ht) & Hc). unfold alive, sender_in_short, sent_times.
  rewrite count_app. repeat split; try done; try lia.
  - apply Forall_app. split; [done|].
    apply Forall_cons. split; [done|]. by apply Forall_cons.
  - rewrite Hc. change [snd flag q []; sleep] with ([snd flag q []] ++ [sleep]).
    rewrite count_app, !count_one. cbn [is_snd]. apply Z.eqb_neq in Hf.
    by rewrite Hf.
Qed.

(** The executor of the handshake comes to its end, with the connection
    established or with [terminate] set. *)
Lemma estab_exec_ends n i sw tr :
  unreset env -> 1 <= i <= 4 -> (Z.to_nat (5 - i) <= n)%nat ->
  alive sw.1 tr ->
  let r := estab_exec env n i sw in
  alive (st_of r).1 (tr ++ tr_of r) /\ val_of r = inl tt /\
  (established (st_of r).1 = true \/ terminate (st_of r).1 = true).
Proof.
  intros He. revert i sw tr. induction n as [|n IH]; intros i sw tr Hi Hn HI;
    [lia|]. simpl.
  rewrite (bind_inl get _ sw sw [] sw eq_refl). simpl.
  assert (0 <= ISN sw.1 < 65536) as Hq by apply HI.
  pose proof (attempt_eq 2 (ISN sw.1) sw ltac:(done)) as Ha.
  destruct (pack_2H_Some 2 (ISN sw.1) ltac:(lia) Hq) as [h Hh].
  rewrite Hh in Ha. rewrite (bind_inl _ _ _ _ _ _ Ha). simpl.
  apply (alive_attempt 2 (ISN sw.1)) in HI; [|done|done].
  destruct (yield_returns [snd 2 (ISN sw.1) []; sleep] sw _ He HI)
    as (sw1 & tr1 & Hy & HI1).
  rewrite (bind_inl _ _ _ _ _ _ Hy). simpl.
  rewrite (bind_inl get _ sw1 sw1 [] sw1 eq_refl). simpl.
  rewrite <- app_assoc in HI1. simpl in HI1.
  destruct (established sw1.1) eqn:Hes; simpl.
  { unfold st_of, tr_of, val_of. simpl. rewrite app_nil_r.
    split; [done|split; [done|auto]]. }
  assert (active sw1.1 = true) as Hact by apply HI1. rewrite Hact. simpl.
  destruct (terminate sw1.1) eqn:Hte; simpl.
  { unfold st_of, tr_of, val_of. simpl. rewrite app_nil_r.
    split; [done|split; [done|auto]]. }
  destruct (i =? 4) eqn:Hi4.
  { unfold st_of, tr_of, val_of, lift, modify. simpl. rewrite app_nil_r.
    split; [apply HI1|split; [done|auto]]. }
  apply Z.eqb_neq in Hi4.
  destruct (IH (i + 1) sw1 _ ltac:(lia) ltac:(lia) HI1) as (HI2 & Hv & Hfl).
  unfold st_of, tr_of, val_of in *. simpl.
  rewrite <- app_assoc in HI2. simpl in HI2. done.
Qed.

(** The executor of the teardown likewise. *)
Lemma fin_exec_ends n i sw tr :
  unreset env -> 1 <= i <= 4 -> (Z.to_nat (5 - i) <= n)%nat ->
  alive sw.1 tr ->
  let r := fin_exec env n i sw in
  alive (st_of r).1 (tr ++ tr_of r) /\ val_of r = inl tt /\
  (finished (st_of r).1 = true \/ terminate (st_of r).1 = true).
Proof.
  intros He. revert i sw tr. induction n as [|n IH]; intros i sw tr Hi Hn HI;
    [lia|]. simpl.
  rewrite (bind_inl get _ sw sw [] sw eq_refl). simpl.
  assert (0 <= FSN sw.1 < 65536) as Hq by apply HI.
  pose proof (attempt_eq 3 (FSN sw.1) sw ltac:(done)) as Ha.
  destruct (pack_2H_Some 3 (FSN sw.1) ltac:(lia) Hq) as [h Hh].
  rewrite Hh in Ha. rewrite (bind_inl _ _ _ _ _ _ Ha). simpl.
  apply (alive_attempt 3 (FSN sw.1)) in HI; [|done|done].
  destruct (yield_returns [snd 3 (FSN sw.1) []; sleep] sw _ He HI)
    as (sw1 & tr1 & Hy & HI1).
  rewrite (bind_inl _ _ _ _ _ _ Hy). simpl.
  rewrite (bind_inl get _ sw1 sw1 [] sw1 eq_refl). simpl.
  rewrite <- app_assoc in HI1. simpl in HI1.
  destruct (finished sw1.1) eqn:Hes; simpl.
  { unfold st_of, tr_of, val_of. simpl. rewrite app_nil_r.
    split; [done|split; [done|auto]]. }
  assert (active sw1.1 = true) as Hact by apply HI1. rewrite Hact. simpl.
  destruct (terminate sw1.1) eqn:Hte; simpl.
  { unfold st_of, tr_of, val_of. simpl. rewrite app_nil_r.
    split; [done|split; [done|auto]]. }
  destruct (i =? 4) eqn:Hi4.
  { unfold st_of, tr_of, val_of, lift, modify. simpl. rewrite app_nil_r.
    split; [apply HI1|split; [done|auto]]. }
  apply Z.eqb_neq in Hi4.
  destruct (IH (i + 1) sw1 _ ltac:(lia) ltac:(lia) HI1) as (HI2 & Hv & Hfl).
  unfold st_of, tr_of, val_of in *. simpl.
  rewrite <- app_assoc in HI2. simpl in HI2. done.
Qed.

Lemma thread_returns {S} (m : M S unit) s :
  val_of (m s) = inl tt -> thread m s = m s.
Proof.
  unfold thread, val_of. destruct (m s) as [[s1 t1] [[]|e]]; simpl; done.
Qed.

Lemma estab_hdlr_gives_up sw :
  unreset env -> alive sw.1 [] ->
  established (st_of (estab_hdlr env sw)).1 = false ->
  given_up (estab_hdlr env sw).
Proof.
  intros He HI. unfold estab_hdlr.
  destruct (estab_exec_ends recursion_limit 1 sw [] He ltac:(lia)
              ltac:(unfold recursion_limit; lia) HI) as (HI1 & Hv & Hfl).
  pose proof (thread_returns _ _ Hv) as Ht.
  set (m := estab_exec env recursion_limit 1) in *. clearbody m.
  unfold st_of, tr_of, val_of in *.
  destruct (m sw) as [[sw1 tr1] r1]. simpl in *. subst r1.
  rewrite (bind_inl _ _ _ _ _ _ Ht).
  rewrite (bind_inl get _ sw1 sw1 [] sw1 eq_refl). simpl.
  destruct (established sw1.1) eqn:Hes.
  { unfold st_of, mret, M_ret. simpl. congruence. }
  intros _. destruct Hfl as [|Hte]; [done|]. rewrite Hte, lift_reset.
  unfold given_up, st_of, tr_of, val_of. simpl. split; [|done].
  exists tr1. split; [done|]. apply HI1.
Qed.

Lemma fin_hdlr_gives_up sw :
  unreset env -> alive sw.1 [] ->
  finished (st_of (fin_hdlr env sw)).1 = false ->
  given_up (fin_hdlr env sw).
Proof.
  intros He HI. unfold fin_hdlr.
  destruct (fin_exec_ends recursion_limit 1 sw [] He ltac:(lia)
              ltac:(unfold recursion_limit; lia) HI) as (HI1 & Hv & Hfl).
  pose proof (thread_returns _ _ Hv) as Ht.
  set (m := fin_exec env recursion_limit 1) in *. clearbody m.
  unfold st_of, tr_of, val_of in *.
  destruct (m sw) as [[sw1 tr1] r1]. simpl in *. subst r1.
  rewrite (bind_inl _ _ _ _ _ _ Ht).
  rewrite (bind_inl get _ sw1 sw1 [] sw1 eq_refl). simpl.
  destruct (finished sw1.1) eqn:Hes.
  { unfold st_of, mret, M_ret. simpl. congruence. }
  intros _. destruct Hfl as [|Hte]; [done|]. rewrite Hte, lift_reset.
  unfold given_up, st_of, tr_of, val_of. simpl. split; [|done].
  exists tr1. split; [done|]. apply HI1.
Qed.

End Attempts.

(** * Further properties of the two peers *)

(** ** Headers on the wire *)

Section Wire.
Context `{Platform}.

Lemma Z_of_byte_of_Z z : 0 <= z < 256 -> Z_of_byte (byte_of_Z z) = z.
Proof.
  intros Hz. unfold Z_of_byte, byte_of_Z.
  destruct (Byte.of_N (Z.to_N z)) as [b|] eqn:Hb.
  - apply Byte.to_of_N in Hb. rewrite Hb. lia.
  - apply Byte.of_N_None_iff in Hb. lia.
Qed.

Lemma unpack_pack_H v a b :
  0 <= v < 65536 -> pack_H v = [a; b] -> unpack_H a b = v.
Proof.
  intros Hv. unfold pack_H, unpack_H.
  destruct native; intros [= <- <-];
    rewrite !Z_of_byte_of_Z
      by (try apply Z.mod_pos_bound; try (split; [apply Z.div_pos|
            apply Z.div_lt_upper_bound]); lia);
    pose proof (Z.div_mod v 256); lia.
Qed.

Lemma pack_H_length v : exists a b, pack_H v = [a; b].
Proof. unfold pack_H. destruct native; eauto. Qed.

Lemma unpack_pack_2H flag seqno h :
  pack_2H flag seqno = Some h -> unpack_2H h = Some (flag, seqno).
Proof.
  unfold pack_2H. destruct (in_H flag && in_H seqno) eqn:Hr; [|done].
  intros [= <-]. apply andb_prop in Hr as [Hf Hq]. unfold in_H in *.
  apply andb_prop in Hf as [Hf1 Hf2], Hq as [Hq1 Hq2].
  apply Z.leb_le in Hf1, Hq1. apply Z.ltb_lt in Hf2, Hq2.
  destruct (pack_H_length flag) as (a & b & Ha).
  destruct (pack_H_length seqno) as (c & d & Hc).
  rewrite Ha, Hc. simpl. f_equal. f_equal; by apply unpack_pack_H.
Qed.

End Wire.

(** X1: what either peer puts on the wire for a segment, the header that
    [struct.pack('2H', flag, seqno)] gives followed by the payload, is read
    back by the listener of the other peer as the same flag and sequence
    number ([struct.unpack('2H', m[0:4])]) and the same payload ([m[4:]]),
    whatever the byte order of the host. *)
Theorem header_round_trip `{Platform} (flag seqno : Z) (payload m : list byte) :
  datagram (snd flag seqno payload) = Some m ->
  unpack_2H (take 4 m) = Some (flag, seqno) /\ drop 4 m = payload.
Proof.
  unfold datagram. destruct (pack_2H flag seqno) as [h|] eqn:Hh; [|done].
  intros [= <-]. pose proof (unpack_pack_2H _ _ _ Hh) as Hu.
  assert (length h = 4%nat) as Hl.
  { unfold unpack_2H in Hu. by repeat (destruct h as [|? h]; try done). }
  rewrite take_app_length', drop_app_length' by done. done.
Qed.

Lemma header_round_trip_witness :
  @unpack_2H little (take 4 [x00; x00; xe8; x03; x61]) = Some (0, 1000) /\
  drop 4 [x00; x00; xe8; x03; x61] = [x61].
Proof.
  apply (@header_round_trip little 0 1000 [x61] [x00; x00; xe8; x03; x61]).
  reflexivity.
Defined.

(** ** Positions and sequence numbers *)

(** A multiple of 2^16 that is not 0, up to fourteen turns, is no multiple
    of 1000. *)
Lemma turn_not_mss x d : 1 <= d <= 14 -> (1000 * x - 65536 * d) mod 1000 <> 0.
Proof.
  intros Hd Hm. apply Z.mod_divide in Hm; [|lia]. destruct Hm as [c Hc]. lia.
Qed.

Section ReceiverPositions.

Import Receiver.

(** The search stops at the first turn [j] that gives a multiple of 1000. *)
Lemma find_pos_hit n i q dsn j :
  i <= j < i + Z.of_nat n ->
  (forall i', i <= i' < j -> (q + 65536 * i' - dsn) mod 1000 <> 0) ->
  (q + 65536 * j - dsn) mod 1000 = 0 ->
  find_pos n i q dsn = Z.quot (q + 65536 * j - dsn) 1000.
Proof.
  revert i. induction n as [|n IH]; intros i Hj Hmiss Hhit; [lia|].
  unfold find_pos; fold find_pos.
  destruct (Z.eqb_spec ((q + 65536 * i - dsn) mod 1000) 0) as [Hz|Hz].
  - destruct (decide (i = j)) as [->|Hne]; [done|].
    by destruct (Hmiss i ltac:(lia)).
  - destruct (decide (i = j)) as [->|Hne]; [done|].
    apply IH; [lia| |done]. intros i' Hi'. apply Hmiss. lia.
Qed.

End ReceiverPositions.

(** The position of a segment from its sequence number. *)
Lemma find_pos_inverts (dsn pos : Z) :
  0 <= dsn -> 0 <= pos -> dsn + 1000 * pos < 983040 ->
  Receiver.find_pos 15 0 ((dsn + 1000 * pos) mod 2 ^ 16) dsn = pos.
Proof.
  intros Hd Hp Hlt.
  pose proof (Z.div_mod (dsn + 1000 * pos) (2 ^ 16) ltac:(lia)) as Hdm.
  pose proof (Z.mod_pos_bound (dsn + 1000 * pos) (2 ^ 16) ltac:(lia)) as Hb.
  set (k := (dsn + 1000 * pos) / 2 ^ 16) in *.
  set (q := (dsn + 1000 * pos) mod 2 ^ 16) in *.
  change (2 ^ 16) with 65536 in *.
  assert (0 <= k <= 14) as Hk by lia.
  rewrite (find_pos_hit 15 0 q dsn k); try lia.
  - replace (q + 65536 * k - dsn) with (pos * 1000) by lia.
    by rewrite Z.quot_mul.
  - intros i' Hi'.
    replace (q + 65536 * i' - dsn) with (1000 * pos - 65536 * (k - i')) by lia.
    apply turn_not_mss. lia.
  - replace (q + 65536 * k - dsn) with (pos * 1000) by lia.
    by rewrite Z.mod_mul.
Qed.

(** X2: the receiver finds the position of a data segment back from its
    sequence number: for the sequence number [(DSN + 1000 * pos) mod 2^16]
    that the sender gives to position [pos], the search of [fw_listener]
    returns [pos], as long as [DSN + 1000 * pos] stays below fifteen turns
    of the sequence space (983040). *)
Theorem receiver_finds_position (dsn pos : Z) :
  0 <= dsn -> 0 <= pos -> dsn + 1000 * pos < 983040 ->
  Receiver.find_pos 15 0 ((dsn + 1000 * pos) mod 2 ^ 16) dsn = pos.
Proof. apply find_pos_inverts. Qed.

Lemma receiver_finds_position_witness :
  Receiver.find_pos 15 0 ((65000 + 1000 * 900) mod 2 ^ 16) 65000 = 900.
Proof. apply (receiver_finds_position 65000 900); lia. Defined.

Section SenderPositions.

Import Sender.

(** The search of the sender stops at the first turn that gives a multiple
    of 1000 or the size of the file. *)
Lemma sender_find_pos_hit n i q s j :
  i <= j < i + Z.of_nat n ->
  (forall i', i <= i' < j ->
     (q + 65536 * i' - DSN s) mod 1000 <> 0 /\
     q + 65536 * i' - DSN s <> data_size s) ->
  find_pos n i q s =
    if (q + 65536 * j - DSN s) mod 1000 =? 0
    then Z.quot (q + 65536 * j - DSN s) 1000
    else if q + 65536 * j - DSN s =? data_size s then buffer_size s
    else find_pos (n - Z.to_nat (j - i) - 1) (j + 1) q s.
Proof.
  revert i. induction n as [|n IH]; intros i Hj Hmiss; [lia|].
  destruct (decide (i = j)) as [->|Hne].
  - unfold find_pos; fold find_pos.
    replace (S n - Z.to_nat (j - j) - 1)%nat with n by lia. done.
  - unfold find_pos at 1; fold find_pos.
    destruct (Hmiss i ltac:(lia)) as [Hm Hs].
    apply Z.eqb_neq in Hm, Hs. rewrite Hm, Hs.
    rewrite (IH (i + 1)); [|lia|intros i' Hi'; apply Hmiss; lia].
    by replace (n - Z.to_nat (j - (i + 1)) - 1)%nat
      with (S n - Z.to_nat (j - i) - 1)%nat by lia.
Qed.

End SenderPositions.

(** X3: the sender finds the position the receiver asks for back from a
    cumulative acknowledgement of whole segments: once [read_file] has set
    [buffer_size] to the number of partitions of [data_size] bytes, the
    search of [rv_listener] on [(DSN + 1000 * pos) mod 2^16] returns [pos],
    for every position up to [buffer_size] with [DSN + 1000 * pos] below
    fifteen turns of the sequence space. *)
Theorem sender_finds_position (s : Sender.state) (pos : Z) :
  0 <= Sender.DSN s -> 0 <= Sender.data_size s ->
  Sender.buffer_size s = partitions (Sender.data_size s) ->
  0 <= pos <= Sender.buffer_size s ->
  Sender.DSN s + 1000 * pos < 983040 ->
  Sender.find_pos 15 0 ((Sender.DSN s + 1000 * pos) mod 2 ^ 16) s = pos.
Proof.
  intros Hd Hsz Hn Hp Hlt.
  assert (1000 * Sender.buffer_size s < Sender.data_size s + 1000) as Hceil.
  { rewrite Hn. unfold partitions. rewrite Z.quot_div_nonneg by lia.
    pose proof (Z.div_mod (Sender.data_size s) 1000 ltac:(lia)).
    pose proof (Z.mod_pos_bound (Sender.data_size s) 1000 ltac:(lia)).
    destruct (Z.eqb_spec (Sender.data_size s mod 1000) 0); lia. }
  pose proof (Z.div_mod (Sender.DSN s + 1000 * pos) (2 ^ 16) ltac:(lia)) as Hdm.
  pose proof (Z.mod_pos_bound (Sender.DSN s + 1000 * pos) (2 ^ 16) ltac:(lia)) as Hb.
  set (k := (Sender.DSN s + 1000 * pos) / 2 ^ 16) in *.
  set (q := (Sender.DSN s + 1000 * pos) mod 2 ^ 16) in *.
  change (2 ^ 16) with 65536 in *.
  assert (0 <= k <= 14) as Hk by lia.
  rewrite (sender_find_pos_hit 15 0 q s k); try lia.
  - replace (q + 65536 * k - Sender.DSN s) with (pos * 1000) by lia.
    by rewrite Z.mod_mul, Z.quot_mul.
  - intros i' Hi'.
    replace (q + 65536 * i' - Sender.DSN s)
      with (1000 * pos - 65536 * (k - i')) by lia.
    split; [apply turn_not_mss|]; lia.
Qed.

Lemma sender_finds_position_witness :
  let s := st_of (Sender.read_file (replicate 1500 x61)
             (st_of (@Sender.rv_listener_iter little [x01; x00; xe9; xfd]
                       (Sender.init 3000 65000)))) in
  Sender.find_pos 15 0 ((Sender.DSN s + 1000 * 1) mod 2 ^ 16) s = 1.
Proof.
  intros s.
  assert (Sender.DSN s = 65001 /\ Sender.data_size s = 1500 /\
          Sender.buffer_size s = 2) as (HD & HS & HN) by (vm_compute; done).
  apply (sender_finds_position s 1); rewrite ?HD, ?HS, ?HN; done.
Defined.

(** X4: the acknowledgement of the whole file, [(DSN + data_size) mod 2^16],
    is found to ask for position [buffer_size], the end of the data, when no
    earlier turn of the sequence space makes [data_size - 65536 * d] a
    multiple of 1000; in particular whenever [DSN + data_size < 2^16]. *)
Theorem sender_finds_end (s : Sender.state) :
  0 <= Sender.DSN s -> 0 <= Sender.data_size s ->
  Sender.buffer_size s = partitions (Sender.data_size s) ->
  Sender.DSN s + Sender.data_size s < 983040 ->
  (forall d, 1 <= d <= (Sender.DSN s + Sender.data_size s) / 65536 ->
     (Sender.data_size s - 65536 * d) mod 1000 <> 0) ->
  Sender.find_pos 15 0 ((Sender.DSN s + Sender.data_size s) mod 2 ^ 16) s =
    Sender.buffer_size s.
Proof.
  intros Hd Hsz Hn Hlt Hturn.
  pose proof (Z.div_mod (Sender.DSN s + Sender.data_size s) (2 ^ 16) ltac:(lia))
    as Hdm.
  pose proof (Z.mod_pos_bound (Sender.DSN s + Sender.data_size s) (2 ^ 16)
                ltac:(lia)) as Hb.
  change (2 ^ 16) with 65536 in *.
  set (k := (Sender.DSN s + Sender.data_size s) / 65536) in *.
  set (q := (Sender.DSN s + Sender.data_size s) mod 65536) in *.
  assert (0 <= k <= 14) as Hk by lia.
  rewrite (sender_find_pos_hit 15 0 q s k); try lia.
  - replace (q + 65536 * k - Sender.DSN s) with (Sender.data_size s) by lia.
    rewrite Z.eqb_refl, Hn. unfold partitions.
    destruct (Sender.data_size s mod 1000 =? 0); [lia|done].
  - intros i' Hi'.
    replace (q + 65536 * i' - Sender.DSN s)
      with (Sender.data_size s - 65536 * (k - i')) by lia.
    split; [apply Hturn|]; lia.
Qed.

Lemma sender_finds_end_witness :
  let s := st_of (Sender.read_file (replicate 1500 x61)
             (st_of (@Sender.rv_listener_iter little [x01; x00; xe9; xfd]
                       (Sender.init 3000 65000)))) in
  Sender.find_pos 15 0 ((Sender.DSN s + Sender.data_size s) mod 2 ^ 16) s =
    Sender.buffer_size s.
Proof.
  intros s.
  assert (Sender.DSN s = 65001 /\ Sender.data_size s = 1500 /\
          Sender.buffer_size s = 2) as (HD & HS & HN) by (vm_compute; done).
  apply (sender_finds_end s); rewrite ?HD, ?HS, ?HN; try done.
  intros d Hd. change ((65001 + 1500) / 65536) with 1 in Hd.
  replace d with 1 by lia. done.
Defined.

(** ** The receiver *)

(** ** Text files *)

Section Text.

Lemma newline_byte c : Z_of_byte c = 10 -> c = x0a.
Proof. destruct c; vm_compute; congruence. Qed.

Lemma between_spec lo hi b :
  between lo hi b = true <-> lo <= Z_of_byte b <= hi.
Proof. unfold between. rewrite andb_true_iff, !Z.leb_le. done. Qed.

Lemma universal_newlines_high b r :
  128 <= Z_of_byte b ->
  universal_newlines (b :: r) = b :: universal_newlines r.
Proof.
  intros Hb. cbn [universal_newlines].
  destruct (Z.eqb_spec (Z_of_byte b) 13); [lia|done].
Qed.

Lemma utf8_valid_ascii a r :
  Z_of_byte a <= 127 -> utf8_valid (a :: r) = utf8_valid r.
Proof.
  intros Ha. cbn [utf8_valid].
  assert (between 0 127 a = true) as ->; [|done].
  apply between_spec. unfold Z_of_byte in *. lia.
Qed.

Lemma utf8_valid_newlines_le n : forall l,
  (length l <= n)%nat ->
  utf8_valid l = true -> utf8_valid (universal_newlines l) = true.
Proof.
  induction n as [|n IH]; intros l Hn Hv.
  { destruct l; [done|simpl in Hn; lia]. }
  destruct l as [|a r]; [done|]. simpl in Hn.
  destruct (between 0 127 a) eqn:Ha.
  - apply between_spec in Ha. rewrite utf8_valid_ascii in Hv by lia.
    cbn [universal_newlines].
    destruct (Z.eqb_spec (Z_of_byte a) 13) as [Hcr|Hcr].
    + rewrite utf8_valid_ascii by (vm_compute; discriminate).
      destruct r as [|b r1]; [done|].
      destruct (Z.eqb_spec (Z_of_byte b) 10) as [Hlf|Hlf].
      * rewrite utf8_valid_ascii in Hv by lia. apply IH; [simpl in Hn; lia|done].
      * apply IH; [lia|done].
    + rewrite utf8_valid_ascii by lia. apply IH; [lia|done].
  - assert (128 <= Z_of_byte a) as Hhi.
    { destruct (Z.leb_spec (Z_of_byte a) 127) as [Hle|]; [|lia].
      assert (between 0 127 a = true); [|congruence].
      apply between_spec. unfold Z_of_byte in *. lia. }
    rewrite universal_newlines_high by done.
    cbn [utf8_valid] in Hv |- *. rewrite Ha in Hv |- *.
    destruct (between 194 223 a).
    { destruct r as [|b r1]; [done|].
      apply andb_true_iff in Hv as [Hb Hv].
      rewrite universal_newlines_high by (apply between_spec in Hb; lia).
      rewrite Hb. simpl. apply IH; [simpl in Hn; lia|done]. }
    destruct (between 224 239 a).
    { destruct r as [|b [|c r2]]; [done|done|].
      apply andb_true_iff in Hv as [Hv Hr]. apply andb_true_iff in Hv as [Hb Hc].
      rewrite universal_newlines_high
        by (apply between_spec in Hb; destruct (Z_of_byte a =? 224); lia).
      rewrite universal_newlines_high by (apply between_spec in Hc; lia).
      rewrite Hb, Hc. simpl. apply IH; [simpl in Hn; lia|done]. }
    destruct (between 240 244 a); [|done].
    destruct r as [|b [|c [|d r3]]]; [done|done|done|].
    apply andb_true_iff in Hv as [Hv Hr]. apply andb_true_iff in Hv as [Hv Hd].
    apply andb_true_iff in Hv as [Hb Hc].
    rewrite universal_newlines_high
      by (apply between_spec in Hb; destruct (Z_of_byte a =? 240); lia).
    rewrite universal_newlines_high by (apply between_spec in Hc; lia).
    rewrite universal_newlines_high by (apply between_spec in Hd; lia).
    rewrite Hb, Hc, Hd. simpl. apply IH; [simpl in Hn; lia|done].
Qed.

Lemma utf8_valid_newlines l :
  utf8_valid l = true -> utf8_valid (universal_newlines l) = true.
Proof. by apply (utf8_valid_newlines_le (length l)). Qed.

Lemma universal_newlines_id l :
  Forall (fun c => Z_of_byte c <> 13) l -> universal_newlines l = l.
Proof.
  induction 1 as [|a r Ha _ IH]; [done|].
  cbn [universal_newlines]. destruct (Z.eqb_spec (Z_of_byte a) 13); [done|].
  by rewrite IH.
Qed.

Lemma write_newlines_id `{Platform} text :
  linesep = [x0a] -> write_newlines text = text.
Proof.
  intros Hl. unfold write_newlines. rewrite Hl.
  induction text as [|c text IH]; [done|].
  cbn [mbind list_bind]. simpl.
  destruct (Z.eqb_spec (Z_of_byte c) 10) as [Hc|Hc]; simpl.
  - pose proof (newline_byte c Hc) as ->. f_equal. exact IH.
  - f_equal. exact IH.
Qed.

Lemma write_file_invalid `{Platform} p :
  utf8_valid p = false -> Receiver.write_file p = ([], Some UnicodeDecodeError).
Proof. intros Hp. unfold Receiver.write_file, decode_utf8. by rewrite Hp. Qed.

Lemma write_file_utf8 `{Platform} p :
  utf8_lf -> utf8_valid p = true -> Receiver.write_file p = (p, None).
Proof.
  intros (_ & He & Hl) Hp. unfold Receiver.write_file, decode_utf8.
  by rewrite Hp, (write_newlines_id p Hl), He.
Qed.

Lemma little_utf8_lf : @utf8_lf little.
Proof. by repeat split. Qed.

End Text.

(** X5: when the receiver has stopped and its buffer holds no position
    below 0, [run] composes [buffer[0] ++ ... ++ buffer[k-1]] for the
    longest contiguous prefix [0, k) of buffered positions, what lies behind
    the first gap left out, and hands these bytes to [decode('utf-8')] and
    to the file opened in text mode.  Where they are not well-formed UTF-8,
    [run] ends with [UnicodeDecodeError] and the file stays empty; where
    they are, and the locale of the host encodes text as UTF-8 with the line
    separator ['\n'], the file holds exactly these bytes. *)
Theorem output_is_contiguous_prefix `{Platform} (s : Receiver.state) (k : Z) :
  Receiver.active s = false ->
  (forall i, is_Some (Receiver.buffer s !! i) -> 0 <= i) ->
  contiguous_prefix (Receiver.buffer s) k ->
  let p := prefix_bytes (Receiver.buffer s) k in
  Receiver.run s = Some (Receiver.write_file p).1 /\
  (utf8_valid p = false ->
   Receiver.write_file p = ([], Some UnicodeDecodeError)) /\
  (utf8_valid p = true -> utf8_lf -> Receiver.write_file p = (p, None)).
Proof.
  intros Ha Hnn Hk p. split; [by apply run_writes_prefix|]. split.
  - apply write_file_invalid.
  - intros Hp Hh. by apply write_file_utf8.
Qed.

Lemma output_is_contiguous_prefix_witness :
  let s := st_of (@Receiver.fw_listener little
             [([x02; x00; xcf; x07], 0, 0);
              ([x00; x00; xd0; x07; x62], 0, 0);
              ([x00; x00; xa0; x0f; x64], 0, 0);
              ([x04; x00; x00; x00], 0, 0)] (Receiver.init 0 0)) in
  let p := prefix_bytes (Receiver.buffer s) 1 in
  @Receiver.run little s = Some (@Receiver.write_file little p).1 /\
  (utf8_valid p = false ->
   @Receiver.write_file little p = ([], Some UnicodeDecodeError)) /\
  (utf8_valid p = true -> @utf8_lf little ->
   @Receiver.write_file little p = (p, None)).
Proof.
  intros s.
  assert (Receiver.buffer s = <[2 := [x64]]> (<[0 := [x62]]> ∅)) as Hbuf
    by (vm_compute; reflexivity).
  apply (@output_is_contiguous_prefix little s 1).
  - reflexivity.
  - rewrite Hbuf. intros i [b Hb].
    apply lookup_insert_Some in Hb as [[<- _]|[_ Hb]]; [lia|].
    apply lookup_insert_Some in Hb as [[<- _]|[_ Hb]]; [lia|].
    by rewrite lookup_empty in Hb.
  - rewrite Hbuf. split; [lia|]. split; [|done].
    intros i Hi. replace i with 0 by lia. by eexists.
Defined.

Section ReceiverReplies.
Context `{Platform}.

Import Receiver.

Lemma replies_fw_listener_iter m rf rr :
  safe (fun _ tr => Forall reply tr) any_exn (fw_listener_iter m rf rr).
Proof.
  intros s tr Htr. split; [|done]. apply Forall_app. split; [done|]. clear.
  unfold fw_listener_iter, on_data, reset, send_msg. mrun.
  case_code; simpl; repeat (apply Forall_cons; split); try apply Forall_nil;
    simpl; auto.
Qed.

Lemma replies_fw_listener arrivals :
  safe (fun _ tr => Forall reply tr) any_exn (fw_listener arrivals).
Proof.
  induction arrivals as [|[[m rf] rr] rest IH]; simpl; [apply safe_ret|].
  apply safe_get_bind. intros s0 tr0 _.
  destruct (negb (active s0)); [apply safe_ret|].
  apply safe_bind; [apply replies_fw_listener_iter|].
  intros [|]; [apply IH|apply safe_ret].
Qed.

End ReceiverReplies.

(** X6: whatever arrives and whatever is lost, the receiver sends nothing
    but ACK and RESET segments, and none of them carries a payload. *)
Theorem receiver_sends_replies_only `{Platform}
    (arrivals : list (list byte * Z * Z)) (s : Receiver.state) :
  Forall reply (tr_of (Receiver.fw_listener arrivals s)).
Proof.
  by destruct (replies_fw_listener arrivals s [] ltac:(constructor)) as [Htr _].
Qed.

Section ReceiverResets.
Context `{Platform}.

Import Receiver.

Lemma iter_resets m rf rr s :
  let r := fw_listener_iter m rf rr s in
  (count (is_snd 4) (tr_of r) <= 1)%nat /\
  (val_of r = inl Continue -> count (is_snd 4) (tr_of r) = O) /\
  (count (is_snd 4) (tr_of r) = 1%nat ->
   active (st_of r) = false /\ last (tr_of r) = Some (snd 4 0 []) /\
   val_of r = inl Break).
Proof.
  unfold fw_listener_iter, on_data, reset, send_msg. mrun.
  case_code; unfold count; simpl; repeat split; try done; try lia.
Qed.

Lemma listener_resets arrivals s :
  let r := fw_listener arrivals s in
  (count (is_snd 4) (tr_of r) <= 1)%nat /\
  (count (is_snd 4) (tr_of r) = 1%nat ->
   active (st_of r) = false /\ last (tr_of r) = Some (snd 4 0 [])).
Proof.
  revert s. induction arrivals as [|[[m rf] rr] rest IH]; intros s; simpl.
  { unfold count. simpl. split; [lia|done]. }
  rewrite (bind_inl get _ s s [] s eq_refl). simpl.
  destruct (negb (active s)); [unfold count; simpl; split; [lia|done]|].
  destruct (iter_resets m rf rr s) as (Hle & Hcont & Hone).
  unfold st_of, tr_of, val_of in *.
  destruct (fw_listener_iter m rf rr s) as [[s1 t1] [[|]|e]] eqn:Hi; simpl in *.
  - rewrite (bind_inl _ _ _ _ _ _ Hi). unfold st_of, tr_of, val_of. simpl.
    destruct (IH s1) as [IHle IHone]. unfold st_of, tr_of in *.
    rewrite count_app, (Hcont eq_refl). simpl. split; [done|].
    intros Hc. destruct (IHone Hc) as [Ha Hl]. split; [done|].
    destruct (fw_listener rest s1) as [[s2 t2] r2]. simpl in *.
    destruct t2 as [|e t2] using rev_ind; [done|].
    by rewrite app_assoc, last_snoc in *.
  - rewrite (bind_inl _ _ _ _ _ _ Hi). unfold st_of, tr_of, val_of. simpl.
    rewrite app_nil_r. split; [done|]. intros Hc. by destruct (Hone Hc) as (? & ? & _).
  - rewrite (bind_inr _ _ _ _ _ _ Hi). simpl. split; [done|].
    intros Hc. by destruct (Hone Hc) as (_ & _ & ?).
Qed.

Lemma closer_fw_listener_iter m rf rr :
  safe (fun s tr => 0 <= n_fin s /\
                    count is_closer tr = if n_fin s =? 0 then O else 1%nat)
       any_exn (fw_listener_iter m rf rr).
Proof.
  intros s tr (Hn & Hc). split; [|done].
  unfold fw_listener_iter, on_data, reset, send_msg. mrun.
  case_code; simpl; rewrite ?count_app, Hc; unfold count; simpl;
    rewrite ?Nat.add_0_r; try done.
  all: repeat match goal with
         | Hb : (_ =? _) = true |- _ => apply Z.eqb_eq in Hb
         | Hb : (_ =? _) = false |- _ => apply Z.eqb_neq in Hb
         end.
  all: split; [lia|].
  all: try match goal with
           | Hp : pack_2H 1 (?x mod 2 ^ 16) = None |- _ =>
               destruct (pack_2H_Some 1 (x mod 2 ^ 16)) as [? ?];
               [lia|apply Z.mod_pos_bound; lia|congruence]
           end.
  all: destruct (Z.eqb_spec (n_fin s) 0), (Z.eqb_spec (n_fin s + 1) 0); lia.
Qed.

Lemma closer_fw_listener arrivals :
  safe (fun s tr => 0 <= n_fin s /\
                    count is_closer tr = if n_fin s =? 0 then O else 1%nat)
       any_exn (fw_listener arrivals).
Proof.
  induction arrivals as [|[[m rf] rr] rest IH]; simpl; [apply safe_ret|].
  apply safe_get_bind. intros s0 tr0 _.
  destruct (negb (active s0)); [apply safe_ret|].
  apply safe_bind; [apply closer_fw_listener_iter|].
  intros [|]; [apply IH|apply safe_ret].
Qed.

End ReceiverResets.

(** X7: the receiver sends at most one RESET, whatever arrives; when it has
    sent one, with sequence number 0, that is the last thing its listener
    does, and the receiver is no longer active. *)
Theorem receiver_resets_once `{Platform}
    (arrivals : list (list byte * Z * Z)) (s : Receiver.state) :
  let r := Receiver.fw_listener arrivals s in
  (count (is_snd 4) (tr_of r) <= 1)%nat /\
  (count (is_snd 4) (tr_of r) = 1%nat ->
   Receiver.active (st_of r) = false /\ last (tr_of r) = Some (snd 4 0 [])).
Proof. apply listener_resets. Qed.

(** X8: the receiver starts its close timer, the thread [timed_close],
    exactly once if its listener has accepted a FIN, however many FIN
    segments arrive, and not at all otherwise. *)
Theorem close_timer_started_once `{Platform}
    (arrivals : list (list byte * Z * Z)) (flp rlp : Z) :
  let r := Receiver.fw_listener arrivals (Receiver.init flp rlp) in
  count is_closer (tr_of r) =
    if Receiver.n_fin (st_of r) =? 0 then O else 1%nat.
Proof.
  intros r.
  destruct (closer_fw_listener arrivals (Receiver.init flp rlp) []) as [[_ Hc] _];
    [by split|exact Hc].
Qed.

Section ReceiverBuffer.
Context `{Platform}.

Import Receiver.

Lemma buffered_bytes_insert buf k b :
  buf !! k = None -> buffered_bytes (<[k := b]> buf) = buffered_bytes buf + len b.
Proof.
  intros Hk. unfold buffered_bytes.
  rewrite map_fold_insert_L; [done| |done]. intros. lia.
Qed.

Lemma iter_lendata m rf rr s :
  lendata s = buffered_bytes (buffer s) ->
  lendata (st_of (fw_listener_iter m rf rr s)) =
    buffered_bytes (buffer (st_of (fw_listener_iter m rf rr s))).
Proof.
  intros Hl. unfold fw_listener_iter, on_data, reset, send_msg. mrun.
  case_code; simpl; try done; by rewrite buffered_bytes_insert, Hl.
Qed.

Lemma iter_keeps m rf rr s pos b :
  buffer s !! pos = Some b ->
  buffer (st_of (fw_listener_iter m rf rr s)) !! pos = Some b.
Proof.
  intros Hb. unfold fw_listener_iter, on_data, reset, send_msg. mrun.
  case_code; simpl; try done.
  all: rewrite lookup_insert_ne; [done|congruence].
Qed.

Lemma listener_keeps arrivals s pos b :
  buffer s !! pos = Some b ->
  buffer (st_of (fw_listener arrivals s)) !! pos = Some b.
Proof.
  revert s. induction arrivals as [|[[m rf] rr] rest IH]; intros s Hb; [done|].
  simpl. rewrite (bind_inl get _ s s [] s eq_refl). simpl.
  destruct (negb (active s)); [done|].
  pose proof (iter_keeps m rf rr s pos b Hb) as Hk. unfold st_of in *.
  destruct (fw_listener_iter m rf rr s) as [[s1 t1] [[|]|e]] eqn:Hi; simpl in *.
  - rewrite (bind_inl _ _ _ _ _ _ Hi). simpl. by apply IH.
  - by rewrite (bind_inl _ _ _ _ _ _ Hi).
  - by rewrite (bind_inr _ _ _ _ _ _ Hi).
Qed.

Lemma iter_unexpected m rf rr s t q :
  unpack_2H (take 4 m) = Some (t, q) ->
  (rf <? flp s) = false -> unexpected s t ->
  fw_listener_iter m rf rr s = (set_active false s, [snd 4 0 []], inl Break).
Proof.
  intros Hu Hrf [Ht Hun]. unfold fw_listener_iter. rewrite Hu.
  unfold on_data, reset, send_msg. mrun. rewrite Hrf, andb_false_r.
  apply Z.eqb_neq in Ht. rewrite Ht. simpl.
  destruct (established s); simpl.
  - destruct Hun as [[H0 H3]|[-> Hn]].
    + apply Z.eqb_neq in H0, H3. by rewrite H0, H3.
    + simpl. apply Z.eqb_neq in Hn. by rewrite Hn.
  - apply Z.eqb_neq in Hun. by rewrite Hun.
Qed.

End ReceiverBuffer.

(** X9: the statistic "Data Received" is right: in every state the listener
    and the close timer can bring about, [lendata] is the number of bytes of
    all the payloads in the reassembly buffer; a duplicate of a buffered
    segment adds nothing to it. *)
Theorem lendata_counts_buffered_bytes `{Platform} (s : Receiver.state) :
  reachable s ->
  Receiver.lendata s = buffered_bytes (Receiver.buffer s).
Proof.
  induction 1 as [flp rlp|s m rf rr _ IH|s _ IH]; [done| |done].
  by apply iter_lendata.
Qed.

Lemma lendata_counts_buffered_bytes_witness :
  let s := st_of (@Receiver.fw_listener_iter little [x00; x00; xd0; x07; x62] 0 0
             (st_of (@Receiver.fw_listener_iter little [x02; x00; xcf; x07] 0 0
                       (Receiver.init 0 0)))) in
  Receiver.lendata s = buffered_bytes (Receiver.buffer s).
Proof.
  intros s. apply (@lendata_counts_buffered_bytes little s).
  apply reach_iter, reach_iter, reach_init.
Defined.

(** X10: the receiver keeps the first payload it buffers for a position:
    whatever arrives afterwards, a duplicate with other bytes included, the
    buffer holds the same payload at that position. *)
Theorem first_payload_is_kept `{Platform}
    (arrivals : list (list byte * Z * Z)) (s : Receiver.state)
    (pos : Z) (b : list byte) :
  Receiver.buffer s !! pos = Some b ->
  Receiver.buffer (st_of (Receiver.fw_listener arrivals s)) !! pos = Some b.
Proof. apply listener_keeps. Qed.

Lemma first_payload_is_kept_witness :
  let s := st_of (@Receiver.fw_listener little
             [([x02; x00; xcf; x07], 0, 0); ([x00; x00; xd0; x07; x62], 0, 0)]
             (Receiver.init 0 0)) in
  Receiver.buffer
    (st_of (@Receiver.fw_listener little [([x00; x00; xd0; x07; x63], 0, 0)] s))
    !! 0 = Some [x62].
Proof.
  intros s.
  apply (@first_payload_is_kept little [([x00; x00; xd0; x07; x63], 0, 0)] s 0 [x62]).
  reflexivity.
Defined.

(** X11: a segment the receiver does not expect in its phase (anything but
    a SYN before the connection is established; afterwards anything but
    DATA and FIN, and DATA once a FIN has been accepted) makes it send one
    RESET with sequence number 0, which the simulated loss never drops,
    stop being active and leave its listener; nothing else changes. *)
Theorem unexpected_segment_resets `{Platform}
    (m : list byte) (rf rr : Z) (s : Receiver.state) (t q : Z) :
  unpack_2H (take 4 m) = Some (t, q) ->
  (rf <? Receiver.flp s) = false ->
  unexpected s t ->
  Receiver.fw_listener_iter m rf rr s =
    (Receiver.set_active false s, [snd 4 0 []], inl Break).
Proof. apply iter_unexpected. Qed.

Lemma unexpected_segment_resets_witness :
  @Receiver.fw_listener_iter little [x00; x00; xd0; x07; x62] 0 99
    (Receiver.init 0 100) =
  (Receiver.set_active false (Receiver.init 0 100), [snd 4 0 []], inl Break).
Proof.
  apply (@unexpected_segment_resets little [x00; x00; xd0; x07; x62] 0 99
           (Receiver.init 0 100) 0 2000).
  - reflexivity.
  - reflexivity.
  - split; [lia|]. simpl. lia.
Defined.

(** ** The sender: handshake and teardown *)

Section ControlDatagrams.
Context `{Platform} {W : Type} (env : W -> list event -> W * list input).
Variable f : Z.
Hypothesis Hf : f <> 0.

Import Sender.

#[local] Abbreviation kept c :=
  (fun s tr => sent_times f c s tr /\ lb_nonneg s tr).

Lemma sent_event c (s : state) tr e :
  is_snd f e = false -> sent_times f c s tr -> sent_times f c s (tr ++ [e]).
Proof.
  unfold sent_times. intros He Hc. by rewrite count_app, count_one, He, Hc, Nat.add_0_r.
Qed.

Lemma sent_send_msg c flag q i :
  flag <> f -> safe (sent_times f c) any_exn (send_msg flag q i).
Proof.
  intros Hne. unfold send_msg, index.
  repeat safe_step; try done; intros; apply sent_event; try done;
    simpl; by apply Z.eqb_neq.
Qed.

Lemma sent_transeg_body c lb i : safe (sent_times f c) any_exn (transeg_body lb i).
Proof.
  unfold transeg_body.
  repeat (first [ safe_step | apply sent_send_msg | unfold index, setitem ]);
    try done; try lia; intros; by apply sent_event.
Qed.

Lemma sent_close c : safe (sent_times f c) any_exn close.
Proof. unfold close. repeat safe_step; done. Qed.

Lemma sent_reset c : f <> 4 -> safe (sent_times f c) any_exn reset.
Proof.
  intros H4. unfold reset. apply safe_bind; [apply sent_send_msg; lia|].
  intros _. apply sent_close.
Qed.

Lemma sent_read_file c data : safe (sent_times f c) any_exn (read_file data).
Proof. unfold read_file. repeat safe_step; done. Qed.

Lemma kept_react c x : safe (kept c) any_exn (react x).
Proof. eapply safe_conj; [by apply sent_react|apply lb_react]. Qed.

Lemma kept_reset c : f <> 4 -> safe (kept c) any_exn reset.
Proof. intros. eapply safe_conj; [by apply sent_reset|apply lb_reset]. Qed.

Lemma kept_close c : safe (kept c) any_exn close.
Proof. eapply safe_conj; [by apply sent_close|apply lb_close]. Qed.

Lemma kept_event c (s : state) tr e :
  is_snd f e = false -> kept c s tr -> kept c s (tr ++ [e]).
Proof. intros He [? ?]. split; [by apply sent_event|done]. Qed.

Lemma kept_estab_hdlr c :
  f <> 2 -> f <> 4 -> safe (whatever (W:=W) (kept c)) any_exn (estab_hdlr env).
Proof.
  intros H2 H4. apply safe_estab_hdlr; try done.
  - apply kept_react.
  - intros. by apply kept_event.
  - intros. by apply kept_event.
  - by apply kept_reset.
  - apply kept_close.
  - intros. eapply safe_conj; [apply sent_send_msg; lia|apply lb_send_msg].
Qed.

Lemma kept_fin_hdlr c :
  f <> 3 -> f <> 4 -> safe (whatever (W:=W) (kept c)) any_exn (fin_hdlr env).
Proof.
  intros H3 H4. apply safe_fin_hdlr; try done.
  - apply kept_react.
  - intros. by apply kept_event.
  - intros. by apply kept_event.
  - by apply kept_reset.
  - apply kept_close.
  - intros. eapply safe_conj; [apply sent_send_msg; lia|apply lb_send_msg].
Qed.

Lemma kept_transeg_exec_hdlr c n :
  f <> 4 -> safe (whatever (W:=W) (kept c)) any_exn (transeg_exec_hdlr env n).
Proof.
  intros H4. apply safe_transeg_exec_hdlr; try done.
  - apply kept_react.
  - by apply kept_reset.
  - apply kept_close.
  - by intros s tr [_ ?].
  - intros lb i _. eapply safe_conj; [apply sent_transeg_body|apply lb_transeg_body].
Qed.

Lemma kept_read_file c data :
  safe (whatever (W:=W) (kept c)) any_exn (lift (read_file data)).
Proof.
  apply safe_lift. eapply safe_conj; [apply sent_read_file|apply lb_read_file].
Qed.

End ControlDatagrams.

Section RunAttempts.
Context `{Platform} {W : Type} (env : W -> list event -> W * list input).

Import Sender.

#[local] Abbreviation at_most flag :=
  (whatever (W:=W) (fun s tr => (count (is_snd flag) tr <= 4)%nat /\ lb_nonneg s tr)).
#[local] Abbreviation none flag :=
  (whatever (W:=W) (fun s tr => sent_times flag 0 s tr /\ lb_nonneg s tr)).

Lemma lb_estab_hdlr : safe (whatever (W:=W) lb_nonneg) any_exn (estab_hdlr env).
Proof.
  apply safe_estab_hdlr; try done;
    first [apply lb_react|apply lb_reset|apply lb_close|intros; apply lb_send_msg].
Qed.

Lemma lb_fin_hdlr : safe (whatever (W:=W) lb_nonneg) any_exn (fin_hdlr env).
Proof.
  apply safe_fin_hdlr; try done;
    first [apply lb_react|apply lb_reset|apply lb_close|intros; apply lb_send_msg].
Qed.

(** Code that sends no datagram with [flag] keeps any bound on their
    number. *)
Lemma kept_at_most {A} flag (m : M (state * W) A) :
  (forall c, safe (whatever (fun s tr => sent_times flag c s tr /\ lb_nonneg s tr))
               any_exn m) ->
  safe (at_most flag) any_exn m.
Proof.
  intros Hm sw tr [Hc HL].
  destruct (Hm (count (is_snd flag) tr) sw tr) as [[Hc' HL'] HE]; [done|].
  split; [|done]. split; [|done]. unfold sent_times in Hc'. lia.
Qed.

Lemma none_at_most flag sw tr : none flag sw tr -> at_most flag sw tr.
Proof. unfold whatever, sent_times. intros [-> ?]. split; [lia|done]. Qed.

Lemma run_syn n data : hoare (none 2) any_exn (run env n data) (at_most 2).
Proof.
  unfold run. eapply hoare_bind; [| |done].
  - intros sw tr [Hc Hlb].
    destruct (lb_estab_hdlr sw tr Hlb) as [Hlb' _].
    split; [|done]. split; [|done]. unfold sent_times in Hc.
    rewrite count_app, Hc. apply estab_hdlr_at_most.
  - intros _.
    apply kept_at_most. intros c.
    apply safe_bind; [by apply kept_read_file|]. intros _.
    apply safe_bind; [by apply kept_transeg_exec_hdlr|]. intros _.
    apply safe_bind; [by apply kept_fin_hdlr|]. intros _.
    apply safe_lift, kept_close.
Qed.

Lemma run_fin n data : hoare (none 3) any_exn (run env n data) (at_most 3).
Proof.
  unfold run.
  eapply hoare_bind; [by apply kept_estab_hdlr| |apply none_at_most]. intros _.
  eapply hoare_bind; [by apply kept_read_file| |apply none_at_most]. intros _.
  eapply hoare_bind; [by apply kept_transeg_exec_hdlr| |apply none_at_most].
  intros _. eapply hoare_bind; [| |done].
  - intros sw tr [Hc Hlb].
    destruct (lb_fin_hdlr sw tr Hlb) as [Hlb' _].
    split; [|done]. split; [|done]. unfold sent_times in Hc.
    rewrite count_app, Hc. apply fin_hdlr_at_most.
  - intros _. apply kept_at_most. intros c.
    apply safe_lift, kept_close.
Qed.

End RunAttempts.

(** X12: over a whole run of the sender, in any environment, for any file
    and any number of rounds of its sending loop, at most four SYN and at
    most four FIN segments are sent: the first transmission and three
    retransmissions of each.  No other thread sends one. *)
Theorem at_most_four_syn_and_fin `{Platform} {W : Type}
    (env : W -> list event -> W * list input) (n : nat) (data : list byte)
    (w : W) (max_win isn : Z) :
  let r := Sender.run env n data (Sender.init max_win isn, w) in
  (count (is_snd 2) (tr_of r) <= 4)%nat /\ (count (is_snd 3) (tr_of r) <= 4)%nat.
Proof.
  intros r. split.
  - destruct (run_syn env n data (Sender.init max_win isn, w) []) as [[Hc _] _];
      [by split|exact Hc].
  - destruct (run_fin env n data (Sender.init max_win isn, w) []) as [[Hc _] _];
      [by split|exact Hc].
Qed.

Lemma given_up_reset_sent {W : Type}
    (r : (Sender.state * W) * list event * (unit + exn)) :
  given_up r -> reset_sent r.
Proof.
  intros ((tr0 & Htr & Hc) & Hv & Ha). unfold reset_sent. rewrite Htr.
  split; [|split; [|done]].
  - rewrite count_app, Hc. reflexivity.
  - apply elem_of_app. right. apply list_elem_of_singleton. done.
Qed.

(** X13: when the peer sends no RESET, a handshake that does not end with
    the connection established, and a teardown that does not end with the
    FIN acknowledged, end with the sender giving up: among the datagrams it
    has sent there is exactly one RESET, with sequence number 0 and no
    payload, it is no longer active and [exit(0)] has ended it.  (ISN and
    FSN are within an unsigned short, as they are in every run.  Where the
    RESET comes among the SYN or FIN segments of the executor thread is
    left open.) *)
Theorem gives_up_with_one_reset `{Platform} {W : Type}
    (env : W -> list event -> W * list input) (s : Sender.state) (w : W) :
  unreset env ->
  Sender.active s = true ->
  0 <= Sender.ISN s < 65536 -> 0 <= Sender.FSN s < 65536 ->
  (Sender.established (st_of (Sender.estab_hdlr env (s, w))).1 = false ->
   reset_sent (Sender.estab_hdlr env (s, w))) /\
  (Sender.finished (st_of (Sender.fin_hdlr env (s, w))).1 = false ->
   reset_sent (Sender.fin_hdlr env (s, w))).
Proof.
  intros He Ha Hi Hf.
  assert (alive (s, w).1 []) as HI.
  { simpl. split; [done|]. split; [|done]. split; [lia|]. split; [lia|]. constructor. }
  split; intros Hno; apply given_up_reset_sent.
  - by apply estab_hdlr_gives_up.
  - by apply fin_hdlr_gives_up.
Qed.

Lemma gives_up_with_one_reset_witness :
  reset_sent (@Sender.estab_hdlr little unit nobody (Sender.init 3000 7, tt)) /\
  reset_sent (@Sender.fin_hdlr little unit nobody (Sender.init 3000 7, tt)).
Proof.
  destruct (@gives_up_with_one_reset little unit nobody (Sender.init 3000 7) tt)
    as [Hs Hf].
  - intros w evs. constructor.
  - reflexivity.
  - simpl. lia.
  - simpl. lia.
  - split; [apply Hs|apply Hf]; vm_compute; reflexivity.
Defined.

Section Silence.
Context `{Platform} {W : Type} (env : W -> list event -> W * list input).
Hypothesis Hsilent : silent env.

Import Sender.

Lemma yield_silent evs (sw : state * W) :
  yield env evs sw = ((sw.1, (env sw.2 evs).1), [], inl tt).
Proof.
  unfold yield. mrun. rewrite Hsilent. by destruct sw.
Qed.

Lemma attempts_S flag q k :
  attempts flag q (S k) = snd flag q [] :: sleep :: attempts flag q k.
Proof. done. Qed.

Lemma estab_exec_silent n i s w :
  established s = false -> terminate s = false -> active s = true ->
  0 <= ISN s < 65536 -> 1 <= i <= 4 -> (Z.to_nat (5 - i) <= n)%nat ->
  exists w',
    estab_exec env n i (s, w) =
      ((set_terminate true s, w'), attempts 2 (ISN s) (Z.to_nat (5 - i)), inl tt).
Proof.
  intros Hes Hte Hac Hq. revert i w.
  induction n as [|n IH]; intros i w Hi Hn; [lia|]. simpl.
  rewrite (bind_inl get _ (s, w) (s, w) [] (s, w) eq_refl). simpl.
  pose proof (attempt_eq 2 (ISN s) (s, w) ltac:(done)) as Ha.
  destruct (pack_2H_Some 2 (ISN s) ltac:(lia) Hq) as [h Hh]. rewrite Hh in Ha.
  rewrite (bind_inl _ _ _ _ _ _ Ha). simpl.
  rewrite (bind_inl _ _ _ _ _ _ (yield_silent _ _)). simpl.
  set (w1 := (env w [snd 2 (ISN s) []; sleep]).1).
  rewrite (bind_inl get _ (s, w1) (s, w1) [] (s, w1) eq_refl). simpl.
  rewrite Hes, Hte, Hac. simpl.
  destruct (Z.eqb_spec i 4) as [->|Hi4].
  - exists w1. done.
  - destruct (IH (i + 1) w1 ltac:(lia) ltac:(lia)) as [w' ->].
    exists w'. unfold st_of, tr_of, val_of. simpl.
    replace (Z.to_nat (5 - i)) with (S (Z.to_nat (5 - (i + 1)))) by lia.
    by rewrite attempts_S.
Qed.

Lemma fin_exec_silent n i s w :
  finished s = false -> terminate s = false -> active s = true ->
  0 <= FSN s < 65536 -> 1 <= i <= 4 -> (Z.to_nat (5 - i) <= n)%nat ->
  exists w',
    fin_exec env n i (s, w) =
      ((set_terminate true s, w'), attempts 3 (FSN s) (Z.to_nat (5 - i)), inl tt).
Proof.
  intros Hes Hte Hac Hq. revert i w.
  induction n as [|n IH]; intros i w Hi Hn; [lia|]. simpl.
  rewrite (bind_inl get _ (s, w) (s, w) [] (s, w) eq_refl). simpl.
  pose proof (attempt_eq 3 (FSN s) (s, w) ltac:(done)) as Ha.
  destruct (pack_2H_Some 3 (FSN s) ltac:(lia) Hq) as [h Hh]. rewrite Hh in Ha.
  rewrite (bind_inl _ _ _ _ _ _ Ha). simpl.
  rewrite (bind_inl _ _ _ _ _ _ (yield_silent _ _)). simpl.
  set (w1 := (env w [snd 3 (FSN s) []; sleep]).1).
  rewrite (bind_inl get _ (s, w1) (s, w1) [] (s, w1) eq_refl). simpl.
  rewrite Hes, Hte, Hac. simpl.
  destruct (Z.eqb_spec i 4) as [->|Hi4].
  - exists w1. done.
  - destruct (IH (i + 1) w1 ltac:(lia) ltac:(lia)) as [w' ->].
    exists w'. unfold st_of, tr_of, val_of. simpl.
    replace (Z.to_nat (5 - i)) with (S (Z.to_nat (5 - (i + 1)))) by lia.
    by rewrite attempts_S.
Qed.

Lemma estab_hdlr_silent s w :
  established s = false -> terminate s = false -> active s = true ->
  0 <= ISN s < 65536 ->
  tr_of (estab_hdlr env (s, w)) = attempts 2 (ISN s) 4 ++ [snd 4 0 []] /\
  val_of (estab_hdlr env (s, w)) = inr SystemExit.
Proof.
  intros Hes Hte Hac Hq. unfold estab_hdlr.
  destruct (estab_exec_silent recursion_limit 1 s w Hes Hte Hac Hq ltac:(lia)
              ltac:(unfold recursion_limit; lia)) as [w' Hx].
  set (m := estab_exec env recursion_limit 1) in *. clearbody m.
  assert (thread m (s, w) =
          ((set_terminate true s, w'), attempts 2 (ISN s) 4, inl tt)) as Ht
    by (unfold thread; by rewrite Hx).
  rewrite (bind_inl _ _ _ _ _ _ Ht).
  rewrite (bind_inl get _ _ _ [] _ eq_refl). simpl.
  by rewrite Hes, lift_reset.
Qed.

Lemma fin_hdlr_silent s w :
  finished s = false -> terminate s = false -> active s = true ->
  0 <= FSN s < 65536 ->
  tr_of (fin_hdlr env (s, w)) = attempts 3 (FSN s) 4 ++ [snd 4 0 []] /\
  val_of (fin_hdlr env (s, w)) = inr SystemExit.
Proof.
  intros Hes Hte Hac Hq. unfold fin_hdlr.
  destruct (fin_exec_silent recursion_limit 1 s w Hes Hte Hac Hq ltac:(lia)
              ltac:(unfold recursion_limit; lia)) as [w' Hx].
  set (m := fin_exec env recursion_limit 1) in *. clearbody m.
  assert (thread m (s, w) =
          ((set_terminate true s, w'), attempts 3 (FSN s) 4, inl tt)) as Ht
    by (unfold thread; by rewrite Hx).
  rewrite (bind_inl _ _ _ _ _ _ Ht).
  rewrite (bind_inl get _ _ _ [] _ eq_refl). simpl.
  by rewrite Hes, lift_reset.
Qed.

End Silence.

(** X14: when nothing answers, the handshake is four SYN segments with the
    ISN, each followed by a wait of [rto], then one RESET with sequence
    number 0 and the exit of the program; the teardown likewise is four FIN
    segments with the FSN, then the RESET and the exit. *)
Theorem four_timeouts_then_reset `{Platform} {W : Type}
    (env : W -> list event -> W * list input) (s : Sender.state) (w : W) :
  silent env ->
  Sender.terminate s = false -> Sender.active s = true ->
  (Sender.established s = false -> 0 <= Sender.ISN s < 65536 ->
   tr_of (Sender.estab_hdlr env (s, w)) =
     attempts 2 (Sender.ISN s) 4 ++ [snd 4 0 []] /\
   val_of (Sender.estab_hdlr env (s, w)) = inr SystemExit) /\
  (Sender.finished s = false -> 0 <= Sender.FSN s < 65536 ->
   tr_of (Sender.fin_hdlr env (s, w)) =
     attempts 3 (Sender.FSN s) 4 ++ [snd 4 0 []] /\
   val_of (Sender.fin_hdlr env (s, w)) = inr SystemExit).
Proof.
  intros Hs Ht Ha. split; intros Hf Hq.
  - by apply estab_hdlr_silent.
  - by apply fin_hdlr_silent.
Qed.

Lemma four_timeouts_then_reset_witness :
  tr_of (@Sender.estab_hdlr little unit nobody (Sender.init 3000 7, tt)) =
    attempts 2 7 4 ++ [snd 4 0 []] /\
  tr_of (@Sender.fin_hdlr little unit nobody (Sender.init 3000 7, tt)) =
    attempts 3 0 4 ++ [snd 4 0 []].
Proof.
  destruct (@four_timeouts_then_reset little unit nobody (Sender.init 3000 7) tt)
    as [Hs Hf]; [done|done|done|].
  split; [apply Hs|apply Hf]; simpl; (done || lia).
Defined.

(** ** The empty file *)

Section EmptyFile.
Context `{Platform} {W : Type} (env : W -> list event -> W * list input).

Import Sender.





Lemma py_index_nil {A} i : py_index (@nil A) i = None.
Proof.
  unfold py_index. repeat case_match; try done; apply lookup_nil.
Qed.

Lemma py_setitem_nil {A} i (v : A) : py_setitem [] i v = None.
Proof.
  unfold py_setitem. simpl length.
  destruct (Z.leb_spec 0 i), (Z.ltb_spec i (Z.of_nat 0)), (Z.ltb_spec i 0),
    (Z.leb_spec (- Z.of_nat 0) i); simpl; try done; lia.
Qed.



Lemma empty_mark_rcved js : safe empty_handed any_exn (mark_rcved js).
Proof.
  intros s tr HI. destruct js as [|j js]; simpl.
  - mrun. simpl. rewrite app_nil_r. by split.
  - unfold setitem. mrun. pose proof HI as (_ & Hr & _).
    rewrite Hr, py_setitem_nil. simpl. rewrite app_nil_r. by split.
Qed.





















#[local] Abbreviation connected :=
  (fun s tr => empty_handed s tr /\ established s = true).






End EmptyFile.


(** ** The file in segments *)

Section Partition.

Import Sender.

Lemma slice_whole i data :
  0 <= i ->
  slice (i * 1000) ((i + 1) * 1000) data =
    take 1000 (drop (Z.to_nat (1000 * i)) data).
Proof.
  intros Hi. unfold slice. f_equal; [lia|]. f_equal. lia.
Qed.

Lemma whole_segments data k :
  0 <= k ->
  concat ((fun i => slice (i * 1000) ((i + 1) * 1000) data) <$> seqZ 0 k) =
    take (Z.to_nat (1000 * k)) data.
Proof.
  revert k. apply natlike_ind; [done|]. intros k Hk IH.
  rewrite <- Z.add_1_r.
  rewrite (seqZ_app 0 k 1), fmap_app, concat_app, IH by lia.
  change (seqZ (0 + k) 1) with [0 + k]. simpl. rewrite app_nil_r.
  rewrite slice_whole by lia. rewrite take_take_drop. f_equal. lia.
Qed.

Lemma partitions_bounds size :
  0 < size ->
  1000 * (partitions size - 1) < size <= 1000 * partitions size.
Proof.
  intros Hs. unfold partitions. rewrite Z.quot_div_nonneg by lia.
  pose proof (Z.div_mod size 1000 ltac:(lia)).
  pose proof (Z.mod_pos_bound size 1000 ltac:(lia)).
  destruct (Z.eqb_spec (size mod 1000) 0); lia.
Qed.

Lemma read_file_buffer data s :
  buffer s = [] ->
  buffer (st_of (read_file data s)) =
    (fun i => if i =? partitions (len data) - 1
              then slice (i * 1000) (len data) data
              else slice (i * 1000) ((i + 1) * 1000) data)
    <$> seqZ 0 (partitions (len data)).
Proof. intros Hb. unfold read_file. mrun. simpl. by rewrite Hb. Qed.

Lemma segments_concat data :
  concat ((fun i => if i =? partitions (len data) - 1
                    then slice (i * 1000) (len data) data
                    else slice (i * 1000) ((i + 1) * 1000) data)
          <$> seqZ 0 (partitions (len data))) = data.
Proof.
  destruct data as [|x data'] eqn:Hd; [done|]. rewrite <- Hd.
  assert (0 < len data) as Hl by (subst; unfold len; simpl; lia).
  pose proof (partitions_bounds _ Hl) as Hn.
  set (N := partitions (len data)) in *. clearbody N. clear Hd.
  assert (seqZ 0 N = seqZ 0 (N - 1) ++ [N - 1]) as Hseq.
  { replace N with ((N - 1) + 1) at 1 by lia. by rewrite seqZ_app by lia. }
  rewrite Hseq, fmap_app, concat_app. simpl.
  rewrite app_nil_r, Z.eqb_refl.
  rewrite (list_fmap_ext _ (fun i => slice (i * 1000) ((i + 1) * 1000) data)
             (seqZ 0 (N - 1))).
  2: { intros j i Hi. apply list_elem_of_lookup_2, elem_of_seqZ in Hi.
       by replace (i =? N - 1) with false by (symmetry; apply Z.eqb_neq; lia). }
  rewrite whole_segments by lia. unfold slice.
  replace (Z.to_nat ((N - 1) * 1000)) with (Z.to_nat (1000 * (N - 1))) by lia.
  rewrite (take_ge (drop _ data)).
  - apply take_drop.
  - rewrite length_drop. unfold len in *. lia.
Qed.

Lemma segments_sizes data (i : nat) b :
  ((fun i => if i =? partitions (len data) - 1
             then slice (i * 1000) (len data) data
             else slice (i * 1000) ((i + 1) * 1000) data)
   <$> seqZ 0 (partitions (len data))) !! i = Some b ->
  0 < len b <= 1000 /\
  (Z.of_nat i < partitions (len data) - 1 -> len b = 1000).
Proof.
  intros Hb. apply list_lookup_fmap_Some in Hb as (j & -> & Hj).
  apply lookup_seqZ in Hj as [-> Hi].
  assert (0 < len data) as Hl.
  { destruct data; [|unfold len; simpl; lia].
    change (partitions (len [])) with 0 in Hi. lia. }
  pose proof (partitions_bounds _ Hl) as Hn.
  set (N := partitions (len data)) in *. clearbody N.
  unfold slice, len in *.
  destruct (Z.eqb_spec (0 + Z.of_nat i) (N - 1)) as [He|Hne];
    rewrite length_take, length_drop; lia.
Qed.

End Partition.

Lemma read_text_utf8_lf `{Platform} file data :
  utf8_lf -> Sender.read_text file = Some data ->
  utf8_valid file = true /\ data = universal_newlines file.
Proof.
  intros (Hd & _ & _). unfold Sender.read_text. rewrite Hd. unfold decode_utf8.
  destruct (utf8_valid file); [|done]. simpl. intros [= <-]. done.
Qed.

(** X16: [read_file] cuts the text of the file into segments without losing
    or reordering a byte.  [data] is what [f.read().encode('utf-8')] gives
    for the bytes [file] of the input file, which is opened in text mode.
    From an empty buffer, the segments put together are [data]; there are
    [buffer_size] of them, the number of partitions of [data]; each holds
    at least one byte and at most 1000, and each but the last exactly 1000;
    [data_size] is the length of [data].  On a host whose locale encodes
    text as UTF-8, [data] is [file] with every ['\r\n'] and every other
    ['\r'] turned into ['\n'], so the bytes of the file itself when it
    holds no ['\r']. *)
Theorem read_file_partitions_the_file `{Platform}
    (file data : list byte) (s : Sender.state) :
  Sender.read_text file = Some data ->
  Sender.buffer s = [] ->
  let s' := st_of (Sender.read_file data s) in
  concat (Sender.buffer s') = data /\
  Z.of_nat (length (Sender.buffer s')) = Sender.buffer_size s' /\
  Sender.buffer_size s' = partitions (len data) /\
  Sender.data_size s' = len data /\
  (forall (i : nat) b, Sender.buffer s' !! i = Some b ->
    0 < len b <= 1000 /\
    (Z.of_nat i < Sender.buffer_size s' - 1 -> len b = 1000)) /\
  (utf8_lf -> data = universal_newlines file) /\
  (utf8_lf -> Forall (fun c => Z_of_byte c <> 13) file ->
   concat (Sender.buffer s') = file).
Proof.
  intros Hf Hb s'. subst s'. rewrite (read_file_buffer data s Hb).
  assert (Sender.buffer_size (st_of (Sender.read_file data s)) =
          partitions (len data)) as Hn by done.
  rewrite Hn. split; [apply segments_concat|].
  split.
  { rewrite length_fmap, length_seqZ.
    destruct data; [done|].
    pose proof (partitions_pos (len (b :: data)) ltac:(unfold len; simpl; lia)).
    lia. }
  split; [done|]. split; [done|]. split; [apply segments_sizes|].
  split.
  - intros Hh. by destruct (read_text_utf8_lf file data Hh Hf).
  - intros Hh Hcr. destruct (read_text_utf8_lf file data Hh Hf) as [_ Hd].
    rewrite segments_concat, Hd. by apply universal_newlines_id.
Qed.

Lemma read_file_partitions_the_file_witness :
  let file := [x61; x0d; x0a] ++ replicate 1500 x62 in
  let data := [x61; x0a] ++ replicate 1500 x62 in
  let s' := st_of (Sender.read_file data (Sender.init 3000 7)) in
  concat (Sender.buffer s') = data /\
  Z.of_nat (length (Sender.buffer s')) = Sender.buffer_size s' /\
  Sender.buffer_size s' = partitions (len data) /\
  Sender.data_size s' = len data /\
  (forall (i : nat) b, Sender.buffer s' !! i = Some b ->
    0 < len b <= 1000 /\
    (Z.of_nat i < Sender.buffer_size s' - 1 -> len b = 1000)) /\
  (@utf8_lf little -> data = universal_newlines file) /\
  (@utf8_lf little -> Forall (fun c => Z_of_byte c <> 13) file ->
   concat (Sender.buffer s') = file).
Proof.
  apply (@read_file_partitions_the_file little
           ([x61; x0d; x0a] ++ replicate 1500 x62)
           ([x61; x0a] ++ replicate 1500 x62) (Sender.init 3000 7)).
  - vm_compute. reflexivity.
  - reflexivity.
Defined.

(** ** The window and the acknowledged positions *)

Section Acknowledged.
Context `{Platform}.

Import Sender.

(** [mark_rcved] clears no mark, and when it comes to its end it has marked
    all its positions. *)
Lemma mark_rcved_marks js s :
  exists l,
    st_of (mark_rcved js s) = set_segmtRcved l s /\
    (forall k, segmtRcved s !! k = Some 1 -> l !! k = Some 1) /\
    (val_of (mark_rcved js s) = inl tt ->
     forall j, j ∈ js -> 0 <= j -> l !! Z.to_nat j = Some 1).
Proof.
  revert s. induction js as [|j js IH]; intros s.
  - exists (segmtRcved s). simpl. mrun. simpl. split; [by destruct s|].
    split; [done|]. intros _ j Hj. by apply elem_of_nil in Hj.
  - simpl. unfold setitem. mrun.
    destruct (py_setitem (segmtRcved s) j 1) as [l|] eqn:Hl; simpl.
    2: { exists (segmtRcved s). split; [by destruct s|]. by split. }
    assert (forall k, segmtRcved s !! k = Some 1 -> l !! k = Some 1) as Hkeep.
    { intros k Hk. unfold py_setitem in Hl.
      destruct ((0 <=? j) && _) in Hl;
        [|destruct ((j <? 0) && _) in Hl; [|done]];
        injection Hl as <-.
      all: match goal with |- <[?i := _]> _ !! _ = _ =>
             destruct (decide (i = k)) as [->|Hne] end.
      all: try (rewrite list_lookup_insert_ne by done; done).
      all: apply list_lookup_insert_eq; by eapply lookup_lt_Some. }
    destruct (IH (set_segmtRcved l s)) as (l' & Hst & Hk' & Hval).
    destruct (mark_rcved js (set_segmtRcved l s)) as [[s1 t1] r] eqn:Hm.
    unfold st_of, val_of in *. simpl in *.
    exists l'. split; [by rewrite Hst|]. split; [by auto|].
    intros -> j0 Hj0 Hpos. apply elem_of_cons in Hj0 as [->|Hj0]; [|by apply Hval].
    apply Hk'. unfold py_setitem in Hl.
    destruct ((0 <=? j) && (j <? Z.of_nat (length (segmtRcved s)))) eqn:Hb.
    + injection Hl as <-. apply andb_prop in Hb as [_ Hb]. apply Z.ltb_lt in Hb.
      apply list_lookup_insert_eq. lia.
    + destruct ((j <? 0) && _) eqn:Hb' in Hl; [|done].
      apply andb_prop in Hb' as [Hb' _]. apply Z.ltb_lt in Hb'. lia.
Qed.

Ltac use_marks :=
  match goal with
  | Hm : mark_rcved ?js ?s = _ |- _ =>
      let Hst := fresh "Hst" in
      let Hkeep := fresh "Hkeep" in
      let Hval := fresh "Hval" in
      destruct (mark_rcved_marks js s) as (? & Hst & Hkeep & Hval);
      rewrite Hm in Hst, Hval;
      unfold st_of, val_of in Hst, Hval;
      simpl in Hst, Hkeep, Hval; clear Hm; subst
  end.

Lemma on_ack_acked q s : acked_below s -> acked_below (st_of (on_ack q s)).
Proof.
  intros Ha. unfold on_ack, send_msg, index. mrun.
  case_code; simpl in *; try done; use_marks; unfold acked_below; simpl;
    try (intros j Hj; by apply Hkeep, Ha).
  all: intros j Hj; destruct u; apply (Hval eq_refl); [|lia].
  all: apply elem_of_seqZ; lia.
Qed.

Lemma rv_listener_iter_acked m s :
  acked_below s -> acked_below (st_of (rv_listener_iter m s)).
Proof.
  intros Hs. unfold rv_listener_iter. mrun.
  pose proof (on_ack_acked) as Hack. unfold st_of in Hack.
  case_code; simpl; try done;
    try match goal with
        | Ha : on_ack ?q ?s = _ |- _ =>
            specialize (Hack q s Hs); rewrite Ha in Hack; simpl in Hack
        end; done.
Qed.

Lemma same_window_acked s s' : same_window s s' -> acked_below s -> acked_below s'.
Proof. unfold acked_below. intros (-> & _ & -> & _). done. Qed.

Lemma react_acked x s : acked_below s -> acked_below (st_of (react x s)).
Proof.
  intros Hs. destruct x as [m|i]; simpl.
  - unfold rv_listener. mrun.
    pose proof (rv_listener_iter_acked m s Hs) as Hm.
    unfold st_of in Hm. case_code; simpl in *; done.
  - mrun. pose proof (retranseg_exec_same i s) as Hi. unfold st_of in Hi.
    destruct (retranseg_exec i s) as [[s1 t1] [f|e]]; simpl in *;
      by eapply same_window_acked.
Qed.

Lemma sending_acked max_win isn data s :
  sending max_win isn data s -> acked_below s.
Proof.
  induction 1 as [s Hs|s x _ IH|s lb i _ IH].
  - apply handshaking_unread in Hs as (Hlb & _).
    intros j Hj. unfold read_file in Hj. mrun. simpl in Hj. lia.
  - by apply react_acked.
  - eapply same_window_acked; [apply transeg_body_same|done].
Qed.

(** The lower bound of the window never goes back. *)
Lemma on_ack_forward q s : win_lb s <= win_lb (st_of (on_ack q s)).
Proof.
  unfold on_ack, send_msg, index. mrun.
  case_code; simpl in *; try lia; use_marks; simpl; try lia.
  all: match goal with Hlt : (_ <? _) = true |- _ => apply Z.ltb_lt in Hlt end.
  all: lia.
Qed.

Lemma react_forward x s : win_lb s <= win_lb (st_of (react x s)).
Proof.
  destruct x as [m|i]; simpl.
  - unfold rv_listener, rv_listener_iter. mrun.
    pose proof (on_ack_forward) as Hack. unfold st_of in Hack.
    case_code; simpl; try lia;
      match goal with
      | Ha : on_ack ?q ?s = _ |- _ =>
          specialize (Hack q s); rewrite Ha in Hack; simpl in Hack
      end; lia.
  - mrun. pose proof (retranseg_exec_same i s) as (Hi & _). unfold st_of in Hi.
    destruct (retranseg_exec i s) as [[s1 t1] [f|e]]; simpl in *; lia.
Qed.

Lemma reacts_forward xs s : win_lb s <= win_lb (st_of (reacts xs s)).
Proof.
  revert s. induction xs as [|x xs IH]; intros s; simpl; [done|].
  pose proof (react_forward x s) as Hx. unfold st_of in *.
  destruct (react x s) as [[s1 t1] [[]|e]] eqn:Hr; simpl in *.
  - rewrite (bind_inl _ _ _ _ _ _ Hr). unfold st_of. simpl.
    specialize (IH s1). lia.
  - by rewrite (bind_inr _ _ _ _ _ _ Hr).
Qed.

End Acknowledged.

(** X17: at every state of the sending phase, every position below the
    lower bound of the window is marked as received in [segmtRcved]: the
    window slides over acknowledged segments only. *)
Theorem below_the_window_is_acknowledged `{Platform}
    (max_win isn : Z) (data : list byte) (s : Sender.state) (j : Z) :
  sending max_win isn data s ->
  0 <= j < Sender.win_lb s ->
  py_index (Sender.segmtRcved s) j = Some 1.
Proof.
  intros Hs Hj. rewrite py_index_nat by lia. by apply (sending_acked _ _ _ _ Hs).
Qed.

Lemma below_the_window_is_acknowledged_witness :
  let s := st_of (@Sender.react little (arrive [x01; x00; xd1; x01])
             (st_of (Sender.read_file (replicate 1500 x61)
                (st_of (@Sender.react little (arrive [x01; x00; xe9; xfd])
                   (Sender.init 3000 65000)))))) in
  Sender.win_lb s = 1 /\ py_index (Sender.segmtRcved s) 0 = Some 1.
Proof.
  intros s. split; [reflexivity|].
  apply (@below_the_window_is_acknowledged little 3000 65000 (replicate 1500 x61) s 0).
  - apply sd_react, sd_read, hs_react, hs_init.
  - assert (Sender.win_lb s = 1) as -> by reflexivity. lia.
Defined.

(** X18: the window never slides back: whatever the listener and the timer
    threads are given to do, the lower bound of the window afterwards is not
    below the one before. *)
Theorem window_never_slides_back `{Platform} (xs : list input) (s : Sender.state) :
  Sender.win_lb s <= Sender.win_lb (st_of (Sender.reacts xs s)).
Proof. apply reacts_forward. Qed.

(** ** After the end *)

Section Inactive.
Context `{Platform}.

Import Sender.




End Inactive.



(** ** What a DATA segment carries *)

Section Carrying.
Context `{Platform} {W : Type} (env : W -> list event -> W * list input).
Variables (B : list (list byte)) (D : Z).

Import Sender.

Lemma car_event (s : state) tr e :
  data_of B D e -> carrying B D s tr -> carrying B D s (tr ++ [e]).
Proof.
  intros He (Hb & Hd & Ht). repeat split; try done.
  apply Forall_app. split; [done|]. by apply Forall_cons.
Qed.

Ltac car_stable :=
  try (intros ? ? (? & ? & ?); repeat split; simpl; done);
  try (intros; apply car_event; [by simpl|done]).

Lemma car_send_data i :
  safe (carrying B D) any_exn (send_msg 0 ((D + 1000 * i) mod 2 ^ 16) i).
Proof.
  intros s tr HI. pose proof HI as (Hb & Hd & Ht). split; [|done].
  unfold send_msg, index. simpl. mrun. rewrite Hb.
  destruct (py_index B i) as [b|] eqn:Hi; simpl; [|by rewrite app_nil_r].
  destruct (pack_2H 0 _); simpl; [|by rewrite app_nil_r].
  apply car_event; [|done]. simpl. intros _. by exists i.
Qed.

Lemma car_send_control flag q :
  flag <> 0 -> safe (carrying B D) any_exn (send_msg flag q 0).
Proof.
  intros Hf s tr HI. rewrite send_msg_control by done. split; [|done].
  destruct (pack_2H flag q); unfold st_of, tr_of; simpl; [|by rewrite app_nil_r].
  apply car_event; [|done]. simpl. intros ?. lia.
Qed.

Ltac car_auto :=
  repeat (first
    [ safe_step;
      try match goal with
          | H0 : carrying _ _ ?s0 _ |- context [DSN ?s0] =>
              rewrite (proj1 (proj2 H0))
          end
    | apply car_send_data
    | unfold index, setitem ]);
  try done; car_stable.

Lemma car_mark_rcved js : safe (carrying B D) any_exn (mark_rcved js).
Proof. induction js as [|j js IH]; simpl; car_auto. Qed.

Lemma car_retranseg_exec i : safe (carrying B D) any_exn (retranseg_exec i).
Proof. unfold retranseg_exec. car_auto. Qed.

Lemma car_transeg_body lb i : safe (carrying B D) any_exn (transeg_body lb i).
Proof. unfold transeg_body. car_auto. Qed.

Lemma car_close : safe (carrying B D) any_exn close.
Proof. unfold close. car_auto. Qed.

Lemma car_reset : safe (carrying B D) any_exn reset.
Proof.
  unfold reset. apply safe_bind; [by apply car_send_control|].
  intros _. apply car_close.
Qed.

Lemma car_on_ack q : safe (carrying B D) any_exn (on_ack q).
Proof. unfold on_ack. car_auto; try apply car_mark_rcved. Qed.

Lemma car_rv_listener_iter m : safe (carrying B D) any_exn (rv_listener_iter m).
Proof. unfold rv_listener_iter. car_auto; try apply car_on_ack. Qed.

Lemma car_rv_listener m : safe (carrying B D) any_exn (rv_listener m).
Proof.
  intros s tr HI.
  destruct (car_rv_listener_iter m s tr HI) as [HI1 _].
  unfold rv_listener, st_of, tr_of, val_of in *.
  destruct (rv_listener_iter m s) as [[s1 t1] [[]|e]]; simpl in *;
    (split; [|done]); try done.
  rewrite app_assoc. by apply (car_event s1).
Qed.

Lemma car_react x : safe (carrying B D) any_exn (react x).
Proof.
  destruct x as [m|i]; simpl.
  - car_auto; try apply car_rv_listener.
  - eapply safe_thread; [apply car_retranseg_exec|].
    intros. by apply car_event.
Qed.

#[local] Abbreviation held :=
  (fun s tr => carrying B D s tr /\ lb_nonneg s tr).

Lemma held_react x : safe held any_exn (react x).
Proof. eapply safe_conj; [apply car_react|apply lb_react]. Qed.

Lemma held_reset : safe held any_exn reset.
Proof. eapply safe_conj; [apply car_reset|apply lb_reset]. Qed.

Lemma held_close : safe held any_exn close.
Proof. eapply safe_conj; [apply car_close|apply lb_close]. Qed.

Lemma held_event (s : state) tr e :
  data_of B D e -> held s tr -> held s (tr ++ [e]).
Proof. intros He [? ?]. split; [by apply car_event|done]. Qed.

Lemma held_estab_hdlr : safe (whatever (W:=W) held) any_exn (estab_hdlr env).
Proof.
  apply safe_estab_hdlr; try done.
  - apply held_react.
  - intros. by apply held_event.
  - intros. by apply held_event.
  - apply held_reset.
  - apply held_close.
  - intros. eapply safe_conj; [by apply car_send_control|apply lb_send_msg].
Qed.

Lemma held_rest n :
  safe (whatever (W:=W) held) any_exn
    (transeg_exec_hdlr env n;; fin_hdlr env;; lift close).
Proof.
  apply safe_bind; [|intros _; apply safe_bind; [|intros _]].
  - apply safe_transeg_exec_hdlr; try done.
    + apply held_react.
    + apply held_reset.
    + apply held_close.
    + by intros s tr [_ ?].
    + intros lb i _.
      eapply safe_conj; [apply car_transeg_body|apply lb_transeg_body].
  - apply safe_fin_hdlr; try done.
    + apply held_react.
    + intros. by apply held_event.
    + intros. by apply held_event.
    + apply held_reset.
    + apply held_close.
    + intros. eapply safe_conj; [by apply car_send_control|apply lb_send_msg].
  - apply safe_lift, held_close.
Qed.

End Carrying.

Section CarryingRun.
Context `{Platform} {W : Type} (env : W -> list event -> W * list input).

Import Sender.

Lemma carrying_data_of B D (s : state) tr :
  carrying B D s tr -> Forall (data_of (buffer s) (DSN s)) tr.
Proof. by intros (-> & -> & ?). Qed.

Lemma read_file_carrying D data (s : state) tr :
  carrying [] D s tr ->
  carrying (buffer (st_of (read_file data s))) D (st_of (read_file data s)) tr.
Proof.
  intros (Hb & Hd & Ht). split; [done|]. split; [done|].
  eapply Forall_impl; [exact Ht|]. intros [f q b| | | | |]; simpl; try done.
  intros He Hf. destruct (He Hf) as (i & Hi & _). by rewrite py_index_nil in Hi.
Qed.

Lemma run_carrying n data D sw :
  carrying [] D sw.1 [] -> lb_nonneg sw.1 [] ->
  Forall (data_of (buffer (st_of (run env n data sw)).1)
                  (DSN (st_of (run env n data sw)).1))
         (tr_of (run env n data sw)).
Proof.
  intros HI Hlb. unfold run.
  destruct (held_estab_hdlr env [] D sw []) as [[HI1 Hlb1] _]; [done|].
  destruct (estab_hdlr env sw) as [[sw1 t1] [[]|e]] eqn:He;
    unfold st_of, tr_of, val_of in HI1, Hlb1; simpl in HI1, Hlb1.
  2: { rewrite (bind_inr _ _ _ _ _ _ He). by eapply carrying_data_of. }
  rewrite (bind_inl _ _ _ _ _ _ He).
  assert (lift (read_file data) sw1 =
          ((st_of (read_file data sw1.1), sw1.2), [], inl tt)) as Hr by done.
  rewrite (bind_inl _ _ _ _ _ _ Hr).
  set (sw2 := (st_of (read_file data sw1.1), sw1.2)).
  destruct (held_rest env (buffer sw2.1) D n sw2 t1) as [[HI3 _] _].
  { split; [by apply read_file_carrying|].
    destruct (lb_read_file data sw1.1 t1 Hlb1) as [Hlb2 _]. exact Hlb2. }
  unfold st_of, tr_of, val_of in *. simpl in *.
  by eapply carrying_data_of.
Qed.

End CarryingRun.

(** X20: every DATA segment of a run of the sender, a first transmission, a
    retransmission after a timeout or a fast retransmission, carries the
    payload [buffer[i]] of a position [i] of the file's segments, as Python
    reads [buffer[i]], under the sequence number [(DSN + 1000 * i) mod 2^16]
    of that position. *)
Theorem data_segments_carry_the_file `{Platform} {W : Type}
    (env : W -> list event -> W * list input) (n : nat) (data : list byte)
    (w : W) (max_win isn : Z) :
  let r := Sender.run env n data (Sender.init max_win isn, w) in
  Forall (data_of (Sender.buffer (st_of r).1) (Sender.DSN (st_of r).1)) (tr_of r).
Proof.
  intros r. subst r.
  assert (carrying [] ((isn + 1) mod 2 ^ 16) (Sender.init max_win isn, w).1 [])
    as HI by (split; [done|]; split; [done|]; constructor).
  assert (lb_nonneg (Sender.init max_win isn, w).1 []) as Hlb
    by (by unfold lb_nonneg).
  exact (run_carrying env n data _ (Sender.init max_win isn, w) HI Hlb).
Qed.

(** ** Reassembly of the file *)

Section ReassemblyFacts.
Context `{Platform}.

Import Receiver.

Lemma segment_header dsn k b :
  unpack_2H (take 4 (segment_datagram dsn k b)) =
    Some (0, (dsn + 1000 * Z.of_nat k) mod 2 ^ 16) /\
  drop 4 (segment_datagram dsn k b) = b.
Proof.
  unfold segment_datagram. set (q := (dsn + 1000 * Z.of_nat k) mod 2 ^ 16).
  assert (0 <= q < 65536) as Hq by (apply Z.mod_pos_bound; lia).
  destruct (pack_2H_Some 0 q ltac:(lia) Hq) as [h Hh].
  pose proof (unpack_pack_2H _ _ _ Hh) as Hu.
  assert (h = pack_H 0 ++ pack_H q) as Heq.
  { unfold pack_2H in Hh. destruct (in_H 0 && in_H q); by simplify_eq. }
  assert (length h = 4%nat) as Hl.
  { unfold unpack_2H in Hu. by repeat (destruct h as [|? h]; try done). }
  rewrite app_assoc, <- Heq.
  by rewrite take_app_length', drop_app_length' by done.
Qed.

(** It is the datagram that [send_msg] puts on the wire for the segment. *)
Lemma segment_datagram_wire dsn k b :
  datagram (snd 0 ((dsn + 1000 * Z.of_nat k) mod 2 ^ 16) b) =
    Some (segment_datagram dsn k b).
Proof.
  unfold datagram, segment_datagram.
  set (q := (dsn + 1000 * Z.of_nat k) mod 2 ^ 16).
  assert (0 <= q < 65536) as Hq by (apply Z.mod_pos_bound; lia).
  unfold pack_2H, in_H.
  replace ((0 <=? q) && (q <? 65536)) with true
    by (symmetry; apply andb_true_intro; split; [apply Z.leb_le|apply Z.ltb_lt]; lia).
  simpl. by rewrite <- app_assoc.
Qed.

Lemma awaiting_segment dsn k b rf rr s :
  awaiting dsn s -> 0 <= dsn -> dsn + 1000 * Z.of_nat k < 983040 ->
  buffer s !! Z.of_nat k = None -> 0 <= rf ->
  exists s1 t1,
    fw_listener_iter (segment_datagram dsn k b) rf rr s = (s1, t1, inl Continue) /\
    awaiting dsn s1 /\ buffer s1 = <[Z.of_nat k := b]> (buffer s).
Proof.
  intros (Hes & Hn & Hf & Ha & Hd) Hd0 Hlt Hk Hrf.
  destruct (segment_header dsn k b) as [Hu Hp].
  unfold fw_listener_iter. rewrite Hu, Hp.
  unfold on_data, send_msg, cumu_seqno. mrun.
  rewrite Hf, Hes.
  replace (rf <? 0) with false by (symmetry; apply Z.ltb_ge; lia). simpl.
  rewrite Hn. simpl. rewrite Hd.
  rewrite (find_pos_inverts dsn (Z.of_nat k)) by lia. rewrite Hk. simpl.
  set (c := cumulate _ _ _ _ mod 2 ^ 16).
  assert (0 <= c < 65536) as Hc by (apply Z.mod_pos_bound; lia).
  destruct (pack_2H_Some 1 c ltac:(lia) Hc) as [h Hh]. rewrite Hh.
  destruct (rr <? rlp s); simpl; eexists _, _; (split; [reflexivity|]);
    by repeat split.
Qed.

Lemma listener_segments dsn B : forall k rnd s,
  awaiting dsn s -> 0 <= dsn ->
  dsn + 1000 * Z.of_nat (k + length B) <= 983040 ->
  (forall i : nat, (k <= i)%nat -> buffer s !! Z.of_nat i = None) ->
  length rnd = length B -> Forall (fun r => 0 <= r.1) rnd ->
  let s' := st_of (fw_listener (segments_from dsn k B rnd) s) in
  awaiting dsn s' /\
  forall j : Z,
    buffer s' !! j =
      if decide (Z.of_nat k <= j < Z.of_nat (k + length B))
      then B !! (Z.to_nat j - k)%nat
      else buffer s !! j.
Proof.
  induction B as [|b B IH]; intros k rnd s Hs Hd Hlt Hfree Hlen Hrnd.
  - simpl. split; [done|]. intros j. destruct (decide _); [lia|done].
  - destruct rnd as [|[rf rr] rnd]; [done|].
    apply Forall_cons in Hrnd as [Hrf Hrnd]. simpl in Hrf, Hlen, Hlt.
    destruct (awaiting_segment dsn k b rf rr s Hs Hd ltac:(lia)
                (Hfree k ltac:(lia)) Hrf) as (s1 & t1 & Hi & Hs1 & Hb1).
    cbn [segments_from fw_listener fst Datatypes.snd].
    rewrite (bind_inl get _ s s [] s eq_refl). cbn [st_of tr_of val_of fst Datatypes.snd].
    assert (active s = true) as -> by apply Hs. cbn [negb].
    rewrite (bind_inl _ _ _ _ _ _ Hi). unfold st_of at 1. cbn [fst Datatypes.snd].
    destruct (IH (S k) rnd s1 Hs1 Hd ltac:(lia)) as [Hs' Hb']; [|lia|done|].
    { intros i Hi'. rewrite Hb1, lookup_insert_ne by lia. apply Hfree. lia. }
    split; [exact Hs'|]. intros j. rewrite Hb'.
    destruct (decide (Z.of_nat (S k) <= j < Z.of_nat (S k + length B))) as [Hin|Hout].
    + rewrite decide_True by (simpl; lia).
      replace (Z.to_nat j - k)%nat with (S (Z.to_nat j - S k)) by lia. done.
    + rewrite Hb1. destruct (decide (j = Z.of_nat k)) as [->|Hne].
      * rewrite lookup_insert_eq, decide_True by (simpl; lia).
        by replace (Z.to_nat (Z.of_nat k) - k)%nat with O by lia.
      * rewrite lookup_insert_ne by done.
        by rewrite decide_False by (simpl; lia).
Qed.

Lemma prefix_bytes_list (buf : gmap Z (list byte)) (B : list (list byte)) :
  (forall i : nat, buf !! Z.of_nat i = B !! i) ->
  prefix_bytes buf (Z.of_nat (length B)) = concat B.
Proof.
  intros Hb. unfold prefix_bytes. f_equal. apply list_eq. intros i.
  rewrite list_lookup_fmap.
  destruct (B !! i) as [b|] eqn:Hi.
  - rewrite (lookup_seqZ_lt 0 _ i); [|apply lookup_lt_Some in Hi; lia].
    simpl. by rewrite Z.add_0_l, Hb, Hi.
  - rewrite lookup_seqZ_ge; [done|]. apply lookup_ge_None in Hi. lia.
Qed.

(** The buffer and the output after the segments [B] have arrived in order. *)
Lemma reassembled (dsn : Z) (B : list (list byte)) (rnd : list (Z * Z)) (s : state) :
  awaiting dsn s -> buffer s = ∅ ->
  0 <= dsn -> dsn + 1000 * Z.of_nat (length B) <= 983040 ->
  Forall (fun b => len b <= 1000) B ->
  length rnd = length B -> Forall (fun r => 0 <= r.1) rnd ->
  let s' := st_of (fw_listener (segments_from dsn 0 B rnd) s) in
  (forall i : nat, buffer s' !! Z.of_nat i = B !! i) /\
  run (st_of (timed_close s')) = Some (write_file (concat B)).1.
Proof.
  intros Hs Hb Hd Hlt _ Hlen Hrnd s'.
  destruct (listener_segments dsn B 0 rnd s Hs Hd Hlt) as [Hs' Hb']; try done.
  { intros i _. by rewrite Hb. }
  fold s' in Hs', Hb'.
  assert (forall i : nat, buffer s' !! Z.of_nat i = B !! i) as Hall.
  { intros i. rewrite Hb'. destruct (decide _) as [Hin|Hout].
    - f_equal. lia.
    - rewrite Hb, lookup_empty. symmetry. apply lookup_ge_None. simpl in Hout. lia. }
  split; [exact Hall|].
  rewrite <- (prefix_bytes_list (buffer s') B Hall).
  assert (buffer (st_of (timed_close s')) = buffer s')
    as Hsame by done.
  rewrite <- Hsame. apply run_writes_prefix; [done| |]; rewrite Hsame.
  - intros j [b Hj]. rewrite Hb' in Hj.
    destruct (decide _) as [Hin|Hout]; [lia|].
    by rewrite Hb, lookup_empty in Hj.
  - split; [lia|]. split.
    + intros i Hi. replace i with (Z.of_nat (Z.to_nat i)) by lia.
      rewrite Hall. apply lookup_lt_is_Some. lia.
    + rewrite Hall. apply lookup_ge_None. lia.
Qed.

(** The segments of [read_file] on their way through the receiver. *)
Lemma file_reassembled (data : list byte) (s0 : Sender.state)
    (rnd : list (Z * Z)) (r : state) :
  let S := st_of (Sender.read_file data s0) in
  Sender.buffer s0 = [] ->
  awaiting (Sender.DSN S) r -> buffer r = ∅ ->
  0 <= Sender.DSN S ->
  Sender.DSN S + 1000 * Sender.buffer_size S <= 983040 ->
  length rnd = length (Sender.buffer S) -> Forall (fun r => 0 <= r.1) rnd ->
  run (st_of (timed_close (st_of (fw_listener
         (segments_from (Sender.DSN S) 0 (Sender.buffer S) rnd) r))))
  = Some (write_file data).1.
Proof.
  intros S Hb0 Hr Hb Hd Hlt Hlen Hrnd.
  assert (concat (Sender.buffer S) = data) as Hcat.
  { subst S. rewrite (read_file_buffer data s0 Hb0). apply segments_concat. }
  assert (Z.of_nat (length (Sender.buffer S)) = Sender.buffer_size S) as HN.
  { subst S. rewrite (read_file_buffer data s0 Hb0), length_fmap, length_seqZ.
    change (Sender.buffer_size (st_of (Sender.read_file data s0)))
      with (partitions (len data)).
    pose proof (partitions_nonneg (len data) ltac:(unfold len; lia)). lia. }
  rewrite <- Hcat.
  apply (reassembled (Sender.DSN S) (Sender.buffer S) rnd r); try done; [lia|].
  apply Forall_lookup. intros i b Hi. subst S.
  rewrite (read_file_buffer data s0 Hb0) in Hi.
  apply segments_sizes in Hi. lia.
Qed.

End ReassemblyFacts.

(** X21: the receiver puts the segments together again: when the segments
    of the positions 0, 1, ..., each with at most 1000 bytes, arrive in
    order at a receiver in its data phase with an empty buffer and no
    forward loss, with all sequence numbers within fifteen turns of the
    sequence space, the buffer holds segment [i] at position [i], whichever
    acknowledgements the reverse loss drops, and after the close timer [run]
    hands the segments, one after the other, to [decode('utf-8')] and the
    file opened in text mode: where these bytes are not well-formed UTF-8
    the file stays empty, where they are and the locale of the host encodes
    text as UTF-8 with the line separator ['\n'], the file holds them. *)
Theorem in_order_segments_are_reassembled `{Platform}
    (dsn : Z) (B : list (list byte)) (rnd : list (Z * Z)) (s : Receiver.state) :
  awaiting dsn s -> Receiver.buffer s = ∅ ->
  0 <= dsn -> dsn + 1000 * Z.of_nat (length B) <= 983040 ->
  Forall (fun b => len b <= 1000) B ->
  length rnd = length B -> Forall (fun r => 0 <= r.1) rnd ->
  let s' := st_of (Receiver.fw_listener (segments_from dsn 0 B rnd) s) in
  let out := Receiver.run (st_of (Receiver.timed_close s')) in
  (forall i : nat, Receiver.buffer s' !! Z.of_nat i = B !! i) /\
  out = Some (Receiver.write_file (concat B)).1 /\
  (utf8_valid (concat B) = false -> out = Some []) /\
  (utf8_valid (concat B) = true -> utf8_lf -> out = Some (concat B)).
Proof.
  intros Hs Hb Hd Hlt HB Hlen Hrnd s' out.
  destruct (reassembled dsn B rnd s Hs Hb Hd Hlt HB Hlen Hrnd) as [Hall Hout].
  fold s' in Hall, Hout. fold out in Hout.
  split; [exact Hall|]. split; [exact Hout|]. split.
  - intros Hv. by rewrite Hout, write_file_invalid.
  - intros Hv Hh. by rewrite Hout, write_file_utf8.
Qed.

Lemma in_order_segments_are_reassembled_witness :
  let B := [[x62]; [xc3; xa9; x64]] in
  let s := st_of (@Receiver.fw_listener_iter little [x02; x00; xcf; x07] 0 0
                    (Receiver.init 0 50)) in
  let s' := st_of (@Receiver.fw_listener little
              (@segments_from little 2000 0 B [(0, 10); (99, 70)]) s) in
  let out := @Receiver.run little (st_of (Receiver.timed_close s')) in
  (forall i : nat, Receiver.buffer s' !! Z.of_nat i = B !! i) /\
  out = Some (@Receiver.write_file little (concat B)).1 /\
  (utf8_valid (concat B) = false -> out = Some []) /\
  (utf8_valid (concat B) = true -> @utf8_lf little -> out = Some (concat B)).
Proof.
  intros B s.
  apply (@in_order_segments_are_reassembled little 2000 B
           [(0, 10); (99, 70)] s).
  - by repeat split.
  - reflexivity.
  - lia.
  - simpl. lia.
  - repeat (apply Forall_cons; split; [unfold len; simpl; lia|]). apply Forall_nil_2.
  - reflexivity.
  - repeat (apply Forall_cons; split; [simpl; lia|]). apply Forall_nil_2.
Defined.

(** X22: the text of the file comes out as it went in.  Let the input file
    hold the bytes [file], and let [data] be what [read_file] makes of them
    (the file is opened in text mode, [f.read().encode('utf-8')]).  When
    the segments that [read_file] has cut from [data] arrive in order, each
    as the datagram that [send_msg] makes of it under the sequence number
    of its position, at a receiver in its data phase with the sender's DSN,
    an empty buffer and no forward loss, and the data end within fifteen
    turns of the sequence space, then, whichever acknowledgements are lost,
    the output file holds what decoding [data] and writing it in text mode
    gives.  On a host whose locale encodes text as UTF-8 with the line
    separator ['\n'] these are the bytes of the input file with every
    ['\r\n'] and every other ['\r'] turned into ['\n']: the bytes of the
    input file itself when it holds no ['\r']. *)
Theorem file_round_trip_in_order `{Platform} (file data : list byte)
    (s0 : Sender.state) (rnd : list (Z * Z)) (r : Receiver.state) :
  Sender.read_text file = Some data ->
  let S := st_of (Sender.read_file data s0) in
  Sender.buffer s0 = [] ->
  awaiting (Sender.DSN S) r -> Receiver.buffer r = ∅ ->
  0 <= Sender.DSN S ->
  Sender.DSN S + 1000 * Sender.buffer_size S <= 983040 ->
  length rnd = length (Sender.buffer S) -> Forall (fun r => 0 <= r.1) rnd ->
  let out := Receiver.run (st_of (Receiver.timed_close (st_of (Receiver.fw_listener
               (segments_from (Sender.DSN S) 0 (Sender.buffer S) rnd) r)))) in
  (forall (i : nat) b,
     datagram (snd 0 ((Sender.DSN S + 1000 * Z.of_nat i) mod 2 ^ 16) b) =
       Some (segment_datagram (Sender.DSN S) i b)) /\
  out = Some (Receiver.write_file data).1 /\
  (utf8_lf -> out = Some (universal_newlines file)) /\
  (utf8_lf -> Forall (fun c => Z_of_byte c <> 13) file -> out = Some file).
Proof.
  intros Hf S Hb0 Hr Hb Hd Hlt Hlen Hrnd out.
  assert (out = Some (Receiver.write_file data).1) as Hout
    by (by apply file_reassembled).
  assert (utf8_lf -> out = Some (universal_newlines file)) as Hu.
  { intros Hh. destruct (read_text_utf8_lf file data Hh Hf) as [Hv ->].
    rewrite Hout, write_file_utf8; [done|done|]. by apply utf8_valid_newlines. }
  split; [intros i b; apply segment_datagram_wire|].
  split; [exact Hout|]. split; [exact Hu|].
  intros Hh Hcr. rewrite (Hu Hh). f_equal. by apply universal_newlines_id.
Qed.

Lemma file_round_trip_in_order_witness :
  let file := [x61; x0d; x0a] ++ replicate 1500 x62 in
  let data := [x61; x0a] ++ replicate 1500 x62 in
  let S := st_of (Sender.read_file data (Sender.init 3000 1999)) in
  let r := st_of (@Receiver.fw_listener_iter little [x02; x00; xcf; x07] 0 0
                    (Receiver.init 0 50)) in
  let out := @Receiver.run little (st_of (Receiver.timed_close
               (st_of (@Receiver.fw_listener little
                  (@segments_from little (Sender.DSN S) 0 (Sender.buffer S)
                     [(0, 10); (99, 70)]) r)))) in
  (forall (i : nat) b,
     @datagram little (snd 0 ((Sender.DSN S + 1000 * Z.of_nat i) mod 2 ^ 16) b) =
       Some (@segment_datagram little (Sender.DSN S) i b)) /\
  out = Some (@Receiver.write_file little data).1 /\
  (@utf8_lf little -> out = Some (universal_newlines file)) /\
  (@utf8_lf little -> Forall (fun c => Z_of_byte c <> 13) file -> out = Some file).
Proof.
  intros file data S r.
  apply (@file_round_trip_in_order little file data
           (Sender.init 3000 1999) [(0, 10); (99, 70)] r).
  - vm_compute. reflexivity.
  - reflexivity.
  - by repeat split.
  - reflexivity.
  - vm_compute. discriminate.
  - vm_compute. discriminate.
  - reflexivity.
  - repeat (apply Forall_cons; split; [simpl; lia|]). apply Forall_nil_2.
Defined.

(** ** The empty file, the whole run *)

Section EmptyFileRun.
Context `{Platform} {W : Type} (env : W -> list event -> W * list input).

Import Sender.


End EmptyFileRun.

Section Idle.
Context `{Platform}.
Import Sender.

Lemma idle_loop n (s : Sender.state) (r : Receiver.state) :
  sendingdata s = true -> terminate s = false -> active s = true ->
  win_lb s = 0 -> win_ub s = -1 -> Receiver.active r = true ->
  transeg_exec_hdlr lockstep n (s, (r, true)) = ((s, (r, true)), [], inr fuel).
Proof.
  intros Hsd Ht Ha Hlb Hub Hr. induction n as [|n IH]; [done|].
  assert (yield lockstep [] (s, (r, true)) = ((s, (r, true)), [], inl tt)) as Hy.
  { unfold yield, lockstep. simpl. unfold mbind, M_bind, get, modify, lift. simpl.
    rewrite Hr. reflexivity. }
  cbn [transeg_exec_hdlr].
  rewrite (bind_inl get _ _ (s, (r, true)) [] (s, (r, true)) eq_refl).
  cbn [fst Datatypes.snd]. rewrite Hsd, Ht, Ha, Hlb, Hub. cbn [negb].
  change (seqZ 0 (-1 + 1 - 0)) with (@nil Z). cbn [transeg_for].
  rewrite (bind_inl (mret tt) _ _ (s, (r, true)) [] tt eq_refl).
  rewrite (bind_inl _ _ _ _ _ _ Hy). rewrite IH. reflexivity.
Qed.

End Idle.

Lemma empty_file_in_lockstep n :
  let r := @Sender.run little _ (@lockstep little) n []
             (Sender.init 3000 7, (Receiver.init 0 0, true)) in
  tr_of r = [snd 2 7 []; sleep] /\ val_of r = inr fuel /\
  Sender.established (st_of r).1 = true /\ Sender.sendingdata (st_of r).1 = true /\
  Sender.finished (st_of r).1 = false.
Proof.
  intros r. subst r. unfold Sender.run.
  set (sw0 := (Sender.init 3000 7, (Receiver.init 0 0, true))).
  destruct (@Sender.estab_hdlr little _ (@lockstep little) sw0) as [[[s1 [r1 b1]] t1] v1] eqn:He.
  assert (t1 = [snd 2 7 []; sleep] /\ v1 = inl tt /\ b1 = true /\
          Sender.established s1 = true /\ Sender.sendingdata s1 = true /\
          Sender.terminate s1 = false /\ Sender.active s1 = true /\
          Sender.win_lb s1 = 0 /\ Sender.finished s1 = false /\
          Receiver.active r1 = true /\ Sender.win_size s1 = 3)
    as (-> & -> & -> & H1 & H2 & H3 & H4 & H5 & H6 & H7 & H8).
  { vm_compute in He. injection He as <- <- <- <- <-. repeat split; reflexivity. }
  rewrite (bind_inl _ _ _ _ _ _ He).
  assert (@Sender.lift _ _ (Sender.read_file []) (s1, (r1, true)) =
          ((st_of (Sender.read_file [] s1), (r1, true)), [], inl tt)) as Hr by done.
  rewrite (bind_inl _ _ _ _ _ _ Hr). cbn [st_of tr_of val_of fst Datatypes.snd].
  set (s2 := (Sender.read_file [] s1).1.1).
  assert (Sender.win_ub s2 = -1) as Hub
    by (subst s2; unfold Sender.read_file; mrun; simpl; rewrite H8; reflexivity).
  pose proof (@idle_loop little n s2 r1 H2 H3 H4 H5 Hub H7) as Hloop.
  rewrite (bind_inr _ _ _ _ _ _ Hloop).
  cbn [fst Datatypes.snd]. repeat split; try done.
Qed.


(** ** Handshake and teardown, the attempts *)

Section Paced.
Context `{Platform} {W : Type} (env : W -> list event -> W * list input).

Import Sender.

Lemma paced_free f tr : count (is_snd f) tr = O -> paced f tr.
Proof.
  induction tr as [|e tr IH]; [done|]. intros Hc.
  change (e :: tr) with ([e] ++ tr) in Hc. rewrite count_app, count_one in Hc.
  simpl. split.
  - intros He. rewrite He in Hc. lia.
  - apply IH. lia.
Qed.

Lemma paced_app f t1 t2 : paced f t1 -> paced f t2 -> paced f (t1 ++ t2).
Proof.
  induction t1 as [|e t1 IH]; [done|]. intros [He Ht] H2. simpl. split.
  - intros Hs. destruct (He Hs) as [t ->]. by eexists.
  - by apply IH.
Qed.

Lemma paced_attempt f q t : paced f t -> paced f (snd f q [] :: sleep :: t).
Proof.
  intros Ht. simpl. split; [intros _; by eexists|]. split; [done|exact Ht].
Qed.

Lemma estab_exec_paced n i sw : paced 2 (tr_of (estab_exec env n i sw)).
Proof.
  revert i sw. induction n as [|n IH]; intros i sw; simpl; [done|].
  rewrite (bind_inl get _ sw sw [] sw eq_refl). simpl.
  pose proof (attempt_eq 2 (ISN sw.1) sw ltac:(done)) as Ha.
  destruct (pack_2H 2 (ISN sw.1)) as [h|].
  2: { by rewrite (bind_inr _ _ _ _ _ _ Ha). }
  rewrite (bind_inl _ _ _ _ _ _ Ha). unfold tr_of at 1. simpl.
  pose proof (yield_sends_data env 2 [snd 2 (ISN sw.1) []; sleep] sw ltac:(done)) as Hy.
  destruct (yield env _ sw) as [[sw1 tr1] [[]|e]] eqn:Hyd; unfold tr_of in Hy;
    simpl in Hy.
  2: { rewrite (bind_inr _ _ _ _ _ _ Hyd). unfold tr_of. simpl.
       split; [intros _; by eexists|]. split; [done|]. by apply paced_free. }
  rewrite (bind_inl _ _ _ _ _ _ Hyd). unfold tr_of at 1. simpl.
  rewrite (bind_inl get _ sw1 sw1 [] sw1 eq_refl). unfold tr_of at 1. simpl.
  split; [intros _; by eexists|]. split; [done|].
  apply paced_app; [by apply paced_free|].
  destruct (negb (established sw1.1)); [|done].
  destruct (terminate sw1.1 || negb (active sw1.1)); [done|].
  destruct (i =? 4); [done|]. apply IH.
Qed.

Lemma fin_exec_paced n i sw : paced 3 (tr_of (fin_exec env n i sw)).
Proof.
  revert i sw. induction n as [|n IH]; intros i sw; simpl; [done|].
  rewrite (bind_inl get _ sw sw [] sw eq_refl). simpl.
  pose proof (attempt_eq 3 (FSN sw.1) sw ltac:(done)) as Ha.
  destruct (pack_2H 3 (FSN sw.1)) as [h|].
  2: { by rewrite (bind_inr _ _ _ _ _ _ Ha). }
  rewrite (bind_inl _ _ _ _ _ _ Ha). unfold tr_of at 1. simpl.
  pose proof (yield_sends_data env 3 [snd 3 (FSN sw.1) []; sleep] sw ltac:(done)) as Hy.
  destruct (yield env _ sw) as [[sw1 tr1] [[]|e]] eqn:Hyd; unfold tr_of in Hy;
    simpl in Hy.
  2: { rewrite (bind_inr _ _ _ _ _ _ Hyd). unfold tr_of. simpl.
       split; [intros _; by eexists|]. split; [done|]. by apply paced_free. }
  rewrite (bind_inl _ _ _ _ _ _ Hyd). unfold tr_of at 1. simpl.
  rewrite (bind_inl get _ sw1 sw1 [] sw1 eq_refl). unfold tr_of at 1. simpl.
  split; [intros _; by eexists|]. split; [done|].
  apply paced_app; [by apply paced_free|].
  destruct (negb (finished sw1.1)); [|done].
  destruct (terminate sw1.1 || negb (active sw1.1)); [done|].
  destruct (i =? 4); [done|]. apply IH.
Qed.

Lemma thread_paced {S A} f (m : M S A) s :
  paced f (tr_of (m s)) -> paced f (tr_of (thread m s)).
Proof.
  unfold thread, tr_of. destruct (m s) as [[s1 t1] [a|e]]; simpl; [done|].
  intros Ht. by apply paced_app.
Qed.

Lemma estab_hdlr_paced sw : paced 2 (tr_of (estab_hdlr env sw)).
Proof.
  unfold estab_hdlr.
  pose proof (thread_paced 2 _ sw (estab_exec_paced recursion_limit 1 sw)) as Hx.
  destruct (thread _ sw) as [[sw1 tr1] [[]|e]] eqn:Ht; unfold tr_of in Hx;
    simpl in Hx.
  2: { by rewrite (bind_inr _ _ _ _ _ _ Ht). }
  rewrite (bind_inl _ _ _ _ _ _ Ht).
  rewrite (bind_inl get _ sw1 sw1 [] sw1 eq_refl). unfold tr_of. simpl.
  apply paced_app; [done|].
  repeat match goal with |- context [if ?b then _ else _] => destruct b end;
    rewrite ?lift_reset, ?lift_close; simpl; done.
Qed.

Lemma fin_hdlr_paced sw : paced 3 (tr_of (fin_hdlr env sw)).
Proof.
  unfold fin_hdlr.
  pose proof (thread_paced 3 _ sw (fin_exec_paced recursion_limit 1 sw)) as Hx.
  destruct (thread _ sw) as [[sw1 tr1] [[]|e]] eqn:Ht; unfold tr_of in Hx;
    simpl in Hx.
  2: { by rewrite (bind_inr _ _ _ _ _ _ Ht). }
  rewrite (bind_inl _ _ _ _ _ _ Ht).
  rewrite (bind_inl get _ sw1 sw1 [] sw1 eq_refl). unfold tr_of. simpl.
  apply paced_app; [done|].
  repeat match goal with |- context [if ?b then _ else _] => destruct b end;
    rewrite ?lift_reset, ?lift_close; simpl; done.
Qed.

End Paced.

(** C5, as amended: in the handshake and in the teardown the sender sends
    SYN, respectively FIN, at most four times, each transmission followed
    by the sleep of [rto] of the executor; and when the peer sends no RESET,
    a handshake that ends without the connection established, and a
    teardown that ends without the FIN acknowledged, end with the sender
    having sent exactly one RESET, with sequence number 0, and having
    called [close()], which exits. *)
Theorem four_attempts_then_reset `{Platform} {W : Type}
    (env : W -> list event -> W * list input) (s : Sender.state) (w : W) :
  Sender.active s = true ->
  0 <= Sender.ISN s < 65536 -> 0 <= Sender.FSN s < 65536 ->
  let e := Sender.estab_hdlr env (s, w) in
  let f := Sender.fin_hdlr env (s, w) in
  ((count (is_snd 2) (tr_of e) <= 4)%nat /\ paced 2 (tr_of e) /\
   (unreset env -> Sender.established (st_of e).1 = false -> reset_sent e)) /\
  ((count (is_snd 3) (tr_of f) <= 4)%nat /\ paced 3 (tr_of f) /\
   (unreset env -> Sender.finished (st_of f).1 = false -> reset_sent f)).
Proof.
  intros Ha Hi Hf e f.
  assert (alive (s, w).1 []) as HI.
  { simpl. split; [done|]. split; [|done]. split; [lia|]. split; [lia|]. constructor. }
  split; (split; [|split]).
  - apply estab_hdlr_at_most.
  - apply estab_hdlr_paced.
  - intros He Hno. by apply given_up_reset_sent, estab_hdlr_gives_up.
  - apply fin_hdlr_at_most.
  - apply fin_hdlr_paced.
  - intros He Hno. by apply given_up_reset_sent, fin_hdlr_gives_up.
Qed.

Lemma four_attempts_then_reset_witness :
  let e := @Sender.estab_hdlr little unit nobody (Sender.init 3000 7, tt) in
  let f := @Sender.fin_hdlr little unit nobody (Sender.init 3000 7, tt) in
  ((count (is_snd 2) (tr_of e) <= 4)%nat /\ paced 2 (tr_of e) /\
   (@unreset little unit nobody -> Sender.established (st_of e).1 = false ->
    reset_sent e)) /\
  ((count (is_snd 3) (tr_of f) <= 4)%nat /\ paced 3 (tr_of f) /\
   (@unreset little unit nobody -> Sender.finished (st_of f).1 = false ->
    reset_sent f)).
Proof.
  apply (@four_attempts_then_reset little unit nobody (Sender.init 3000 7) tt).
  - reflexivity.
  - simpl. lia.
  - simpl. lia.
Defined.

(** C5, as stated, fails: when the RESET of the peer arrives while the
    sender sleeps after its fourth SYN, respectively FIN, the fourth
    transmission has got no matching ACK, and the sender closes and exits
    without sending a RESET. *)
Lemma peer_reset_ends_without_reset :
  let e := @Sender.estab_hdlr little nat reset_on_fourth (Sender.init 3000 7, O) in
  let f := @Sender.fin_hdlr little nat reset_on_fourth (Sender.init 3000 7, O) in
  (count (is_snd 2) (tr_of e) = 4%nat /\ count (is_snd 4) (tr_of e) = O /\
   Sender.established (st_of e).1 = false /\ val_of e = inr SystemExit) /\
  (count (is_snd 3) (tr_of f) = 4%nat /\ count (is_snd 4) (tr_of f) = O /\
   Sender.finished (st_of f).1 = false /\ val_of f = inr SystemExit).
Proof. vm_compute. repeat split; reflexivity. Qed.

(** ** The whole transfer *)

(** C1, the code at failing inputs.  The input file is opened in text mode:
    of the four bytes a, CR, LF, b the sender reads the three bytes a, LF,
    b, and these are what the receiver, with nothing lost, writes to its
    file.  And with the empty file the transfer does not come to its end,
    however many rounds the sending loop of the sender is given: the
    receiver sees no FIN and writes nothing. *)
Theorem round_trip_rewrites_line_ends :
  (@Sender.read_text little [x61; x0d; x0a; x62] = Some [x61; x0a; x62] /\
   @transfer little 5 3000 7 [x61; x0a; x62] = Some [x61; x0a; x62] /\
   [x61; x0a; x62] <> [x61; x0d; x0a; x62]) /\
  (forall n : nat, @transfer little n 3000 7 [] = None).
Proof.
  split.
  - split; [vm_compute; reflexivity|]. split; [vm_compute; reflexivity|done].
  - intros n. unfold transfer.
    destruct (empty_file_in_lockstep n) as (_ & Hv & _).
    unfold val_of in Hv.
    destruct (Sender.run lockstep n [] _) as [[[s [r b]] tr] v]. simpl in Hv.
    by rewrite Hv.
Qed.
